(** * NotesApp: the note codec, the hash chain, the storage and the utilities

    A shallow embedding of [src/services/encryptionService.ts],
    [src/services/blockchainService.ts], [src/services/storageService.ts]
    and [src/utils], and of the save handlers of the create and
    edit screens, with the types of [src/types/index.ts]; and the
    properties of the design document checked against it.

    Conventions.  A JavaScript string is a Rocq [string], read as the UTF-8
    bytes that CryptoJS hashes.  A JavaScript number is a [Z]: every number
    the services write ([Date.now()], the nonce counter, the millisecond
    value of a [Date]) is an integer, taken to stay within the range a
    number counts exactly (up to [2^53]).  The static field
    [BlockchainService.chain] is threaded explicitly.

    The services are given twice.  [Service] has [BlockchainService] on a
    chain of the type it declares, [BlockchainNote[]].  [Runtime] has the
    part that runs on whatever [JSON.parse] returned, [validateChain] and
    [importBlockchain], on JavaScript values; on a chain of blocks the two
    agree ([runtime_validateChain]).  [RuntimeChain] has the methods that
    read the field after an import.  [Counted] has the loop of [mineBlock]
    with the nonce counted as a number counts; up to [2^53] it is the loop
    of [Service] ([counted_mineBlock]).

    [StorageService] runs on what [JSON.parse] returned too, with the
    codec on JavaScript values ([RuntimeNotes]).  [AsyncStorage] is the
    item of each key, and an [async] method is the promise it settles with
    the storage it leaves.  The utilities are on notes of the declared
    type; what the host decides (the comparison of the locale, the lower
    case of a text, the local form of a date) is a parameter of theirs. *)

From Stdlib Require Import ZArith NArith List String Ascii Bool Lia.
From Stdlib Require Import DecimalString DecimalZ DecimalN DecimalPos DecimalFacts.
From Stdlib Require Import Sorted Permutation.
Import ListNotations.

Local Open Scope string_scope.
Local Open Scope Z_scope.

(** ** SHA-256 ([CryptoJS.SHA256]) *)

Module SHA256.
Local Open Scope N_scope.

Definition mask32 (x : N) : N := N.land x 0xFFFFFFFF.
Definition add32 (x y : N) : N := mask32 (x + y).
Definition rotr (n x : N) : N :=
  N.lor (N.shiftr x n) (mask32 (N.shiftl x (32 - n))).
Definition not32 (x : N) : N := N.lxor x 0xFFFFFFFF.

Definition Ch (x y z : N) := N.lxor (N.land x y) (N.land (not32 x) z).
Definition Maj (x y z : N) :=
  N.lxor (N.lxor (N.land x y) (N.land x z)) (N.land y z).
Definition bigS0 x := N.lxor (N.lxor (rotr 2 x) (rotr 13 x)) (rotr 22 x).
Definition bigS1 x := N.lxor (N.lxor (rotr 6 x) (rotr 11 x)) (rotr 25 x).
Definition smallS0 x := N.lxor (N.lxor (rotr 7 x) (rotr 18 x)) (N.shiftr x 3).
Definition smallS1 x := N.lxor (N.lxor (rotr 17 x) (rotr 19 x)) (N.shiftr x 10).

(** The round constants are the first 32 bits of the fractional parts of
    the cube roots of the first 64 primes, and the initial registers those
    of the square roots of the first 8. *)
Definition is_prime (p : nat) : bool :=
  forallb (fun d => negb (p mod d =? 0)%nat) (seq 2 (p - 2)).

Definition primes : list N := map N.of_nat (filter is_prime (seq 2 310)).

(** The largest [r] below [2 ^ bits] with [r ^ 3 <= x]. *)
Fixpoint cube_root (bits : nat) (x r : N) : N :=
  match bits with
  | O => r
  | S bits' =>
      let r' := r + N.shiftl 1 (N.of_nat bits') in
      cube_root bits' x (if r' * r' * r' <=? x then r' else r)
  end.

Definition K : list N :=
  Eval vm_compute in
    map (fun p => mask32 (cube_root 36 (N.shiftl p 96) 0)) primes.

(** Padding: the byte 0x80, zero bytes up to 56 modulo 64, then the bit
    length on eight bytes, most significant first. *)
Definition be_bytes (count : nat) (x : N) : list N :=
  map (fun i => N.land (N.shiftr x (8 * N.of_nat i)) 0xFF) (rev (seq 0 count)).

Definition pad (msg : list N) : list N :=
  let len := N.of_nat (List.length msg) in
  let zeros := N.to_nat ((119 - len mod 64) mod 64) in
  msg ++ 0x80 :: repeat 0 zeros ++ be_bytes 8 (8 * len).

Fixpoint words (bs : list N) : list N :=
  match bs with
  | a :: b :: c :: d :: rest =>
      (N.shiftl a 24 + N.shiftl b 16 + N.shiftl c 8 + d) :: words rest
  | _ => []
  end.

Fixpoint chunks (count : nat) (ws : list N) : list (list N) :=
  match count with
  | O => []
  | S k => firstn 16 ws :: chunks k (skipn 16 ws)
  end.

(** The message schedule, kept newest word first while it is extended. *)
Fixpoint extend (count : nat) (rev_w : list N) : list N :=
  match count with
  | O => rev_w
  | S k =>
      let at_ i := nth i rev_w 0 in
      extend k (add32 (add32 (smallS1 (at_ 1%nat)) (at_ 6%nat))
                      (add32 (smallS0 (at_ 14%nat)) (at_ 15%nat)) :: rev_w)
  end.

Definition schedule (chunk : list N) : list N := rev (extend 48 (rev chunk)).

Record regs := Regs { ra : N; rb : N; rc : N; rd : N; re : N; rf : N; rg : N; rh : N }.

Definition round (r : regs) (kw : N * N) : regs :=
  let t1 := add32 (add32 (add32 (rh r) (bigS1 (re r))) (Ch (re r) (rf r) (rg r)))
                  (add32 (fst kw) (snd kw)) in
  let t2 := add32 (bigS0 (ra r)) (Maj (ra r) (rb r) (rc r)) in
  Regs (add32 t1 t2) (ra r) (rb r) (rc r) (add32 (rd r) t1) (re r) (rf r) (rg r).

Definition compress (h : regs) (chunk : list N) : regs :=
  let r := fold_left round (combine K (schedule chunk)) h in
  Regs (add32 (ra h) (ra r)) (add32 (rb h) (rb r)) (add32 (rc h) (rc r))
       (add32 (rd h) (rd r)) (add32 (re h) (re r)) (add32 (rf h) (rf r))
       (add32 (rg h) (rg r)) (add32 (rh h) (rh r)).

Definition root_bits (p : N) : N := mask32 (N.sqrt (N.shiftl p 64)).

Definition init : regs :=
  Eval vm_compute in
    match map root_bits primes with
    | a :: b :: c :: d :: e :: f :: g :: h :: _ => Regs a b c d e f g h
    | _ => Regs 0 0 0 0 0 0 0 0
    end.

Definition digest (msg : list N) : list N :=
  let ws := words (pad msg) in
  let r := fold_left compress (chunks (List.length ws / 16) ws) init in
  flat_map (be_bytes 4) [ra r; rb r; rc r; rd r; re r; rf r; rg r; rh r].
End SHA256.

(** Lower-case hexadecimal, two digits per byte ([WordArray.toString()]). *)
Definition hex_digit (n : N) : ascii :=
  if (n <? 10)%N then ascii_of_N (48 + n) else ascii_of_N (87 + n).

Fixpoint hex_of_bytes (bs : list N) : string :=
  match bs with
  | [] => EmptyString
  | b :: rest =>
      String (hex_digit (N.shiftr b 4))
             (String (hex_digit (N.land b 15)) (hex_of_bytes rest))
  end.

Fixpoint bytes_of_string (s : string) : list N :=
  match s with
  | EmptyString => []
  | String c rest => N_of_ascii c :: bytes_of_string rest
  end.


(** [EncryptionService.generateHash]: [CryptoJS.SHA256(data).toString()]. *)
Definition generateHash (data : string) : string :=
  hex_of_bytes (SHA256.digest (bytes_of_string data)).

(** [EncryptionService.verifyHash]. *)
Definition verifyHash (data hash : string) : bool :=
  let generatedHash := generateHash data in
  String.eqb generatedHash hash.

(** ** Numbers and dates as text *)

(** [String(n)] for an integer [n]. *)
Definition decimal (n : Z) : string := NilZero.string_of_int (Z.to_int n).

(** The decimal digits of [n], padded with zeros on the left to [width]. *)
Fixpoint padded (width : nat) (n : Z) : string :=
  match width with
  | O => EmptyString
  | S k => padded k (n / 10) ++ String (ascii_of_N (48 + Z.to_N (n mod 10))) EmptyString
  end.

(** The civil date (year, month, day) of a day count from 1970-01-01. *)
Definition civil_from_days (days : Z) : Z * Z * Z :=
  let z := days + 719468 in
  let era := z / 146097 in
  let doe := z - era * 146097 in
  let yoe := (doe - doe / 1460 + doe / 36524 - doe / 146096) / 365 in
  let doy := doe - (365 * yoe + yoe / 4 - yoe / 100) in
  let mp := (5 * doy + 2) / 153 in
  let d := doy - (153 * mp + 2) / 5 + 1 in
  let m := if mp <? 10 then mp + 3 else mp - 9 in
  let y := yoe + era * 400 + (if m <=? 2 then 1 else 0) in
  (y, m, d).

(** [Date.prototype.toISOString] of the time value [t], in milliseconds. *)
Definition toISOString (t : Z) : string :=
  let '(y, m, d) := civil_from_days (t / 86400000) in
  let ms := t mod 86400000 in
  let year :=
    if (0 <=? y) && (y <=? 9999) then padded 4 y
    else if y <? 0 then "-" ++ padded 6 (- y) else "+" ++ padded 6 y in
  year ++ "-" ++ padded 2 m ++ "-" ++ padded 2 d ++ "T"
       ++ padded 2 (ms / 3600000) ++ ":" ++ padded 2 (ms / 60000 mod 60) ++ ":"
       ++ padded 2 (ms / 1000 mod 60) ++ "." ++ padded 3 (ms mod 1000) ++ "Z".

(** ** JavaScript values

    The values the chain can hold at run time: what [JSON.parse] returns,
    [Date] objects, and [undefined].  An object is the list of its own
    properties in property order. *)

Unset Elimination Schemes.
Inductive value : Type :=
| VUndefined
| VNull
| VBool (b : bool)
| VNum (n : Z)
| VStr (s : string)
| VDate (t : Z)
| VArr (items : list value)
| VObj (props : list (string * value)).
Set Elimination Schemes.

Definition dquote : ascii := "034"%char.
Definition newline : ascii := "010"%char.

Fixpoint join (sep : string) (parts : list string) : string :=
  match parts with
  | [] => EmptyString
  | [p] => p
  | p :: rest => p ++ sep ++ join sep rest
  end.

(** [QuoteJSONString]: the short escapes, [\u00xx] for the other control
    characters, every other byte as it is. *)
Definition escape_char (c : ascii) : string :=
  let n := N_of_ascii c in
  if (n =? 8)%N then "\b"
  else if (n =? 9)%N then "\t"
  else if (n =? 10)%N then "\n"
  else if (n =? 12)%N then "\f"
  else if (n =? 13)%N then "\r"
  else if (n =? 34)%N then String "\" (String dquote EmptyString)
  else if (n =? 92)%N then "\\"
  else if (n <? 32)%N then
    "\u00" ++ String (hex_digit (N.shiftr n 4)) (String (hex_digit (N.land n 15)) EmptyString)
  else String c EmptyString.

Fixpoint escape (s : string) : string :=
  match s with
  | EmptyString => EmptyString
  | String c rest => escape_char c ++ escape rest
  end.

Definition quote (s : string) : string :=
  String dquote (escape s ++ String dquote EmptyString).

(** [SerializeJSONProperty] with the indentation unit [gap]; [None] is the
    result [undefined].  Inside an array [undefined] is written [null];
    inside an object the property is left out.  A [Date] is written through
    its [toJSON], that is [toISOString]. *)
Section Serialize.
Variable gap : string.

Definition wrap (open_ close_ indent : string) (partial : list string) : string :=
  match partial with
  | [] => open_ ++ close_
  | _ =>
      match gap with
      | EmptyString => open_ ++ join "," partial ++ close_
      | _ =>
          let inner := indent ++ gap in
          let nl := String newline EmptyString in
          open_ ++ nl ++ inner ++ join ("," ++ nl ++ inner) partial
                ++ nl ++ indent ++ close_
      end
  end.

Definition colon : string :=
  match gap with EmptyString => ":" | _ => ": " end.

Fixpoint SerializeJSON (indent : string) (v : value) : option string :=
  match v with
  | VUndefined => None
  | VNull => Some "null"
  | VBool b => Some (if b then "true" else "false")
  | VNum n => Some (decimal n)
  | VStr s => Some (quote s)
  | VDate t => Some (quote (toISOString t))
  | VArr items =>
      let elements :=
        (fix elements (l : list value) : list string :=
           match l with
           | [] => []
           | x :: rest =>
               match SerializeJSON (indent ++ gap) x with
               | Some s => s
               | None => "null"
               end :: elements rest
           end) items in
      Some (wrap "[" "]" indent elements)
  | VObj props =>
      let members :=
        (fix members (l : list (string * value)) : list string :=
           match l with
           | [] => []
           | (k, x) :: rest =>
               match SerializeJSON (indent ++ gap) x with
               | Some s => (quote k ++ colon ++ s) :: members rest
               | None => members rest
               end
           end) props in
      Some (wrap "{" "}" indent members)
  end.
End Serialize.

(** [JSON.stringify(v)] and [JSON.stringify(v, null, 2)]. *)
Definition JSON_stringify (v : value) : option string :=
  SerializeJSON EmptyString EmptyString v.

Definition JSON_stringify_indent2 (v : value) : option string :=
  SerializeJSON "  " EmptyString v.

(** A value in a template literal: [undefined] prints as its name. *)
Definition template_of (r : option string) : string :=
  match r with
  | Some s => s
  | None => "undefined"
  end.

(** ** Outcomes of a call

    A call returns, throws, or leaves the part of JavaScript this
    development describes ([Unmodelled]): a number that is not an integer of
    the exact range, a string with a lone surrogate, a coercion of an object
    to a primitive. *)

Inductive error : Type := TypeError | SyntaxError | CipherError.

Inductive outcome (A : Type) : Type :=
| Returns (a : A)
| Throws (e : error)
| Unmodelled.

Arguments Returns {A} a.
Arguments Throws {A} e.
Arguments Unmodelled {A}.

Definition obind {A B : Type} (o : outcome A) (f : A -> outcome B) : outcome B :=
  match o with
  | Returns a => f a
  | Throws e => Throws e
  | Unmodelled => Unmodelled
  end.

Declare Scope outcome_scope.
Delimit Scope outcome_scope with outcome.
Notation "x <- o ;; k" := (obind o (fun x => k))
  (at level 61, o at next level, right associativity) : outcome_scope.
Notation "' p <- o ;; k" := (obind o (fun x => let p := x in k))
  (at level 61, p pattern, o at next level, right associativity) : outcome_scope.

(** ** [JSON.parse] *)

Module Parse.
Local Open Scope outcome_scope.
Local Open Scope N_scope.

Definition is_ws (c : ascii) : bool :=
  let n := N_of_ascii c in
  (n =? 32) || (n =? 9) || (n =? 10) || (n =? 13).

Definition is_digit (c : ascii) : bool :=
  let n := N_of_ascii c in (48 <=? n) && (n <=? 57).

Fixpoint skip_ws (s : string) : string :=
  match s with
  | String c rest => if is_ws c then skip_ws rest else s
  | EmptyString => s
  end.

(** [expect lit s]: [s] without its prefix [lit]. *)
Fixpoint expect (lit s : string) : option string :=
  match lit, s with
  | EmptyString, _ => Some s
  | String a lit', String b s' => if Ascii.eqb a b then expect lit' s' else None
  | _, _ => None
  end.

(** A run of digits: its value after [acc], how many there are, the rest. *)
Fixpoint digits (s : string) (acc : N) (count : nat) : N * nat * string :=
  match s with
  | String c rest =>
      if is_digit c then digits rest (10 * acc + (N_of_ascii c - 48)) (S count)
      else (acc, count, s)
  | EmptyString => (acc, count, s)
  end.

(** The integer part: [0], or a digit from 1 to 9 and any digits. *)
Definition int_part (s : string) : option (N * string) :=
  match s with
  | String c rest =>
      if Ascii.eqb c "0" then Some (0, rest)
      else if is_digit c then
        let '(n, _, rest') := digits s 0 0%nat in Some (n, rest')
      else None
  | EmptyString => None
  end.

Definition frac_part (s : string) : option (N * nat * string) :=
  match s with
  | String "." rest =>
      let '(n, count, rest') := digits rest 0 0%nat in
      match count with
      | O => None
      | _ => Some (n, count, rest')
      end
  | _ => Some (0, O, s)
  end.

Definition exp_part (s : string) : option (Z * string) :=
  match s with
  | String c rest =>
      if Ascii.eqb c "e" || Ascii.eqb c "E" then
        let '(negative, rest) :=
          match rest with
          | String "-" r => (true, r)
          | String "+" r => (false, r)
          | _ => (false, rest)
          end in
        let '(n, count, rest') := digits rest 0 0%nat in
        match count with
        | O => None
        | _ => Some (if negative then (- Z.of_N n)%Z else Z.of_N n, rest')
        end
      else Some (0%Z, s)
  | EmptyString => Some (0%Z, s)
  end.

(** The largest integer below which every integer is a number. *)
Definition exact_bound : Z := 9007199254740992.

(** A number literal without its sign.  Its value is
    [(int . frac) * 10 ^ exp]; it is modelled when that is an integer of
    the exact range. *)
Definition unsigned_number (negative : bool) (s : string) : outcome (Z * string) :=
  match int_part s with
  | None => Throws SyntaxError
  | Some (i, s2) =>
      match frac_part s2 with
      | None => Throws SyntaxError
      | Some (f, places, s3) =>
          match exp_part s3 with
          | None => Throws SyntaxError
          | Some (e, s4) =>
              let mantissa := (Z.of_N i * 10 ^ Z.of_nat places + Z.of_N f)%Z in
              let shift := (e - Z.of_nat places)%Z in
              if (mantissa =? 0)%Z then Returns (0%Z, s4)
              else if (Z.abs shift >? 400)%Z then Unmodelled
              else
                let magnitude :=
                  if (0 <=? shift)%Z then Some (mantissa * 10 ^ shift)%Z
                  else if (mantissa mod 10 ^ (- shift) =? 0)%Z
                       then Some (mantissa / 10 ^ (- shift))%Z
                       else None in
                match magnitude with
                | Some m =>
                    if (m <=? exact_bound)%Z
                    then Returns (if negative then (- m)%Z else m, s4)
                    else Unmodelled
                | None => Unmodelled
                end
          end
      end
  end.

Definition number (s : string) : outcome (Z * string) :=
  match s with
  | String "-" r => unsigned_number true r
  | _ => unsigned_number false s
  end.

Definition hex_value (c : ascii) : option N :=
  let n := N_of_ascii c in
  if (48 <=? n) && (n <=? 57) then Some (n - 48)
  else if (97 <=? n) && (n <=? 102) then Some (n - 87)
  else if (65 <=? n) && (n <=? 70) then Some (n - 55)
  else None.

(** Four hexadecimal digits. *)
Definition hex4 (s : string) : option (N * string) :=
  match s with
  | String a (String b (String c (String d rest))) =>
      match hex_value a, hex_value b, hex_value c, hex_value d with
      | Some x, Some y, Some z, Some w => Some (4096 * x + 256 * y + 16 * z + w, rest)
      | _, _, _, _ => None
      end
  | _ => None
  end.

Definition byte (n : N) : string := String (ascii_of_N n) EmptyString.

Definition utf8 (cp : N) : string :=
  if cp <? 0x80 then byte cp
  else if cp <? 0x800 then
    (byte (0xC0 + N.shiftr cp 6) ++ byte (0x80 + N.land cp 0x3F))%string
  else if cp <? 0x10000 then
    (byte (0xE0 + N.shiftr cp 12) ++ byte (0x80 + N.land (N.shiftr cp 6) 0x3F)
       ++ byte (0x80 + N.land cp 0x3F))%string
  else
    (byte (0xF0 + N.shiftr cp 18) ++ byte (0x80 + N.land (N.shiftr cp 12) 0x3F)
       ++ byte (0x80 + N.land (N.shiftr cp 6) 0x3F) ++ byte (0x80 + N.land cp 0x3F))%string.

(** What follows a backslash: the text it stands for and the rest. *)
Definition escaped (s : string) : outcome (string * string) :=
  match s with
  | String c rest =>
      let n := N_of_ascii c in
      if n =? 34 then Returns (byte 34, rest)
      else if n =? 92 then Returns (byte 92, rest)
      else if n =? 47 then Returns (byte 47, rest)
      else if n =? 98 then Returns (byte 8, rest)
      else if n =? 102 then Returns (byte 12, rest)
      else if n =? 110 then Returns (byte 10, rest)
      else if n =? 114 then Returns (byte 13, rest)
      else if n =? 116 then Returns (byte 9, rest)
      else if n =? 117 then
        match hex4 rest with
        | None => Throws SyntaxError
        | Some (u, rest1) =>
            if (0xD800 <=? u) && (u <? 0xDC00) then
              match rest1 with
              | String "\" (String "u" rest2) =>
                  match hex4 rest2 with
                  | None => Throws SyntaxError
                  | Some (l, rest3) =>
                      if (0xDC00 <=? l) && (l <? 0xE000)
                      then Returns (utf8 (0x10000 + 1024 * (u - 0xD800) + (l - 0xDC00)), rest3)
                      else Unmodelled
                  end
              | _ => Unmodelled
              end
            else if (0xDC00 <=? u) && (u <? 0xE000) then Unmodelled
            else Returns (utf8 u, rest1)
        end
      else Throws SyntaxError
  | EmptyString => Throws SyntaxError
  end.

(** The characters of a string literal after its opening quote. *)
Fixpoint chars (fuel : nat) (s : string) : outcome (string * string) :=
  match fuel with
  | O => Unmodelled
  | S fuel' =>
      match s with
      | EmptyString => Throws SyntaxError
      | String c rest =>
          let n := N_of_ascii c in
          if n =? 34 then Returns (EmptyString, rest)
          else if n =? 92 then
            '(text, rest1) <- escaped rest ;;
            '(more, rest2) <- chars fuel' rest1 ;;
            Returns ((text ++ more)%string, rest2)
          else if n <? 32 then Throws SyntaxError
          else
            '(more, rest1) <- chars fuel' rest ;;
            Returns (String c more, rest1)
      end
  end.

(** A key that is an array index: the decimal text of a number below
    [2^32 - 1]. *)
Definition index_of_key (k : string) : option N :=
  match int_part k with
  | Some (n, EmptyString) => if n <? 4294967295 then Some n else None
  | _ => None
  end.

(** [CreateDataProperty] on an object whose properties are kept in
    property order: the array indices in ascending order, then the other
    keys in the order of their creation. *)
Fixpoint define (k : string) (v : value) (props : list (string * value))
    : list (string * value) :=
  match props with
  | [] => [(k, v)]
  | (k', v') :: rest =>
      if String.eqb k k' then (k, v) :: rest
      else
        match index_of_key k, index_of_key k' with
        | Some i, Some j => if i <? j then (k, v) :: props else (k', v') :: define k v rest
        | Some _, None => (k, v) :: props
        | None, _ => (k', v') :: define k v rest
        end
  end.

Fixpoint parse_value (fuel : nat) (s : string) {struct fuel} : outcome (value * string) :=
  match fuel with
  | O => Unmodelled
  | S fuel' =>
      match skip_ws s with
      | EmptyString => Throws SyntaxError
      | String c rest as s' =>
          let n := N_of_ascii c in
          if n =? 91 then                                   (* [ *)
            match skip_ws rest with
            | String "]" rest' => Returns (VArr [], rest')
            | _ =>
                '(items, rest') <- parse_elements fuel' rest ;;
                Returns (VArr items, rest')
            end
          else if n =? 123 then                             (* { *)
            match skip_ws rest with
            | String "}" rest' => Returns (VObj [], rest')
            | _ =>
                '(props, rest') <- parse_members fuel' [] rest ;;
                Returns (VObj props, rest')
            end
          else if n =? 34 then                              (* string *)
            '(text, rest') <- chars (String.length rest) rest ;;
            Returns (VStr text, rest')
          else if n =? 116 then
            match expect "true" s' with
            | Some rest' => Returns (VBool true, rest')
            | None => Throws SyntaxError
            end
          else if n =? 102 then
            match expect "false" s' with
            | Some rest' => Returns (VBool false, rest')
            | None => Throws SyntaxError
            end
          else if n =? 110 then
            match expect "null" s' with
            | Some rest' => Returns (VNull, rest')
            | None => Throws SyntaxError
            end
          else
            '(z, rest') <- number s' ;;
            Returns (VNum z, rest')
      end
  end

with parse_elements (fuel : nat) (s : string) {struct fuel}
    : outcome (list value * string) :=
  match fuel with
  | O => Unmodelled
  | S fuel' =>
      '(v, rest) <- parse_value fuel' s ;;
      match skip_ws rest with
      | String "," rest' =>
          '(vs, rest'') <- parse_elements fuel' rest' ;;
          Returns (v :: vs, rest'')
      | String "]" rest' => Returns ([v], rest')
      | _ => Throws SyntaxError
      end
  end

with parse_members (fuel : nat) (props : list (string * value)) (s : string)
    {struct fuel} : outcome (list (string * value) * string) :=
  match fuel with
  | O => Unmodelled
  | S fuel' =>
      match skip_ws s with
      | String c rest =>
          if N_of_ascii c =? 34 then
            '(k, rest1) <- chars (String.length rest) rest ;;
            match skip_ws rest1 with
            | String ":" rest2 =>
                '(v, rest3) <- parse_value fuel' rest2 ;;
                let props := define k v props in
                match skip_ws rest3 with
                | String "," rest4 => parse_members fuel' props rest4
                | String "}" rest4 => Returns (props, rest4)
                | _ => Throws SyntaxError
                end
            | _ => Throws SyntaxError
            end
          else Throws SyntaxError
      | EmptyString => Throws SyntaxError
      end
  end.

(** [JSON.parse(text)]: one value, then nothing but white space. *)
Definition JSON_parse (text : string) : outcome value :=
  '(v, rest) <- parse_value (S (String.length text)) text ;;
  match skip_ws rest with
  | EmptyString => Returns v
  | _ => Throws SyntaxError
  end.
End Parse.

Definition JSON_parse : string -> outcome value := Parse.JSON_parse.

(** ** The types of [src/types/index.ts] *)

(** A [Date] object, by its time value in milliseconds. *)
Definition Date : Type := Z.

Module Note.
Record t : Type := Build {
  id : string;
  title : string;
  content : string;
  createdAt : Date;
  updatedAt : Date;
  tags : option (list string)          (* [tags?: string[]] *)
}.

Definition tags_value (n : t) : value :=
  match tags n with
  | Some l => VArr (map VStr l)
  | None => VUndefined
  end.

(** The object the record stands for. *)
Definition to_value (n : t) : value :=
  VObj [("id", VStr (id n)); ("title", VStr (title n)); ("content", VStr (content n));
        ("tags", tags_value n);
        ("createdAt", VDate (createdAt n)); ("updatedAt", VDate (updatedAt n))].
End Note.

Module EncryptedNote.
Record t : Type := Build {
  id : string;
  encryptedData : string;
  createdAt : Date;
  updatedAt : Date
}.

(** The object the record stands for, properties in the order of the
    object literals of [encryptNote] and [createGenesisBlock]. *)
Definition to_value (e : t) : value :=
  VObj [("id", VStr (id e)); ("encryptedData", VStr (encryptedData e));
        ("createdAt", VDate (createdAt e)); ("updatedAt", VDate (updatedAt e))].
End EncryptedNote.

Module BlockchainNote.
Record t : Type := Build {
  id : string;
  hash : string;
  previousHash : string;
  timestamp : Z;
  data : EncryptedNote.t;
  nonce : Z
}.

Definition with_hash (h : string) (b : t) : t :=
  Build (id b) h (previousHash b) (timestamp b) (data b) (nonce b).
Definition with_nonce (n : Z) (b : t) : t :=
  Build (id b) (hash b) (previousHash b) (timestamp b) (data b) n.
Definition with_data (d : EncryptedNote.t) (b : t) : t :=
  Build (id b) (hash b) (previousHash b) (timestamp b) d (nonce b).

Definition to_value (b : t) : value :=
  VObj [("id", VStr (id b)); ("hash", VStr (hash b));
        ("previousHash", VStr (previousHash b)); ("timestamp", VNum (timestamp b));
        ("data", EncryptedNote.to_value (data b)); ("nonce", VNum (nonce b))].
End BlockchainNote.

Definition Block : Type := BlockchainNote.t.

Definition chain_to_value (chain : list Block) : value :=
  VArr (map BlockchainNote.to_value chain).

(** ** [BlockchainService] on a chain of the declared type

    [chain] is a [BlockchainNote[]]; the operations that change it take it
    and return the new one.  A [Clock] gives the readings of the wall clock
    ([Date.now()], [new Date()]) in the order a call takes them. *)

Definition Clock : Type := nat -> Z.

Definition DIFFICULTY : nat := 2.

Module Service.
Import BlockchainNote.

(** [calculateHash]: the digest of
    [`${previousHash}${timestamp}${JSON.stringify(data)}${nonce}`]. *)
Definition calculateHash (block : Block) : string :=
  let blockString :=
    previousHash block ++ decimal (timestamp block)
      ++ template_of (JSON_stringify (EncryptedNote.to_value (data block)))
      ++ decimal (nonce block) in
  generateHash blockString.

(** [createGenesisBlock]: sealed by one digest, nonce 0. *)
Definition createGenesisBlock (clock : Clock) : Block :=
  let genesisBlock :=
    Build "genesis" EmptyString "0" (clock 0%nat)
          (EncryptedNote.Build "genesis" "Genesis Block" (clock 1%nat) (clock 2%nat))
          0 in
  with_hash (calculateHash genesisBlock) genesisBlock.

(** [Array(DIFFICULTY + 1).join('0')]. *)
Definition target : string := join "0" (repeat EmptyString (DIFFICULTY + 1)).

(** [mineBlock].  The loop tests the hash the block comes with before it
    computes any.  [fuel] bounds the iterations: [None] when the loop is
    still running after [fuel] of them. *)
Fixpoint mineBlock (fuel : nat) (block : Block) : option Block :=
  if negb (String.eqb (substring 0 DIFFICULTY (hash block)) target) then
    match fuel with
    | O => None
    | S fuel' =>
        let block := with_nonce (nonce block + 1) block in
        let block := with_hash (calculateHash block) block in
        mineBlock fuel' block
    end
  else Some block.

(** [addNoteToBlockchain]: the mined block and the chain after the call,
    or [None] when the mining loop is still running after [fuel] turns.
    The chain is not empty when its last block is read, so [nth_error]
    finds it ([addNote_none]). *)
Definition addNoteToBlockchain (fuel : nat) (clock : Clock)
    (encryptedNote : EncryptedNote.t) (chain : list Block)
    : option (Block * list Block) :=
  let '(chain, clock) :=
    if (List.length chain =? 0)%nat
    then ((chain ++ [createGenesisBlock clock])%list, fun k => clock (3 + k)%nat)
    else (chain, clock) in
  match nth_error chain (List.length chain - 1) with
  | None => None
  | Some previousBlock =>
      let newBlock :=
        Build (EncryptedNote.id encryptedNote) EmptyString (hash previousBlock)
              (clock 0%nat) encryptedNote 0 in
      match mineBlock fuel newBlock with
      | None => None
      | Some minedBlock => Some (minedBlock, (chain ++ [minedBlock])%list)
      end
  end.

(** [validateChain]: the loop from index 1; [count] is the number of
    iterations left, so [i] and [i - 1] are indices of the array (the last
    case is never reached: [runtime_validateChain]). *)
Fixpoint validateFrom (chain : list Block) (i count : nat) : bool :=
  match count with
  | O => true
  | S count' =>
      match nth_error chain i, nth_error chain (i - 1) with
      | Some currentBlock, Some previousBlock =>
          if negb (String.eqb (hash currentBlock) (calculateHash currentBlock)) then false
          else if negb (String.eqb (previousHash currentBlock) (hash previousBlock)) then false
          else validateFrom chain (S i) count'
      | _, _ => false
      end
  end.

Definition validateChain (chain : list Block) : bool :=
  validateFrom chain 1 (List.length chain - 1).

(** [getChain]: a copy of the array. *)
Definition getChain (chain : list Block) : list Block := chain.

(** [getBlockByNoteId]: [find(...) || null]. *)
Definition getBlockByNoteId (noteId : string) (chain : list Block) : option Block :=
  find (fun block => String.eqb (EncryptedNote.id (data block)) noteId) chain.

Record Stats : Type := {
  totalBlocks : nat;
  isValid : bool;
  lastBlock : option Block
}.

Definition getBlockchainStats (chain : list Block) : Stats :=
  {| totalBlocks := List.length chain;
     isValid := validateChain chain;
     lastBlock := nth_error chain (List.length chain - 1) |}.

(** [exportBlockchain]: [JSON.stringify(this.chain, null, 2)]. *)
Definition exportBlockchain (chain : list Block) : string :=
  template_of (JSON_stringify_indent2 (chain_to_value chain)).
End Service.

(** ** [BlockchainService] on the chain as it is at run time

    [importBlockchain] stores whatever [JSON.parse] returned in the field
    [chain]: the annotation [BlockchainNote[]] is not checked.  Here the
    field holds a [value] and [validateChain] reads it as JavaScript does. *)

Module Runtime.
Local Open Scope outcome_scope.

Definition lookup (k : string) (props : list (string * value)) : value :=
  match find (fun p => String.eqb (fst p) k) props with
  | Some (_, v) => v
  | None => VUndefined
  end.

Definition is_ascii (s : string) : bool :=
  forallb (fun c => (N_of_ascii c <? 128)%N) (list_ascii_of_string s).

(** The length of a string in UTF-16 code units, from its UTF-8 bytes. *)
Fixpoint utf16_length (s : string) : Z :=
  match s with
  | EmptyString => 0
  | String c rest =>
      let n := N_of_ascii c in
      (if (n <? 0x80)%N then 1
       else if (n <? 0xC0)%N then 0
       else if (n <? 0xF0)%N then 1
       else 2) + utf16_length rest
  end.

(** [v[k]] for the property names the service reads ([length], [hash],
    [previousHash], [timestamp], [data], [nonce], [id]): none of them is
    inherited, except [length] by arrays and strings. *)
Definition get (v : value) (k : string) : outcome value :=
  match v with
  | VUndefined | VNull => Throws TypeError
  | VObj props => Returns (lookup k props)
  | VArr items =>
      if String.eqb k "length" then Returns (VNum (Z.of_nat (List.length items)))
      else Returns VUndefined
  | VStr s =>
      if String.eqb k "length" then Returns (VNum (utf16_length s))
      else Returns VUndefined
  | VBool _ | VNum _ | VDate _ => Returns VUndefined
  end.

(** [v[i]] for a number [i] that is a non-negative integer. *)
Definition get_index (v : value) (i : nat) : outcome value :=
  match v with
  | VUndefined | VNull => Throws TypeError
  | VArr items =>
      match nth_error items i with
      | Some x => Returns x
      | None => Returns VUndefined
      end
  | VObj props => Returns (lookup (decimal (Z.of_nat i)) props)
  | VStr s =>
      if is_ascii s then
        match String.get i s with
        | Some c => Returns (VStr (String c EmptyString))
        | None => Returns VUndefined
        end
      else Unmodelled
  | VBool _ | VNum _ | VDate _ => Returns VUndefined
  end.

(** [i < len] for a number [i] from 1 on: [len] is converted to a number,
    [undefined] to NaN, [null] and [false] to 0, [true] to 1. *)
Definition less_than (i : nat) (len : value) : outcome bool :=
  match len with
  | VNum n => Returns (Z.of_nat i <? n)
  | VUndefined | VNull | VBool _ => Returns false
  | VStr _ | VDate _ | VArr _ | VObj _ => Unmodelled
  end.

(** [a !== b] is [negb (strict_equal a b)].  Objects are equal when they
    are the same object: the operands here are read from two places of
    the chain, which share none. *)
Definition strict_equal (a b : value) : bool :=
  match a, b with
  | VUndefined, VUndefined => true
  | VNull, VNull => true
  | VBool x, VBool y => Bool.eqb x y
  | VNum x, VNum y => (x =? y)
  | VStr x, VStr y => String.eqb x y
  | _, _ => false
  end.

Definition has_key (k : string) (props : list (string * value)) : bool :=
  existsb (fun p => String.eqb (fst p) k) props.

(** [`${v}`].  The text of a [Date] depends on the host, and an object
    with a property [toString] or [valueOf] of its own has no text. *)
Fixpoint ToString (v : value) : outcome string :=
  match v with
  | VUndefined => Returns "undefined"
  | VNull => Returns "null"
  | VBool b => Returns (if b then "true" else "false")
  | VNum n => Returns (decimal n)
  | VStr s => Returns s
  | VDate _ => Unmodelled
  | VArr items =>
      parts <-
        (fix texts (l : list value) : outcome (list string) :=
           match l with
           | [] => Returns []
           | x :: rest =>
               t <- match x with
                    | VUndefined | VNull => Returns EmptyString
                    | _ => ToString x
                    end ;;
               ts <- texts rest ;;
               Returns (t :: ts)
           end) items ;;
      Returns (join "," parts)
  | VObj props =>
      if has_key "toString" props || has_key "valueOf" props then Unmodelled
      else Returns "[object Object]"
  end.

(** [calculateHash(block)]. *)
Definition calculateHash (block : value) : outcome string :=
  previousHash <- get block "previousHash" ;;
  p <- ToString previousHash ;;
  timestamp <- get block "timestamp" ;;
  t <- ToString timestamp ;;
  data <- get block "data" ;;
  nonce <- get block "nonce" ;;
  n <- ToString nonce ;;
  Returns (generateHash (p ++ t ++ template_of (JSON_stringify data) ++ n)).

(** The loop of [validateChain]; [count] bounds its iterations. *)
Fixpoint validateFrom (chain : value) (i count : nat) : outcome bool :=
  len <- get chain "length" ;;
  continue <- less_than i len ;;
  if continue then
    match count with
    | O => Unmodelled
    | S count' =>
        currentBlock <- get_index chain i ;;
        previousBlock <- get_index chain (i - 1) ;;
        hash <- get currentBlock "hash" ;;
        expected <- calculateHash currentBlock ;;
        if negb (strict_equal hash (VStr expected)) then Returns false
        else
          previousHash <- get currentBlock "previousHash" ;;
          hash' <- get previousBlock "hash" ;;
          if negb (strict_equal previousHash hash') then Returns false
          else validateFrom chain (S i) count'
    end
  else Returns true.

Definition validateChain (chain : value) : outcome bool :=
  match get chain "length" with
  | Returns (VNum n) => validateFrom chain 1 (Z.to_nat n)
  | _ => validateFrom chain 1 0
  end.

(** [exportBlockchain] *)
Definition exportBlockchain (chain : value) : option string :=
  JSON_stringify_indent2 chain.

(** [importBlockchain]: the value returned and the field [chain] after
    the call.  The candidate is installed before it is validated; the
    [else] branch puts the former chain back, the [catch] clause does
    not. *)
Definition importBlockchain (chainData : string) (chain : value)
    : outcome bool * value :=
  match JSON_parse chainData with
  | Throws _ => (Returns false, chain)                        (* catch *)
  | Unmodelled => (Unmodelled, chain)
  | Returns importedChain =>
      let tempChain := chain in
      let chain := importedChain in
      match validateChain chain with
      | Returns true => (Returns true, chain)
      | Returns false => (Returns false, tempChain)
      | Throws _ => (Returns false, chain)                    (* catch *)
      | Unmodelled => (Unmodelled, chain)
      end
  end.
End Runtime.

(** ** [EncryptionService]

    [CryptoJS.AES] is the library's: [AES_encrypt salt text key] is
    [CryptoJS.AES.encrypt(text, key).toString()] when the library draws the
    random [salt], and [AES_decrypt data key] is
    [CryptoJS.AES.decrypt(data, key).toString(CryptoJS.enc.Utf8)], which
    throws on bytes that are not UTF-8. *)

Definition ENCRYPTION_KEY : string := "notes-app-secret-key-256-bit-secure".

Section Codec.
Variable AES_encrypt : string -> string -> string -> string.
Variable AES_decrypt : string -> string -> outcome string.

(** [JSON.stringify({title, content, tags})] *)
Definition noteData (note : Note.t) : string :=
  template_of (JSON_stringify
    (VObj [("title", VStr (Note.title note)); ("content", VStr (Note.content note));
           ("tags", Note.tags_value note)])).

(** [encryptNote]; nothing in its [try] block throws. *)
Definition encryptNote (salt : string) (note : Note.t) : EncryptedNote.t :=
  let encrypted := AES_encrypt salt (noteData note) ENCRYPTION_KEY in
  EncryptedNote.Build (Note.id note) encrypted (Note.createdAt note) (Note.updatedAt note).

(** [decryptNote]: the note object, or the error of the [catch] clause. *)
Definition decryptNote (encryptedNote : EncryptedNote.t) : outcome value :=
  let body : outcome value :=
    (decryptedData <-
       AES_decrypt (EncryptedNote.encryptedData encryptedNote) ENCRYPTION_KEY ;;
     match decryptedData with
     | EmptyString => Throws CipherError
     | _ =>
         noteData <- JSON_parse decryptedData ;;
         title <- Runtime.get noteData "title" ;;
         content <- Runtime.get noteData "content" ;;
         tags <- Runtime.get noteData "tags" ;;
         Returns (VObj [("id", VStr (EncryptedNote.id encryptedNote));
                        ("title", title); ("content", content); ("tags", tags);
                        ("createdAt", VDate (EncryptedNote.createdAt encryptedNote));
                        ("updatedAt", VDate (EncryptedNote.updatedAt encryptedNote))])
     end)%outcome in
  match body with
  | Throws _ => Throws CipherError
  | r => r
  end.
End Codec.

(** A stand-in for the library's cipher, to run the codec on examples: the
    salt, then in hexadecimal the bytes of the text, each combined with a
    byte of the salt and the key. *)
Module StandIn.
Definition mix (a b : ascii) : N := N.lxor (N_of_ascii a) (N_of_ascii b).

Fixpoint stream (text pad rest : string) : list N :=
  match text with
  | EmptyString => []
  | String c text' =>
      match rest with
      | String k rest' => mix c k :: stream text' pad rest'
      | EmptyString =>
          match pad with
          | String k rest' => mix c k :: stream text' pad rest'
          | EmptyString => N_of_ascii c :: stream text' pad rest
          end
      end
  end.

Fixpoint unhex (s : string) : option string :=
  match s with
  | EmptyString => Some EmptyString
  | String a (String b rest) =>
      match Parse.hex_value a, Parse.hex_value b, unhex rest with
      | Some x, Some y, Some text => Some (String (ascii_of_N (16 * x + y)) text)
      | _, _, _ => None
      end
  | _ => None
  end.

Definition encrypt (salt text key : string) : string :=
  let salt := substring 0 8 (salt ++ "saltsalt") in
  salt ++ hex_of_bytes (stream text (salt ++ key) EmptyString).

Definition decrypt (data key : string) : outcome string :=
  let salt := substring 0 8 data in
  match unhex (substring 8 (String.length data - 8) data) with
  | Some body =>
      Returns (string_of_list_ascii
                 (map ascii_of_N (stream body (salt ++ key) EmptyString)))
  | None => Throws CipherError
  end.
End StandIn.

(** ** [Date.parse] of the text [toISOString] writes *)

(** The day count from 1970-01-01 of a civil date ([MakeDay]). *)
Definition days_from_civil (y m d : Z) : Z :=
  let y := if m <=? 2 then y - 1 else y in
  let era := y / 400 in
  let yoe := y - era * 400 in
  let mp := if 2 <? m then m - 3 else m + 9 in
  let doy := (153 * mp + 2) / 5 + d - 1 in
  let doe := yoe * 365 + yoe / 4 - yoe / 100 + doy in
  era * 146097 + doe - 719468.

Definition is_leap (y : Z) : bool :=
  (y mod 4 =? 0) && (negb (y mod 100 =? 0) || (y mod 400 =? 0)).

Definition days_in_month (y m : Z) : Z :=
  if m =? 2 then (if is_leap y then 29 else 28)
  else if (m =? 4) || (m =? 6) || (m =? 9) || (m =? 11) then 30
  else 31.

(** Exactly [count] decimal digits: their value after [acc], and the rest. *)
Fixpoint fixed_digits (count : nat) (s : string) (acc : Z) : option (Z * string) :=
  match count with
  | O => Some (acc, s)
  | S k =>
      match s with
      | String c rest =>
          if Parse.is_digit c
          then fixed_digits k rest (10 * acc + (Z.of_N (N_of_ascii c) - 48))
          else None
      | EmptyString => None
      end
  end.

(** The largest time value of a [Date] ([TimeClip]). *)
Definition max_time : Z := 8640000000000000.

(** The year: four digits, or six after a sign; [-000000] is no year. *)
Definition year_digits (s : string) : option (Z * string) :=
  match s with
  | String "+" r => fixed_digits 6 r 0
  | String "-" r =>
      match fixed_digits 6 r 0 with
      | Some (y, r') => if y =? 0 then None else Some (- y, r')
      | None => None
      end
  | _ => fixed_digits 4 s 0
  end.

(** [Date.parse(s)] for a text of the form [toISOString] writes,
    [YYYY-MM-DDTHH:mm:ss.sssZ] with a year of four digits or of six after a
    sign, that names a day of the calendar and a time of the day; [None]
    for every other text, whose reading is left to the host or gives no
    time value. *)
Definition Date_parse (s : string) : option Z :=
  match year_digits s with
  | Some (y, String "-" s1) =>
      match fixed_digits 2 s1 0 with
      | Some (m, String "-" s2) =>
          match fixed_digits 2 s2 0 with
          | Some (d, String "T" s3) =>
              match fixed_digits 2 s3 0 with
              | Some (h, String ":" s4) =>
                  match fixed_digits 2 s4 0 with
                  | Some (mi, String ":" s5) =>
                      match fixed_digits 2 s5 0 with
                      | Some (sec, String "." s6) =>
                          match fixed_digits 3 s6 0 with
                          | Some (ms, String "Z" EmptyString) =>
                              let t :=
                                days_from_civil y m d * 86400000
                                + h * 3600000 + mi * 60000 + sec * 1000 + ms in
                              if (1 <=? m) && (m <=? 12) && (1 <=? d)
                                 && (d <=? days_in_month y m)
                                 && (h <=? 23) && (mi <=? 59) && (sec <=? 59)
                                 && (Z.abs t <=? max_time)
                              then Some t
                              else None
                          | _ => None
                          end
                      | _ => None
                      end
                  | _ => None
                  end
              | _ => None
              end
          | _ => None
          end
      | _ => None
      end
  | _ => None
  end.

(** ** [EncryptionService] on the notes as they are at run time

    [StorageService] hands [decryptNote] what [JSON.parse] returned, where
    the dates are texts, and hands [encryptNote] what [loadNotes] returned.
    Here a note is a [value]. *)

Module RuntimeNotes.
Local Open Scope outcome_scope.

(** The [catch] clause of the two services: whatever was thrown, a new
    [Error] is. *)
Definition rethrow {A : Type} (o : outcome A) : outcome A :=
  match o with
  | Throws _ => Throws CipherError
  | r => r
  end.

(** [new Date(v)]: the time value of a [Date], the reading of a text, the
    number of anything else that is not an object.  An invalid [Date] has
    no [VDate]. *)
Definition new_Date (v : value) : outcome value :=
  match v with
  | VDate t => Returns (VDate t)
  | VStr s =>
      match Date_parse s with
      | Some t => Returns (VDate t)
      | None => Unmodelled
      end
  | VNum n => if Z.abs n <=? max_time then Returns (VDate n) else Unmodelled
  | VNull => Returns (VDate 0)
  | VBool b => Returns (VDate (if b then 1 else 0))
  | VUndefined | VArr _ | VObj _ => Unmodelled
  end.

Section Codec.
Variable AES_encrypt : string -> string -> string -> string.
Variable AES_decrypt : string -> string -> outcome string.

(** [encryptNote(note)] *)
Definition encryptNote (salt : string) (note : value) : outcome value :=
  rethrow
    (title <- Runtime.get note "title" ;;
     content <- Runtime.get note "content" ;;
     tags <- Runtime.get note "tags" ;;
     let noteData :=
       template_of (JSON_stringify
         (VObj [("title", title); ("content", content); ("tags", tags)])) in
     let encrypted := AES_encrypt salt noteData ENCRYPTION_KEY in
     id <- Runtime.get note "id" ;;
     createdAt <- Runtime.get note "createdAt" ;;
     updatedAt <- Runtime.get note "updatedAt" ;;
     Returns (VObj [("id", id); ("encryptedData", VStr encrypted);
                    ("createdAt", createdAt); ("updatedAt", updatedAt)])).

(** [decryptNote(encryptedNote)].  The library is given a text to decrypt;
    what it does with anything else is its own. *)
Definition decryptNote (encryptedNote : value) : outcome value :=
  rethrow
    (encryptedData <- Runtime.get encryptedNote "encryptedData" ;;
     match encryptedData with
     | VStr data =>
         decryptedData <- AES_decrypt data ENCRYPTION_KEY ;;
         match decryptedData with
         | EmptyString => Throws CipherError
         | _ =>
             noteData <- JSON_parse decryptedData ;;
             id <- Runtime.get encryptedNote "id" ;;
             title <- Runtime.get noteData "title" ;;
             content <- Runtime.get noteData "content" ;;
             tags <- Runtime.get noteData "tags" ;;
             createdAt <- Runtime.get encryptedNote "createdAt" ;;
             updatedAt <- Runtime.get encryptedNote "updatedAt" ;;
             Returns (VObj [("id", id); ("title", title); ("content", content);
                            ("tags", tags); ("createdAt", createdAt);
                            ("updatedAt", updatedAt)])
         end
     | _ => Unmodelled
     end).
End Codec.
End RuntimeNotes.

(** ** [StorageService]

    [AsyncStorage] is the item of each key; its promises are taken to be
    fulfilled.  An [async] method is the promise it settles and the storage
    it leaves, one call at a time. *)

Inductive promise (A : Type) : Type :=
| Fulfilled (a : A)
| Rejected (message : string)
| Outside.

Arguments Fulfilled {A} a.
Arguments Rejected {A} message.
Arguments Outside {A}.

Definition Storage : Type := string -> option string.

Definition getItem (key : string) (storage : Storage) : option string := storage key.

Definition setItem (key item : string) (storage : Storage) : Storage :=
  fun k => if String.eqb k key then Some item else storage k.

Definition removeItem (key : string) (storage : Storage) : Storage :=
  fun k => if String.eqb k key then None else storage k.

(** The salt the cipher draws at each of its calls, in turn. *)
Definition Salts : Type := nat -> string.

Module StorageService.
Local Open Scope outcome_scope.

Definition ENCRYPTED_NOTES_KEY : string := "@NotesApp:encrypted_notes".

(** [a.map(f)] where [f] may throw: the elements in turn. *)
Fixpoint map_from {A B : Type} (f : nat -> A -> outcome B) (k : nat) (l : list A)
    : outcome (list B) :=
  match l with
  | [] => Returns []
  | x :: rest =>
      y <- f k x ;;
      ys <- map_from f (S k) rest ;;
      Returns (y :: ys)
  end.

(** [a.findIndex(test)]: [None] is -1. *)
Fixpoint findIndex (test : value -> outcome bool) (k : nat) (l : list value)
    : outcome (option nat) :=
  match l with
  | [] => Returns None
  | x :: rest =>
      found <- test x ;;
      if found then Returns (Some k) else findIndex test (S k) rest
  end.

(** [a.filter(test)] *)
Fixpoint filter (test : value -> outcome bool) (l : list value) : outcome (list value) :=
  match l with
  | [] => Returns []
  | x :: rest =>
      keep <- test x ;;
      kept <- filter test rest ;;
      Returns (if keep then x :: kept else kept)
  end.

(** [a.find(test)]: [VUndefined] when no element passes. *)
Fixpoint find (test : value -> outcome bool) (l : list value) : outcome value :=
  match l with
  | [] => Returns VUndefined
  | x :: rest =>
      found <- test x ;;
      if found then Returns x else find test rest
  end.

(** [ToBoolean] *)
Definition truthy (v : value) : bool :=
  match v with
  | VUndefined | VNull => false
  | VBool b => b
  | VNum n => negb (n =? 0)
  | VStr s => negb (String.eqb s EmptyString)
  | VDate _ | VArr _ | VObj _ => true
  end.

(** [a[i] = x] for an index of the array. *)
Fixpoint assign (i : nat) (x : value) (l : list value) : list value :=
  match l, i with
  | [], _ => []
  | _ :: rest, O => x :: rest
  | y :: rest, S i' => y :: assign i' x rest
  end.

Section Service.
Variable AES_encrypt : string -> string -> string -> string.
Variable AES_decrypt : string -> string -> outcome string.

(** [saveNotes(notes)] *)
Definition saveNotes (salts : Salts) (notes : list value) (storage : Storage)
    : promise unit * Storage :=
  match map_from (fun k note => RuntimeNotes.encryptNote AES_encrypt (salts k) note)
                 0 notes with
  | Returns encryptedNotes =>
      (Fulfilled tt,
       setItem ENCRYPTED_NOTES_KEY
               (template_of (JSON_stringify (VArr encryptedNotes))) storage)
  | Throws _ => (Rejected "Failed to save notes to storage", storage)
  | Unmodelled => (Outside, storage)
  end.

(** The callback of [loadNotes]: the note decrypted, with its dates made
    [Date] objects again. *)
Definition revive (encryptedNote : value) : outcome value :=
  decryptedNote <- RuntimeNotes.decryptNote AES_decrypt encryptedNote ;;
  match decryptedNote with
  | VObj props =>
      createdAt <- RuntimeNotes.new_Date (Runtime.lookup "createdAt" props) ;;
      updatedAt <- RuntimeNotes.new_Date (Runtime.lookup "updatedAt" props) ;;
      Returns (VObj (Parse.define "updatedAt" updatedAt
                       (Parse.define "createdAt" createdAt props)))
  | _ => Unmodelled                      (* [decryptNote] returns an object *)
  end.

(** [loadNotes()]: an item that is missing or empty is no notes; a value
    that is not an array has no [map]. *)
Definition loadNotes (storage : Storage) : promise (list value) :=
  match getItem ENCRYPTED_NOTES_KEY storage with
  | None | Some EmptyString => Fulfilled []
  | Some encryptedData =>
      match
        (encryptedNotes <- JSON_parse encryptedData ;;
         match encryptedNotes with
         | VArr items => map_from (fun _ => revive) 0 items
         | _ => Throws TypeError
         end)
      with
      | Returns notes => Fulfilled notes
      | Throws _ => Rejected "Failed to load notes from storage"
      | Unmodelled => Outside
      end
  end.

(** [n.id === note.id] and [note.id === noteId] *)
Definition same_id (id : outcome value) (n : value) : outcome bool :=
  a <- Runtime.get n "id" ;;
  b <- id ;;
  Returns (Runtime.strict_equal a b).

(** [saveNote(note)] *)
Definition saveNote (salts : Salts) (note : value) (storage : Storage)
    : promise unit * Storage :=
  match loadNotes storage with
  | Fulfilled existingNotes =>
      match findIndex (same_id (Runtime.get note "id")) 0 existingNotes with
      | Returns noteIndex =>
          let existingNotes :=
            match noteIndex with
            | Some i => assign i note existingNotes
            | None => (existingNotes ++ [note])%list
            end in
          match saveNotes salts existingNotes storage with
          | (Rejected _, storage') => (Rejected "Failed to save note", storage')
          | settled => settled
          end
      | Throws _ => (Rejected "Failed to save note", storage)
      | Unmodelled => (Outside, storage)
      end
  | Rejected _ => (Rejected "Failed to save note", storage)
  | Outside => (Outside, storage)
  end.

(** [deleteNote(noteId)] *)
Definition deleteNote (salts : Salts) (noteId : string) (storage : Storage)
    : promise unit * Storage :=
  match loadNotes storage with
  | Fulfilled existingNotes =>
      match filter (fun note => same <- same_id (Returns (VStr noteId)) note ;;
                                Returns (negb same)) existingNotes with
      | Returns filteredNotes =>
          match saveNotes salts filteredNotes storage with
          | (Rejected _, storage') => (Rejected "Failed to delete note", storage')
          | settled => settled
          end
      | Throws _ => (Rejected "Failed to delete note", storage)
      | Unmodelled => (Outside, storage)
      end
  | Rejected _ => (Rejected "Failed to delete note", storage)
  | Outside => (Outside, storage)
  end.

(** [getNote(noteId)]: [notes.find(...) || null]. *)
Definition getNote (noteId : string) (storage : Storage) : promise value :=
  match loadNotes storage with
  | Fulfilled notes =>
      match find (same_id (Returns (VStr noteId))) notes with
      | Returns note => Fulfilled (if truthy note then note else VNull)
      | Throws _ => Rejected "Failed to get note"
      | Unmodelled => Outside
      end
  | Rejected _ => Rejected "Failed to get note"
  | Outside => Outside
  end.

(** [clearAllNotes()] *)
Definition clearAllNotes (storage : Storage) : promise unit * Storage :=
  (Fulfilled tt, removeItem ENCRYPTED_NOTES_KEY storage).
End Service.
End StorageService.

(** ** The methods of [String.prototype] the utilities call

    On the UTF-8 bytes of a text that is well formed: a position of the
    JavaScript string is a UTF-16 code unit, one for a character of up to
    three bytes and two for a character of four. *)

Module Str.
Local Open Scope N_scope.

(** White space and line terminators: TAB, LF, VT, FF, CR, SP; U+00A0;
    U+1680; U+2000 to U+200A, U+2028, U+2029, U+202F; U+205F; U+3000;
    U+FEFF. *)
Definition is_space1 (a : ascii) : bool :=
  let a := N_of_ascii a in
  ((9 <=? a) && (a <=? 13)) || (a =? 32).

Definition is_space2 (a b : ascii) : bool :=
  (N_of_ascii a =? 0xC2) && (N_of_ascii b =? 0xA0).

Definition is_space3 (a b c : ascii) : bool :=
  let a := N_of_ascii a in
  let b := N_of_ascii b in
  let c := N_of_ascii c in
  ((a =? 0xE1) && (b =? 0x9A) && (c =? 0x80))
  || ((a =? 0xE2) && (b =? 0x80)
      && (((0x80 <=? c) && (c <=? 0x8A)) || (c =? 0xA8) || (c =? 0xA9) || (c =? 0xAF)))
  || ((a =? 0xE2) && (b =? 0x81) && (c =? 0x9F))
  || ((a =? 0xE3) && (b =? 0x80) && (c =? 0x80))
  || ((a =? 0xEF) && (b =? 0xBB) && (c =? 0xBF)).

(** The text after the white space character [s] begins with. *)
Definition space_prefix (s : string) : option string :=
  match s with
  | String a r1 =>
      if is_space1 a then Some r1
      else
        match r1 with
        | String b r2 =>
            if is_space2 a b then Some r2
            else
              match r2 with
              | String c r3 => if is_space3 a b c then Some r3 else None
              | EmptyString => None
              end
        | EmptyString => None
        end
  | EmptyString => None
  end.

Fixpoint trimStart (s : string) : string :=
  match s with
  | String a r1 =>
      if is_space1 a then trimStart r1
      else
        match r1 with
        | String b r2 =>
            if is_space2 a b then trimStart r2
            else
              match r2 with
              | String c r3 => if is_space3 a b c then trimStart r3 else s
              | EmptyString => s
              end
        | EmptyString => s
        end
  | EmptyString => s
  end.

(** White space only. *)
Fixpoint all_space (s : string) : bool :=
  match s with
  | String a r1 =>
      if is_space1 a then all_space r1
      else
        match r1 with
        | String b r2 =>
            if is_space2 a b then all_space r2
            else
              match r2 with
              | String c r3 => is_space3 a b c && all_space r3
              | EmptyString => false
              end
        | EmptyString => false
        end
  | EmptyString => true
  end.

(** The text up to the white space it ends with. *)
Fixpoint trimEnd (s : string) : string :=
  if all_space s then EmptyString
  else
    match s with
    | String a rest => String a (trimEnd rest)
    | EmptyString => EmptyString
    end.

(** [s.trim()] *)
Definition trim (s : string) : string := trimEnd (trimStart s).

(** [s.length] *)
Definition length (s : string) : Z := Runtime.utf16_length s.

(** The code units a byte begins: none for a byte that continues a
    character. *)
Definition units_of (a : ascii) : Z :=
  let a := N_of_ascii a in
  if a <? 0x80 then 1%Z
  else if a <? 0xC0 then 0%Z
  else if a <? 0xF0 then 1%Z
  else 2%Z.

(** [s.substring(0, n)]: the first [n] code units.  A cut between the two
    code units of a character leaves half of it, which no text has. *)
Fixpoint take (n : Z) (s : string) : outcome string :=
  match s with
  | EmptyString => Returns EmptyString
  | String a rest =>
      let u := units_of a in
      if (u =? 0)%Z then obind (take n rest) (fun t => Returns (String a t))
      else if (n <=? 0)%Z then Returns EmptyString
      else if (n <? u)%Z then Unmodelled
      else obind (take (n - u) rest) (fun t => Returns (String a t))
  end.

(** [s.includes(term)] *)
Fixpoint includes (s term : string) : bool :=
  String.prefix term s
  || match s with
     | String _ rest => includes rest term
     | EmptyString => false
     end.

(** [s.split(sep)] for a separator of one character. *)
Fixpoint split (sep : ascii) (s : string) : list string :=
  match s with
  | EmptyString => [EmptyString]
  | String c rest =>
      if Ascii.eqb c sep then EmptyString :: split sep rest
      else
        match split sep rest with
        | piece :: pieces => String c piece :: pieces
        | [] => [String c EmptyString]
        end
  end.

(** The UTF-16 code units of a text. *)
Fixpoint units (s : string) : list N :=
  match s with
  | EmptyString => []
  | String a r1 =>
      let a := N_of_ascii a in
      if a <? 0x80 then a :: units r1
      else
        match r1 with
        | EmptyString => []
        | String b r2 =>
            let b := N.land (N_of_ascii b) 0x3F in
            if a <? 0xE0 then (64 * N.land a 0x1F + b) :: units r2
            else
              match r2 with
              | EmptyString => []
              | String c r3 =>
                  let c := N.land (N_of_ascii c) 0x3F in
                  if a <? 0xF0 then (4096 * N.land a 0x0F + 64 * b + c) :: units r3
                  else
                    match r3 with
                    | EmptyString => []
                    | String d r4 =>
                        let d := N.land (N_of_ascii d) 0x3F in
                        let cp := 262144 * N.land a 0x07 + 4096 * b + 64 * c + d in
                        (0xD800 + N.shiftr (cp - 0x10000) 10)
                          :: (0xDC00 + N.land (cp - 0x10000) 0x3FF) :: units r4
                    end
              end
        end
  end.

(** [x < y] on strings: the first code unit that differs decides, and a
    proper prefix comes first. *)
Fixpoint units_lt (x y : list N) : bool :=
  match x, y with
  | _, [] => false
  | [], _ :: _ => true
  | a :: x', b :: y' => (a <? b) || ((a =? b) && units_lt x' y')
  end.

Definition less_than (x y : string) : bool := units_lt (units x) (units y).
End Str.

(** ** [Array.prototype.sort]

    The sort is stable: elements that compare equal keep their order.
    With a consistent comparator the result is the one insertion gives. *)

Section Sort.
Context {A : Type}.
Variable comparefn : A -> A -> Z.

(** [x], which came before the elements of [sorted], goes in front of the
    first of them that does not have to come before it. *)
Fixpoint insert (x : A) (sorted : list A) : list A :=
  match sorted with
  | [] => [x]
  | y :: rest => if comparefn x y <=? 0 then x :: sorted else y :: insert x rest
  end.

Definition sort (items : list A) : list A := fold_right insert [] items.
End Sort.

(** ** The utilities ([src/utils]) *)

Module Utils.

(** [formatDate(date)], at the time [now] of the call. *)
Section Host.
Variable toLocaleDateString : Date -> string.
Variable localeCompare : string -> string -> Z.
Variable toLowerCase : string -> string.

Definition plural (count : Z) : string :=
  if 1 <? count then "s" else EmptyString.

Definition formatDate (now : Z) (date : Date) : string :=
  let diffMs := now - date in
  let diffMins := diffMs / (1000 * 60) in
  let diffHours := diffMs / (1000 * 60 * 60) in
  let diffDays := diffMs / (1000 * 60 * 60 * 24) in
  if diffMins <? 1 then "Just now"
  else if diffMins <? 60 then
    decimal diffMins ++ " minute" ++ plural diffMins ++ " ago"
  else if diffHours <? 24 then
    decimal diffHours ++ " hour" ++ plural diffHours ++ " ago"
  else if diffDays <? 7 then
    decimal diffDays ++ " day" ++ plural diffDays ++ " ago"
  else toLocaleDateString date.

(** [searchNotes(notes, searchTerm)] *)
Definition matches (term : string) (note : Note.t) : bool :=
  Str.includes (toLowerCase (Note.title note)) term
  || Str.includes (toLowerCase (Note.content note)) term
  || match Note.tags note with
     | Some tags => existsb (fun tag => Str.includes (toLowerCase tag) term) tags
     | None => false
     end.

Definition searchNotes (notes : list Note.t) (searchTerm : string) : list Note.t :=
  match Str.trim searchTerm with
  | EmptyString => notes
  | _ =>
      let term := toLowerCase searchTerm in
      filter (matches term) notes
  end.

(** [sortNotes(notes, sortBy, ascending)] *)
Inductive SortBy : Type := by_title | by_createdAt | by_updatedAt.

Definition comparison (sortBy : SortBy) (a b : Note.t) : Z :=
  match sortBy with
  | by_title => localeCompare (Note.title a) (Note.title b)
  | by_createdAt => Note.createdAt a - Note.createdAt b
  | by_updatedAt => Note.updatedAt a - Note.updatedAt b
  end.

Definition sortNotes (notes : list Note.t) (sortBy : SortBy) (ascending : bool)
    : list Note.t :=
  sort (fun a b =>
          let comparison := comparison sortBy a b in
          if ascending then comparison else - comparison)
       notes.
End Host.

(** [validateNote(title, content)] *)
Record Validation : Type := {
  isValid : bool;
  errors : list string
}.

Definition validateNote (title content : string) : Validation :=
  let errors := [] in
  let errors :=
    match Str.trim title with
    | EmptyString => errors ++ ["Title is required"]
    | _ =>
        if 100 <? Str.length (Str.trim title)
        then errors ++ ["Title must be less than 100 characters"]
        else errors
    end%list in
  let errors :=
    match Str.trim content with
    | EmptyString => errors ++ ["Content is required"]
    | _ =>
        if 10000 <? Str.length (Str.trim content)
        then errors ++ ["Content must be less than 10,000 characters"]
        else errors
    end%list in
  {| isValid := (List.length errors =? 0)%nat; errors := errors |}.

(** [createNote(title, content, tags)]: [id] is the identifier
    [generateId()] draws, [now] the time of the call. *)
Definition createNote (id : string) (now : Date) (title content : string)
    (tags : option (list string)) : Note.t :=
  Note.Build id (Str.trim title) (Str.trim content) now now
             (Some match tags with
                   | Some tags => tags
                   | None => []
                   end).

(** [updateNote(existingNote, title, content, tags)] *)
Definition updateNote (now : Date) (existingNote : Note.t) (title content : string)
    (tags : option (list string)) : Note.t :=
  Note.Build (Note.id existingNote) (Str.trim title) (Str.trim content)
             (Note.createdAt existingNote) now
             match tags with
             | Some tags => Some tags
             | None => Note.tags existingNote
             end.

(** [truncateText(text, maxLength)] *)
Definition truncateText (text : string) (maxLength : Z) : outcome string :=
  if Str.length text <=? maxLength then Returns text
  else obind (Str.take maxLength text) (fun t => Returns (t ++ "...")).

(** [getAllTags(notes)]: the set keeps a tag once, in the order of the
    first time it is added; [sort()] without a comparator orders strings by
    their code units. *)
Definition add (tag : string) (tagSet : list string) : list string :=
  if existsb (String.eqb tag) tagSet then tagSet else (tagSet ++ [tag])%list.

Definition SortCompare (x y : string) : Z :=
  if Str.less_than x y then -1 else if Str.less_than y x then 1 else 0.

Definition getAllTags (notes : list Note.t) : list string :=
  let tagSet :=
    fold_left
      (fun tagSet note =>
         match Note.tags note with
         | Some tags => fold_left (fun tagSet tag => add tag tagSet) tags tagSet
         | None => tagSet
         end)
      notes [] in
  sort SortCompare tagSet.

(** [filterNotesByTag(notes, tag)] *)
Definition filterNotesByTag (notes : list Note.t) (tag : string) : list Note.t :=
  filter (fun note =>
            match Note.tags note with
            | Some tags => existsb (String.eqb tag) tags
            | None => false
            end)
         notes.
End Utils.

(** ** The tags field of the create and edit screens *)

Module Screens.

(** [tags.split(',').map(tag => tag.trim()).filter(tag => tag.length > 0)] *)
Definition tagsArray (tags : string) : list string :=
  filter (fun tag => 0 <? Str.length tag) (map Str.trim (Str.split "," tags)).

(** [note.tags ? note.tags.join(', ') : ''], the text the edit screen puts
    in the field. *)
Definition tagsText (note : Note.t) : string :=
  match Note.tags note with
  | Some tags => join ", " tags
  | None => EmptyString
  end.
End Screens.

(** ** The handlers of the screens

    A handler is the alert it shows and the storage it leaves; the state
    of the component it reads is given to it. *)

Inductive alert : Type := Alert (title message : string).

Module CreateNoteScreen.
Section Handlers.
Variable AES_encrypt : string -> string -> string -> string.
Variable AES_decrypt : string -> string -> outcome string.

(** [handleSave]: [id] is the identifier [createNote] draws and [now] the
    time it reads. *)
Definition handleSave (id : string) (now : Date) (salts : Salts)
    (title content tags : string) (storage : Storage) : promise alert * Storage :=
  let validation := Utils.validateNote title content in
  if negb (Utils.isValid validation) then
    (Fulfilled (Alert "Validation Error"
                      (join (String newline EmptyString) (Utils.errors validation))),
     storage)
  else
    let tagsArray := Screens.tagsArray tags in
    let note := Utils.createNote id now title content (Some tagsArray) in
    match StorageService.saveNote AES_encrypt AES_decrypt salts (Note.to_value note) storage with
    | (Fulfilled _, storage') =>
        (Fulfilled (Alert "Success" "Note created successfully"), storage')
    | (Rejected _, storage') => (Fulfilled (Alert "Error" "Failed to save note"), storage')
    | (Outside, storage') => (Outside, storage')
    end.
End Handlers.
End CreateNoteScreen.

Module EditNoteScreen.
Section Handlers.
Variable AES_encrypt : string -> string -> string -> string.
Variable AES_decrypt : string -> string -> outcome string.

(** [handleSave]: [originalNote] is the note [loadNote] put in the state,
    [None] while there is none; then nothing is shown. *)
Definition handleSave (now : Date) (salts : Salts) (originalNote : option Note.t)
    (title content tags : string) (storage : Storage)
    : promise (option alert) * Storage :=
  match originalNote with
  | None => (Fulfilled None, storage)
  | Some originalNote =>
      let validation := Utils.validateNote title content in
      if negb (Utils.isValid validation) then
        (Fulfilled (Some (Alert "Validation Error"
                                (join (String newline EmptyString)
                                      (Utils.errors validation)))),
         storage)
      else
        let tagsArray := Screens.tagsArray tags in
        let updatedNote :=
          Utils.updateNote now originalNote title content (Some tagsArray) in
        match StorageService.saveNote AES_encrypt AES_decrypt salts
                (Note.to_value updatedNote) storage with
        | (Fulfilled _, storage') =>
            (Fulfilled (Some (Alert "Success" "Note updated successfully")), storage')
        | (Rejected _, storage') =>
            (Fulfilled (Some (Alert "Error" "Failed to update note")), storage')
        | (Outside, storage') => (Outside, storage')
        end
  end.
End Handlers.
End EditNoteScreen.

(** ** [BlockchainService] after an import

    The methods that read the field [chain] when it holds what
    [importBlockchain] left in it. *)

Module RuntimeChain.
Import BlockchainNote.
Local Open Scope outcome_scope.

(** [this.chain.find(block => block.data.id === noteId)] *)
Fixpoint find (noteId : string) (items : list value) : outcome value :=
  match items with
  | [] => Returns VUndefined
  | block :: rest =>
      data <- Runtime.get block "data" ;;
      id <- Runtime.get data "id" ;;
      if Runtime.strict_equal id (VStr noteId) then Returns block else find noteId rest
  end.

(** [getBlockByNoteId(noteId)]: [null] has no property, and nothing but an
    array has a [find] to call. *)
Definition getBlockByNoteId (noteId : string) (chain : value) : outcome value :=
  match chain with
  | VArr items =>
      found <- find noteId items ;;
      Returns (if StorageService.truthy found then found else VNull)
  | _ => Throws TypeError
  end.

(** [addNoteToBlockchain(encryptedNote)]: the mined block and the field
    after the call; [Returns None] when the mining loop is still running
    after [fuel] turns.  Without a [length] the index of the last block is
    NaN, and [undefined] has no [hash].  A previous hash that is no text,
    and a chain that is a text or an object with a property [length] or
    [NaN], are left aside. *)
Definition addNoteToBlockchain (fuel : nat) (clock : Clock)
    (encryptedNote : EncryptedNote.t) (chain : value)
    : outcome (option (Block * value)) :=
  match chain with
  | VArr items =>
      let '(items, clock) :=
        if (List.length items =? 0)%nat
        then ((items ++ [to_value (Service.createGenesisBlock clock)])%list,
              fun k => clock (3 + k)%nat)
        else (items, clock) in
      previousBlock <- Runtime.get_index (VArr items) (List.length items - 1) ;;
      previousHash <- Runtime.get previousBlock "hash" ;;
      match previousHash with
      | VStr previousHash =>
          let newBlock :=
            Build (EncryptedNote.id encryptedNote) EmptyString previousHash
                  (clock 0%nat) encryptedNote 0 in
          match Service.mineBlock fuel newBlock with
          | Some minedBlock =>
              Returns (Some (minedBlock, VArr (items ++ [to_value minedBlock])))
          | None => Returns None
          end
      | _ => Unmodelled
      end
  | VUndefined | VNull | VBool _ | VNum _ | VDate _ => Throws TypeError
  | VObj props =>
      if Runtime.has_key "length" props || Runtime.has_key "NaN" props
      then Unmodelled
      else Throws TypeError
  | VStr _ => Unmodelled
  end.
End RuntimeChain.

(** ** The nonce as JavaScript counts it

    [block.nonce++] adds one exactly up to [2^53]; there the sum rounds
    back to [2^53] and the counter stays.  A nonce outside the integers a
    number counts exactly is left aside. *)

Module Counted.
Import BlockchainNote.

(** [n + 1] on a number. *)
Definition increment (n : Z) : option Z :=
  if (- Parse.exact_bound <=? n) && (n <? Parse.exact_bound) then Some (n + 1)
  else if n =? Parse.exact_bound then Some n
  else None.

(** [mineBlock] with the nonce counted so: [Returns None] when the loop is
    still running after [fuel] turns. *)
Fixpoint mineBlock (fuel : nat) (block : Block) : outcome (option Block) :=
  if negb (String.eqb (substring 0 DIFFICULTY (hash block)) Service.target) then
    match fuel with
    | O => Returns None
    | S fuel' =>
        match increment (nonce block) with
        | Some n =>
            let block := with_nonce n block in
            let block := with_hash (Service.calculateHash block) block in
            mineBlock fuel' block
        | None => Unmodelled
        end
    end
  else Returns (Some block).
End Counted.

(** ** The vocabulary of the properties *)

(** A hash that begins with [DIFFICULTY] characters ['0']. *)
Definition zeros (count : nat) : string := string_of_list_ascii (repeat "0"%char count).

Definition meets_difficulty (h : string) : Prop :=
  exists tail, h = zeros DIFFICULTY ++ tail.

(** A block whose stored hash is the digest of its other fields. *)
Definition sealed (block : Block) : Prop :=
  BlockchainNote.hash block = Service.calculateHash block.

(** [appended payloads chain]: [chain] is what the field holds after
    [addNoteToBlockchain] was called on [payloads] in turn, from the empty
    chain. *)
Inductive appended : list EncryptedNote.t -> list Block -> Prop :=
| appended_none : appended [] []
| appended_one payloads chain fuel clock encryptedNote block chain' :
    appended payloads chain ->
    Service.addNoteToBlockchain fuel clock encryptedNote chain = Some (block, chain') ->
    appended (payloads ++ [encryptedNote]) chain'.

Definition reachable (chain : list Block) : Prop :=
  exists payloads, appended payloads chain.

(** The chain with [f] applied to the block stored at index [i]. *)
Fixpoint tamper (i : nat) (f : Block -> Block) (chain : list Block) : list Block :=
  match chain, i with
  | [], _ => []
  | block :: rest, O => f block :: rest
  | block :: rest, S i' => block :: tamper i' f rest
  end.

(** Every block but the first names the hash of the block before it. *)
Fixpoint linked (chain : list Block) : Prop :=
  match chain with
  | previousBlock :: (currentBlock :: _) as rest =>
      BlockchainNote.previousHash currentBlock = BlockchainNote.hash previousBlock
      /\ linked rest
  | _ => True
  end.

(** One turn of the loop of [mineBlock]. *)
Definition mine_step (block : Block) : Block :=
  let block := BlockchainNote.with_nonce (BlockchainNote.nonce block + 1) block in
  BlockchainNote.with_hash (Service.calculateHash block) block.

(** The checks of [validateChain] on the blocks after [previousBlock]. *)
Fixpoint valid_links (previousBlock : Block) (rest : list Block) : bool :=
  match rest with
  | [] => true
  | currentBlock :: rest' =>
      String.eqb (BlockchainNote.hash currentBlock) (Service.calculateHash currentBlock)
      && String.eqb (BlockchainNote.previousHash currentBlock)
                    (BlockchainNote.hash previousBlock)
      && valid_links currentBlock rest'
  end.

(** ** JSON text and the values it is read back to *)

(** [fits k props]: [Parse.define] puts a new key [k] after the properties
    [props]. *)
Definition fits (k : string) (props : list (string * value)) : bool :=
  forallb
    (fun p =>
       negb (String.eqb k (fst p))
       && match Parse.index_of_key k, Parse.index_of_key (fst p) with
          | Some i, Some j => negb (i <? j)%N
          | Some _, None => false
          | None, _ => true
          end)
    props.

(** The properties [props], created in turn after [acc], are in property
    order. *)
Fixpoint ordered_from (acc props : list (string * value)) : bool :=
  match props with
  | [] => true
  | (k, v) :: rest => fits k acc && ordered_from (acc ++ [(k, v)]) rest
  end.

(** The values [JSON.parse] can return as they are: no [undefined], no
    [Date], numbers of the exact range, properties in property order. *)
Fixpoint pure_json (v : value) : bool :=
  match v with
  | VUndefined | VDate _ => false
  | VNull | VBool _ | VStr _ => true
  | VNum n => Z.abs n <=? Parse.exact_bound
  | VArr items =>
      (fix all (l : list value) : bool :=
         match l with
         | [] => true
         | x :: rest => pure_json x && all rest
         end) items
  | VObj props =>
      ordered_from [] props
      && (fix all (l : list (string * value)) : bool :=
            match l with
            | [] => true
            | (_, x) :: rest => pure_json x && all rest
            end) props
  end.

(** The number of calls the parser spends on a value. *)
Fixpoint weight (v : value) : nat :=
  match v with
  | VArr items =>
      S ((fix sum (l : list value) : nat :=
            match l with
            | [] => O
            | x :: rest => (S (weight x) + sum rest)%nat
            end) items)
  | VObj props =>
      S ((fix sum (l : list (string * value)) : nat :=
            match l with
            | [] => O
            | (_, x) :: rest => (S (weight x) + sum rest)%nat
            end) props)
  | _ => 1%nat
  end.

(** White space only. *)
Fixpoint blank (s : string) : bool :=
  match s with
  | EmptyString => true
  | String c rest => Parse.is_ws c && blank rest
  end.

(** What may come after a value in a text: nothing, white space, a comma,
    a closing bracket or brace. *)
Definition follows (rest : string) : bool :=
  match rest with
  | EmptyString => true
  | String c _ =>
      Parse.is_ws c || Ascii.eqb c "," || Ascii.eqb c "]" || Ascii.eqb c "}"
  end.

(** The first character of the text of a value. *)
Definition value_start (c : ascii) : bool :=
  negb (Parse.is_ws c) && negb (Ascii.eqb c "]") && negb (Ascii.eqb c "}")
  && negb (Ascii.eqb c ",") && negb (Ascii.eqb c ":").

(** The texts of the elements of an array and of the members of an
    object, as [SerializeJSON] joins them. *)
Definition element_text (gap indent : string) (x : value) : string :=
  match SerializeJSON gap indent x with
  | Some s => s
  | None => "null"
  end.

Fixpoint member_texts (gap indent : string) (props : list (string * value))
    : list string :=
  match props with
  | [] => []
  | (k, x) :: rest =>
      match SerializeJSON gap indent x with
      | Some s => (quote k ++ colon gap ++ s) :: member_texts gap indent rest
      | None => member_texts gap indent rest
      end
  end.

(** The white space [wrap] puts before each part and before the closing
    bracket. *)
Definition break_before_part (gap indent : string) : string :=
  match gap with
  | EmptyString => EmptyString
  | _ => String newline EmptyString ++ indent ++ gap
  end.

Definition break_before_close (gap indent : string) : string :=
  match gap with
  | EmptyString => EmptyString
  | _ => String newline EmptyString ++ indent
  end.

(** The value of the digits [d] after the digits of value [acc]. *)
Fixpoint uint_value (d : Decimal.uint) (acc : N) : N :=
  match d with
  | Decimal.Nil => acc
  | Decimal.D0 l => uint_value l (10 * acc + 0)
  | Decimal.D1 l => uint_value l (10 * acc + 1)
  | Decimal.D2 l => uint_value l (10 * acc + 2)
  | Decimal.D3 l => uint_value l (10 * acc + 3)
  | Decimal.D4 l => uint_value l (10 * acc + 4)
  | Decimal.D5 l => uint_value l (10 * acc + 5)
  | Decimal.D6 l => uint_value l (10 * acc + 6)
  | Decimal.D7 l => uint_value l (10 * acc + 7)
  | Decimal.D8 l => uint_value l (10 * acc + 8)
  | Decimal.D9 l => uint_value l (10 * acc + 9)
  end.

(** [reads_back gap v]: at every indentation [v] has a text; the text
    begins as a value does, is at least as long as the number of calls the
    parser spends on [v], and the parser reads it back to [v], after any
    white space and before anything that may follow a value. *)
Definition reads_back (gap : string) (v : value) : Prop :=
  forall indent,
    blank indent = true ->
    exists text,
      SerializeJSON gap indent v = Some text
      /\ (weight v <= String.length text)%nat
      /\ (exists c t, text = String c t /\ value_start c = true)
      /\ forall w rest fuel,
           blank w = true -> follows rest = true -> (weight v <= fuel)%nat ->
           Parse.parse_value fuel (w ++ text ++ rest) = Returns (v, rest).

(** The chain as [JSON.parse] reads it back from its export. *)
Definition block_read_back (block : Block) : value :=
  let d := BlockchainNote.data block in
  VObj [("id", VStr (BlockchainNote.id block)); ("hash", VStr (BlockchainNote.hash block));
        ("previousHash", VStr (BlockchainNote.previousHash block));
        ("timestamp", VNum (BlockchainNote.timestamp block));
        ("data",
         VObj [("id", VStr (EncryptedNote.id d));
               ("encryptedData", VStr (EncryptedNote.encryptedData d));
               ("createdAt", VStr (toISOString (EncryptedNote.createdAt d)));
               ("updatedAt", VStr (toISOString (EncryptedNote.updatedAt d)))]);
        ("nonce", VNum (BlockchainNote.nonce block))].

Definition chain_read_back (chain : list Block) : value :=
  VArr (map block_read_back chain).

(** The numbers of a block are integers of the exact range. *)
Definition exact (n : Z) : Prop := Z.abs n <= Parse.exact_bound.

Definition exact_numbers (block : Block) : Prop :=
  exact (BlockchainNote.timestamp block) /\ exact (BlockchainNote.nonce block).

(** ** The vocabulary of the properties of the storage *)

(** A [Date] that is valid. *)
Definition valid_time (t : Z) : Prop := Z.abs t <= max_time.

Definition dated (note : Note.t) : Prop :=
  valid_time (Note.createdAt note) /\ valid_time (Note.updatedAt note).

(** An encrypted note as [JSON.parse] reads it back from the storage. *)
Definition encrypted_read_back (e : EncryptedNote.t) : value :=
  VObj [("id", VStr (EncryptedNote.id e));
        ("encryptedData", VStr (EncryptedNote.encryptedData e));
        ("createdAt", VStr (toISOString (EncryptedNote.createdAt e)));
        ("updatedAt", VStr (toISOString (EncryptedNote.updatedAt e)))].

(** The notes [saveNotes] encrypts from its [k]-th call of the cipher on. *)
Fixpoint encrypted_from (AES_encrypt : string -> string -> string -> string)
    (salts : Salts) (k : nat) (notes : list Note.t) : list EncryptedNote.t :=
  match notes with
  | [] => []
  | note :: rest =>
      encryptNote AES_encrypt (salts k) note :: encrypted_from AES_encrypt salts (S k) rest
  end.

(** The cipher decrypts under the key what [saveNotes] has it encrypt. *)
Definition recovers (AES_encrypt : string -> string -> string -> string)
    (AES_decrypt : string -> string -> outcome string)
    (salts : Salts) (notes : list Note.t) : Prop :=
  forall k note,
    nth_error notes k = Some note ->
    AES_decrypt (AES_encrypt (salts k) (noteData note) ENCRYPTION_KEY) ENCRYPTION_KEY
    = Returns (noteData note).

(** The storage holds [notes]. *)
Definition holds (AES_decrypt : string -> string -> outcome string)
    (storage : Storage) (notes : list Note.t) : Prop :=
  StorageService.loadNotes AES_decrypt storage = Fulfilled (map Note.to_value notes).

(** The cipher decrypts under the key what it encrypts of the notes
    [pool], whichever salt of [salts] it draws. *)
Definition cipher_inverts (AES_encrypt : string -> string -> string -> string)
    (AES_decrypt : string -> string -> outcome string)
    (salts : Salts) (pool : list Note.t) : Prop :=
  forall k note,
    In note pool ->
    AES_decrypt (AES_encrypt (salts k) (noteData note) ENCRYPTION_KEY) ENCRYPTION_KEY
    = Returns (noteData note).

(** ** The vocabulary of the properties of the utilities *)

(** A text without the character [c]. *)
Fixpoint without (c : ascii) (s : string) : bool :=
  match s with
  | EmptyString => true
  | String a rest => negb (Ascii.eqb a c) && without c rest
  end.

(** The time a note is sorted by. *)
Definition sort_time (sortBy : Utils.SortBy) (note : Note.t) : Z :=
  match sortBy with
  | Utils.by_updatedAt => Note.updatedAt note
  | _ => Note.createdAt note
  end.

Definition in_order (ascending : bool) (sortBy : Utils.SortBy) (a b : Note.t) : Prop :=
  if ascending then sort_time sortBy a <= sort_time sortBy b
  else sort_time sortBy b <= sort_time sortBy a.

(** The tags of the notes: a note has the tag in its list. *)
Definition tagged (tag : string) (note : Note.t) : Prop :=
  exists tags, Note.tags note = Some tags /\ In tag tags.

(** ** The vocabulary of the properties of the import and of the digest *)

(** A lower-case hexadecimal digit. *)
Definition is_hex (c : ascii) : bool :=
  let n := N_of_ascii c in
  (((48 <=? n) && (n <=? 57)) || ((97 <=? n) && (n <=? 102)))%N.

Fixpoint all_hex (s : string) : bool :=
  match s with
  | EmptyString => true
  | String c rest => is_hex c && all_hex rest
  end.

(** A boolean, a number or a text. *)
Definition scalar (v : value) : bool :=
  match v with
  | VBool _ | VNum _ | VStr _ => true
  | _ => false
  end.

(** A value that is not an object. *)
Definition primitive (v : value) : bool :=
  match v with
  | VUndefined | VNull | VBool _ | VNum _ | VStr _ => true
  | VDate _ | VArr _ | VObj _ => false
  end.

(** An object whose [previousHash], [timestamp] and [nonce], the fields
    [calculateHash] puts in a template, are not objects. *)
Definition flat_block (v : value) : bool :=
  match v with
  | VObj props =>
      primitive (Runtime.lookup "previousHash" props)
      && primitive (Runtime.lookup "timestamp" props)
      && primitive (Runtime.lookup "nonce" props)
  | _ => false
  end.

(** A value whose [length] is not a number above 1: a boolean, a number, a
    text of at most one code unit, an object without a [length]. *)
Definition lengthless (v : value) : bool :=
  match v with
  | VBool _ | VNum _ => true
  | VStr s => Runtime.utf16_length s <=? 1
  | VObj props => negb (Runtime.has_key "length" props)
  | VUndefined | VNull | VDate _ | VArr _ => false
  end.

(** ** The chain after an import, block by block *)

(** A block of the field: as [addNoteToBlockchain] built it, or as
    [JSON.parse] read it back. *)
Inductive held : Type :=
| Built (block : Block)
| Read (block : Block).

Definition block_of (h : held) : Block :=
  match h with
  | Built block | Read block => block
  end.

Definition value_of (h : held) : value :=
  match h with
  | Built block => BlockchainNote.to_value block
  | Read block => block_read_back block
  end.

(** A value [addNoteToBlockchain] throws on. *)
Definition no_chain (v : value) : bool :=
  match v with
  | VNull | VBool _ | VNum _ => true
  | VObj props => negb (Runtime.has_key "length" props || Runtime.has_key "NaN" props)
  | _ => false
  end.

(** ** The vocabulary of the properties of the digest of a block *)

(** The text [calculateHash] digests. *)
Definition block_text (block : Block) : string :=
  BlockchainNote.previousHash block ++ decimal (BlockchainNote.timestamp block)
    ++ template_of (JSON_stringify (EncryptedNote.to_value (BlockchainNote.data block)))
    ++ decimal (BlockchainNote.nonce block).

(** Two different texts with one digest. *)
Definition collide (s t : string) : Prop := s <> t /\ generateHash s = generateHash t.

(** A payload whose dates are valid. *)
Definition dated_payload (d : EncryptedNote.t) : Prop :=
  valid_time (EncryptedNote.createdAt d) /\ valid_time (EncryptedNote.updatedAt d).

(** ** A run of the services, for the examples *)

Module Sample.
Definition clock1 : Clock := fun k => 1700000000063 + Z.of_nat k.
Definition clock2 : Clock := fun k => 1700000060090 + Z.of_nat k.

Definition note1 : Note.t :=
  Note.Build "n1" "Groceries" "milk, eggs" 1690000000000 1690000000500 (Some ["home"]).
Definition note2 : Note.t :=
  Note.Build "n2" "Taxes" "file by April" 1690000100000 1690000100500 (Some ["finance"]).

Definition payload1 : EncryptedNote.t :=
  Eval vm_compute in encryptNote StandIn.encrypt "8f3a61c2" note1.
Definition payload2 : EncryptedNote.t :=
  Eval vm_compute in encryptNote StandIn.encrypt "d04b97e5" note2.

Definition after (clock : Clock) (payload : EncryptedNote.t) (chain : list Block)
    : list Block :=
  match Service.addNoteToBlockchain 64 clock payload chain with
  | Some (_, chain') => chain'
  | None => chain
  end.

Definition chain1 : list Block := Eval vm_compute in after clock1 payload1 [].
Definition chain2 : list Block := Eval vm_compute in after clock2 payload2 chain1.

Definition genesis : Block := Eval vm_compute in Service.createGenesisBlock clock1.
Definition block1 : Block := Eval vm_compute in nth 1 chain1 genesis.
Definition block2 : Block := Eval vm_compute in nth 2 chain2 genesis.

(** What [JSON.parse] reads back from the export of [chain2]. *)
Definition imported2 : value :=
  Eval vm_compute in
    match JSON_parse (Service.exportBlockchain chain2) with
    | Returns v => v
    | _ => VUndefined
    end.

(** A single block that breaks every rule of a genesis block. *)
Definition rogue : value :=
  VArr [VObj [("id", VStr "genesis"); ("hash", VStr "ffff");
              ("previousHash", VStr "1234"); ("timestamp", VNum 0);
              ("data", VNull); ("nonce", VNum (-1))]].

(** A payload to put in the place of a stored one. *)
Definition forged : EncryptedNote.t :=
  EncryptedNote.Build "genesis" "Forged Block" 1700000000064 1700000000065.

(** A candidate that comes with a hash of two zeros. *)
Definition presealed : Block :=
  BlockchainNote.Build "n1" "00" "0" 1700000000066 payload1 0.
End Sample.

(** ** A run of the storage and of the utilities, for the examples *)

Module Notebook.
Definition salts : Salts := fun k => if Nat.even k then "8f3a61c2" else "d04b97e5".

(** A note without tags, and the first note of the chain edited. *)
Definition note3 : Note.t :=
  Note.Build "n3" "Ideas" "a list of ideas" 1690000200000 1690000200500 None.
Definition note1' : Note.t :=
  Note.Build "n1" "Groceries" "milk, eggs, bread" 1690000000000 1690000300000
             (Some ["home"; "shop"]).

Definition empty : Storage := fun _ => None.

(** The storage after [saveNotes([note1, note2])]. *)
Definition stored : Storage :=
  snd (StorageService.saveNotes StandIn.encrypt salts
         [Note.to_value Sample.note1; Note.to_value Sample.note2] empty).

(** A storage whose item is not JSON. *)
Definition spoiled : Storage :=
  setItem StorageService.ENCRYPTED_NOTES_KEY "oops" empty.

(** A candidate of two blocks, the second with a hash that is not its
    digest. *)
Definition candidate : value :=
  VArr [VObj [("hash", VStr "00aa"); ("previousHash", VStr "0");
              ("timestamp", VNum 1); ("data", VNull); ("nonce", VNum 0)];
        VObj [("hash", VStr "00bb"); ("previousHash", VStr "00aa");
              ("timestamp", VNum 2); ("data", VNull); ("nonce", VNum 7)]].

(** The host's functions, for the examples: no letter has another case,
    every text compares equal, a date is shown by its ISO text. *)
Definition toLowerCase (s : string) : string := s.
Definition localeCompare (a b : string) : Z := 0.
Definition toLocaleDateString (date : Date) : string := toISOString date.
End Notebook.

(** * Properties *)

Import BlockchainNote.

Local Opaque generateHash.

(** ** The difficulty test *)

Lemma target_is_zeros : Service.target = zeros DIFFICULTY.
Proof. reflexivity. Qed.

Lemma prefix_test_spec (h : string) :
  String.eqb (substring 0 DIFFICULTY h) Service.target = true <-> meets_difficulty h.
Proof.
  unfold meets_difficulty. change Service.target with "00". change (zeros DIFFICULTY) with "00".
  split.
  - intros E. apply String.eqb_eq in E.
    destruct h as [|a [|b t]]; simpl in E; try discriminate.
    assert (T : substring 0 0 t = EmptyString) by (destruct t; reflexivity).
    rewrite T in E. injection E as -> ->. exists t. reflexivity.
  - intros [tail ->]. simpl. destruct tail; reflexivity.
Qed.

(** ** Mining *)

Lemma calculateHash_with_hash (h : string) (block : Block) :
  Service.calculateHash (with_hash h block) = Service.calculateHash block.
Proof. reflexivity. Qed.

Lemma mine_step_sealed (block : Block) : sealed (mine_step block).
Proof. reflexivity. Qed.

Lemma mineBlock_done (fuel : nat) (block : Block) :
  String.eqb (substring 0 DIFFICULTY (hash block)) Service.target = true ->
  Service.mineBlock fuel block = Some block.
Proof. intros E. destruct fuel; simpl; rewrite E; reflexivity. Qed.

Lemma mineBlock_step (fuel : nat) (block : Block) :
  String.eqb (substring 0 DIFFICULTY (hash block)) Service.target = false ->
  Service.mineBlock (S fuel) block = Service.mineBlock fuel (mine_step block).
Proof. intros E. simpl. rewrite E. reflexivity. Qed.

(** What [mineBlock] keeps and what it establishes. *)
Lemma mineBlock_sound (fuel : nat) :
  forall block mined,
    Service.mineBlock fuel block = Some mined ->
    meets_difficulty (hash mined)
    /\ id mined = id block /\ previousHash mined = previousHash block
    /\ timestamp mined = timestamp block /\ data mined = data block
    /\ (~ meets_difficulty (hash block) -> sealed mined /\ nonce block < nonce mined).
Proof.
  induction fuel as [|fuel IH]; intros block mined H.
  - simpl in H.
    destruct (String.eqb (substring 0 DIFFICULTY (hash block)) Service.target) eqn:E;
      simpl in H; [|discriminate].
    injection H as <-. apply prefix_test_spec in E. repeat split; auto. all: tauto.
  - destruct (String.eqb (substring 0 DIFFICULTY (hash block)) Service.target) eqn:E.
    + rewrite (mineBlock_done _ _ E) in H. injection H as <-.
      apply prefix_test_spec in E. repeat split; auto. all: tauto.
    + rewrite (mineBlock_step _ _ E) in H.
      destruct (IH _ _ H) as (P & I & Q & T & D & S).
      split; [exact P|]. repeat split; auto.
      * destruct (String.eqb (substring 0 DIFFICULTY (hash (mine_step block)))
                             Service.target) eqn:E'.
        -- rewrite (mineBlock_done _ _ E') in H. injection H as <-.
           apply mine_step_sealed.
        -- apply S. intros M. apply prefix_test_spec in M. congruence.
      * destruct (String.eqb (substring 0 DIFFICULTY (hash (mine_step block)))
                             Service.target) eqn:E'.
        -- rewrite (mineBlock_done _ _ E') in H. injection H as <-. simpl. lia.
        -- assert (N : nonce (mine_step block) < nonce mined).
           { apply S. intros M. apply prefix_test_spec in M. congruence. }
           simpl in N. lia.
Qed.


(** ** Appending *)

Lemma addNote_empty fuel clock encryptedNote block chain' :
  Service.addNoteToBlockchain fuel clock encryptedNote [] = Some (block, chain') ->
  chain' = [Service.createGenesisBlock clock; block]
  /\ Service.mineBlock fuel
       (Build (EncryptedNote.id encryptedNote) EmptyString
              (hash (Service.createGenesisBlock clock))
              (clock 3%nat) encryptedNote 0) = Some block.
Proof.
  unfold Service.addNoteToBlockchain.
  change (List.length (@nil Block) =? 0)%nat with true. cbv iota beta.
  change (List.length ([] ++ [Service.createGenesisBlock clock]) - 1)%nat with 0%nat.
  change (nth_error ([] ++ [Service.createGenesisBlock clock]) 0)
    with (Some (Service.createGenesisBlock clock)).
  cbv iota beta.
  change (clock (3 + 0)%nat) with (clock 3%nat).
  destruct (Service.mineBlock fuel _) as [mined|] eqn:M; [|discriminate].
  intros H. injection H as <- <-. split; reflexivity.
Qed.

Lemma addNote_nonempty fuel clock encryptedNote first rest block chain' :
  Service.addNoteToBlockchain fuel clock encryptedNote (first :: rest) = Some (block, chain') ->
  exists previousBlock,
    nth_error (first :: rest) (List.length rest) = Some previousBlock
    /\ chain' = ((first :: rest) ++ [block])%list
    /\ Service.mineBlock fuel
         (Build (EncryptedNote.id encryptedNote) EmptyString (hash previousBlock)
                (clock 0%nat) encryptedNote 0) = Some block.
Proof.
  unfold Service.addNoteToBlockchain.
  change (List.length (first :: rest) =? 0)%nat with false. cbv iota.
  replace (List.length (first :: rest) - 1)%nat with (List.length rest) by (simpl; lia).
  destruct (nth_error (first :: rest) (List.length rest)) as [previousBlock|] eqn:N;
    [|discriminate].
  destruct (Service.mineBlock fuel _) as [mined|] eqn:M; [|discriminate].
  intros H. injection H as <- <-. exists previousBlock. auto.
Qed.

(** A call that does not return is a mining loop out of fuel. *)
Lemma addNote_none fuel clock encryptedNote chain :
  Service.addNoteToBlockchain fuel clock encryptedNote chain = None ->
  exists candidate,
    hash candidate = EmptyString /\ nonce candidate = 0
    /\ Service.mineBlock fuel candidate = None.
Proof.
  unfold Service.addNoteToBlockchain. destruct chain as [|first rest].
  - change (List.length (@nil Block) =? 0)%nat with true. cbv iota beta.
    change (nth_error ([] ++ [Service.createGenesisBlock clock])
                      (List.length ([] ++ [Service.createGenesisBlock clock]) - 1))
      with (Some (Service.createGenesisBlock clock)).
    cbv iota beta.
    destruct (Service.mineBlock fuel _) as [mined|] eqn:M; [discriminate|].
    intros _. eexists. split; [|split; [|exact M]]; reflexivity.
  - change (List.length (first :: rest) =? 0)%nat with false. cbv iota.
    replace (List.length (first :: rest) - 1)%nat with (List.length rest) by (simpl; lia).
    destruct (nth_error (first :: rest) (List.length rest)) as [previousBlock|] eqn:N.
    + destruct (Service.mineBlock fuel _) as [mined|] eqn:M; [discriminate|].
      intros _. eexists. split; [|split; [|exact M]]; reflexivity.
    + apply nth_error_None in N. cbn [List.length] in N. lia.
Qed.

Lemma empty_hash_not_sealed : ~ meets_difficulty EmptyString.
Proof. intros [tail H]. discriminate. Qed.

(** The block a call appends: mined, sealed, and naming the former tip. *)
Lemma addNote_block fuel clock encryptedNote chain block chain' :
  Service.addNoteToBlockchain fuel clock encryptedNote chain = Some (block, chain') ->
  sealed block /\ meets_difficulty (hash block)
  /\ data block = encryptedNote /\ id block = EncryptedNote.id encryptedNote.
Proof.
  intros H. destruct chain as [|first rest].
  - apply addNote_empty in H. destruct H as [_ M].
    apply mineBlock_sound in M. destruct M as (P & I & _ & _ & D & S).
    destruct (S empty_hash_not_sealed). auto.
  - apply addNote_nonempty in H. destruct H as (previousBlock & _ & _ & M).
    apply mineBlock_sound in M. destruct M as (P & I & _ & _ & D & S).
    destruct (S empty_hash_not_sealed). auto.
Qed.

(** ** Validation, block by block *)

Lemma validateFrom_links (rest : list Block) :
  forall (before : list Block) (previousBlock : Block),
    Service.validateFrom (before ++ previousBlock :: rest)%list
                         (S (List.length before)) (List.length rest)
    = valid_links previousBlock rest.
Proof.
  induction rest as [|currentBlock rest IH]; intros before previousBlock.
  - reflexivity.
  - cbn [List.length Service.validateFrom valid_links].
    replace (S (List.length before) - 1)%nat with (List.length before) by lia.
    rewrite (nth_error_app2 before) by lia.
    replace (S (List.length before) - List.length before)%nat with 1%nat by lia.
    rewrite nth_error_app2 by lia.
    rewrite Nat.sub_diag. cbn [nth_error].
    destruct (String.eqb (hash currentBlock) (Service.calculateHash currentBlock));
      [|reflexivity].
    destruct (String.eqb (previousHash currentBlock) (hash previousBlock));
      [|reflexivity].
    cbn [negb andb].
    specialize (IH (before ++ [previousBlock])%list currentBlock).
    rewrite <- app_assoc in IH. cbn [app] in IH.
    rewrite length_app in IH. cbn [List.length] in IH.
    replace (List.length before + 1)%nat with (S (List.length before)) in IH by lia.
    exact IH.
Qed.

Lemma validateChain_links (first : Block) (rest : list Block) :
  Service.validateChain (first :: rest) = valid_links first rest.
Proof.
  unfold Service.validateChain. cbn [List.length].
  replace (S (List.length rest) - 1)%nat with (List.length rest) by lia.
  exact (validateFrom_links rest [] first).
Qed.

Lemma valid_links_sealed (rest : list Block) :
  forall previousBlock block,
    valid_links previousBlock rest = true -> In block rest -> sealed block.
Proof.
  induction rest as [|currentBlock rest IH]; intros previousBlock block V I.
  - destruct I.
  - cbn [valid_links] in V. apply andb_prop in V. destruct V as [V L].
    apply andb_prop in V. destruct V as [S _].
    destruct I as [<-|I]; [apply String.eqb_eq, S|eapply IH; eauto].
Qed.

Lemma valid_links_linked (rest : list Block) :
  forall previousBlock,
    valid_links previousBlock rest = true -> linked (previousBlock :: rest).
Proof.
  induction rest as [|currentBlock rest IH]; intros previousBlock V.
  - exact I.
  - cbn [valid_links] in V. apply andb_prop in V. destruct V as [V L].
    apply andb_prop in V. destruct V as [_ P].
    split; [apply String.eqb_eq, P|apply IH, L].
Qed.

Lemma valid_links_complete (rest : list Block) :
  forall previousBlock,
    Forall sealed rest -> linked (previousBlock :: rest) ->
    valid_links previousBlock rest = true.
Proof.
  induction rest as [|currentBlock rest IH]; intros previousBlock S L.
  - reflexivity.
  - inversion S as [|? ? S1 S2]; subst. destruct L as [P L].
    cbn [valid_links]. rewrite (IH _ S2 L).
    unfold sealed in S1. rewrite <- S1, P, !String.eqb_refl. reflexivity.
Qed.

Lemma valid_links_previous (rest : list Block) (p q : Block) :
  hash p = hash q -> valid_links p rest = valid_links q rest.
Proof. intros E. destruct rest; [reflexivity|]. cbn [valid_links]. rewrite E. reflexivity. Qed.

(** A chain with a block that is not sealed after the first is rejected. *)
Lemma unsealed_rejected (chain : list Block) (i : nat) (block : Block) :
  (1 <= i)%nat -> nth_error chain i = Some block -> ~ sealed block ->
  Service.validateChain chain = false.
Proof.
  intros Hi N U. destruct chain as [|first rest]; [destruct i; discriminate|].
  rewrite validateChain_links.
  destruct (valid_links first rest) eqn:V; [|reflexivity].
  exfalso. apply U. destruct i as [|j]; [lia|]. cbn [nth_error] in N.
  eapply valid_links_sealed; eauto. eapply nth_error_In; eauto.
Qed.

Lemma nth_error_tamper (f : Block -> Block) (chain : list Block) :
  forall i block, nth_error chain i = Some block ->
                  nth_error (tamper i f chain) i = Some (f block).
Proof.
  induction chain as [|b rest IH]; intros [|i] block N; try discriminate.
  - injection N as ->. reflexivity.
  - cbn [tamper nth_error] in *. auto.
Qed.

(** ** Chains built by appending *)

Lemma linked_app_one (chain : list Block) :
  forall previousBlock block,
    linked chain ->
    nth_error chain (List.length chain - 1) = Some previousBlock ->
    previousHash block = hash previousBlock ->
    linked (chain ++ [block]).
Proof.
  induction chain as [|a [|b rest] IH]; intros previousBlock block L N P.
  - exact I.
  - cbn in N. injection N as ->. cbn. auto.
  - destruct L as [L1 L2]. split; [exact L1|].
    apply IH with (previousBlock := previousBlock); [exact L2| |exact P].
    cbn [List.length] in *.
    replace (S (S (List.length rest)) - 1)%nat with (S (List.length rest)) in N by lia.
    replace (S (List.length rest) - 1)%nat with (List.length rest) by lia.
    exact N.
Qed.

Lemma linked_nth (chain : list Block) :
  linked chain ->
  forall i currentBlock previousBlock,
    nth_error chain (S i) = Some currentBlock ->
    nth_error chain i = Some previousBlock ->
    previousHash currentBlock = hash previousBlock.
Proof.
  induction chain as [|a [|b rest] IH]; intros L i cur prev C P.
  - discriminate.
  - destruct i; discriminate.
  - destruct L as [L1 L2]. destruct i as [|i].
    + cbn in C, P. injection C as <-. injection P as <-. exact L1.
    + exact (IH L2 i cur prev C P).
Qed.

Lemma addNote_shape fuel clock encryptedNote chain block chain' :
  Service.addNoteToBlockchain fuel clock encryptedNote chain = Some (block, chain') ->
  linked chain -> Forall sealed (tl chain) ->
  linked chain' /\ Forall sealed (tl chain')
  /\ (2 <= List.length chain')%nat
  /\ chain' = (match chain with
               | [] => [Service.createGenesisBlock clock]
               | _ => chain
               end ++ [block])%list.
Proof.
  intros H L HS. pose proof (addNote_block _ _ _ _ _ _ H) as (SB & _ & _ & _).
  destruct chain as [|first rest].
  - apply addNote_empty in H. destruct H as [-> M].
    apply mineBlock_sound in M. destruct M as (_ & _ & P & _).
    cbn. repeat split; auto.
  - apply addNote_nonempty in H. destruct H as (previousBlock & N & -> & M).
    apply mineBlock_sound in M. destruct M as (_ & _ & P & _).
    cbn [previousHash] in P. repeat split.
    + apply linked_app_one with (previousBlock := previousBlock); auto.
      cbn [List.length]. replace (S (List.length rest) - 1)%nat
        with (List.length rest) by lia. exact N.
    + cbn [app tl] in *. apply Forall_app. split; auto.
    + rewrite length_app. cbn. lia.
Qed.

Lemma appended_shape payloads chain :
  appended payloads chain ->
  linked chain /\ Forall sealed (tl chain)
  /\ (chain = [] \/ (2 <= List.length chain)%nat).
Proof.
  induction 1 as [|payloads chain fuel clock e block chain' A IH H].
  - cbn. auto.
  - destruct IH as (L & S & _).
    destruct (addNote_shape _ _ _ _ _ _ H L S) as (L' & S' & N & _). auto.
Qed.

(** [validateChain] accepts every chain built by appending. *)
Lemma appended_valid payloads chain :
  appended payloads chain -> Service.validateChain chain = true.
Proof.
  intros A. destruct (appended_shape _ _ A) as (L & S & _).
  destruct chain as [|first rest]; [reflexivity|].
  rewrite validateChain_links. apply valid_links_complete; assumption.
Qed.

Lemma sample_appended1 : appended [Sample.payload1] Sample.chain1.
Proof.
  apply (appended_one [] [] 64%nat Sample.clock1 Sample.payload1 Sample.block1).
  - constructor.
  - vm_compute. reflexivity.
Qed.

Lemma sample_appended2 : appended [Sample.payload1; Sample.payload2] Sample.chain2.
Proof.
  apply (appended_one [Sample.payload1] Sample.chain1 64%nat Sample.clock2
                       Sample.payload2 Sample.block2).
  - exact sample_appended1.
  - vm_compute. reflexivity.
Qed.

(** ** C7: what [mineBlock] returns *)

(** C7, as stated, fails: [mineBlock] tests the hash its argument comes
    with before it computes one, so a candidate whose hash field already
    begins with two zeros is returned as it is, and that hash is not the
    digest of its fields. *)
Lemma presealed_candidate_returned_unsealed :
  Service.mineBlock 64 Sample.presealed = Some Sample.presealed
  /\ hash Sample.presealed <> Service.calculateHash Sample.presealed.
Proof.
  split; [reflexivity|].
  intros H. vm_compute in H. discriminate H.
Qed.

(** C7, amended: every block [mineBlock] returns has a hash that begins
    with [DIFFICULTY] zeros; when the candidate's own hash does not (as the
    empty hash [addNoteToBlockchain] passes), the returned hash is the
    digest [calculateHash] of the returned block; hence the block that
    [addNoteToBlockchain] appends has both. *)
Theorem mineBlock_postcondition :
  (forall fuel block mined,
      Service.mineBlock fuel block = Some mined ->
      meets_difficulty (hash mined)
      /\ (~ meets_difficulty (hash block) -> hash mined = Service.calculateHash mined))
  /\ (forall fuel clock encryptedNote chain block chain',
         Service.addNoteToBlockchain fuel clock encryptedNote chain = Some (block, chain') ->
         hash block = Service.calculateHash block /\ meets_difficulty (hash block)).
Proof.
  split.
  - intros fuel block mined H.
    destruct (mineBlock_sound _ _ _ H) as (P & _ & _ & _ & _ & S).
    split; [exact P|]. intros U. exact (proj1 (S U)).
  - intros fuel clock e chain block chain' H.
    destruct (addNote_block _ _ _ _ _ _ H) as (S & P & _). split; assumption.
Qed.

Lemma mineBlock_postcondition_witness :
  Service.mineBlock 64 (with_nonce 0 (with_hash EmptyString Sample.block1)) = Some Sample.block1
  /\ meets_difficulty (hash Sample.block1)
  /\ hash Sample.block1 = Service.calculateHash Sample.block1
  /\ hash Sample.block2 = Service.calculateHash Sample.block2
  /\ meets_difficulty (hash Sample.block2).
Proof.
  assert (M : Service.mineBlock 64 (with_nonce 0 (with_hash EmptyString Sample.block1))
              = Some Sample.block1) by (vm_compute; reflexivity).
  destruct (proj1 mineBlock_postcondition _ _ _ M) as [P S].
  split; [exact M|]. split; [exact P|]. split; [apply S; exact empty_hash_not_sealed|].
  apply (proj2 mineBlock_postcondition 64%nat Sample.clock2 Sample.payload2 Sample.chain1
               Sample.block2 Sample.chain2).
  vm_compute. reflexivity.
Defined.

(** ** C2: the first append *)

(** C2, as stated, fails: the genesis block is sealed by one digest at
    nonce 0 and is not mined; here its hash does not begin with two
    zeros. *)
Lemma genesis_hash_not_mined :
  Service.addNoteToBlockchain 64 Sample.clock1 Sample.payload1 []
  = Some (Sample.block1, Sample.chain1)
  /\ nth_error Sample.chain1 0 = Some Sample.genesis
  /\ ~ meets_difficulty (hash Sample.genesis).
Proof.
  split; [vm_compute; reflexivity|]. split; [reflexivity|].
  intros [tail H]. vm_compute in H. discriminate H.
Qed.

(** C2, amended: after the first [addNoteToBlockchain] on an empty chain
    the chain has length 2; [chain[0]] is the genesis block, with
    [previousHash] ["0"], nonce 0, and as hash the digest of its fields,
    computed once and not mined; [chain[1]] is the appended block, mined:
    its hash begins with [DIFFICULTY] zeros and it names the genesis
    hash. *)
Theorem first_append_shape fuel clock encryptedNote block chain' :
  Service.addNoteToBlockchain fuel clock encryptedNote [] = Some (block, chain') ->
  List.length chain' = 2%nat
  /\ chain' = [Service.createGenesisBlock clock; block]
  /\ previousHash (Service.createGenesisBlock clock) = "0"
  /\ nonce (Service.createGenesisBlock clock) = 0
  /\ hash (Service.createGenesisBlock clock)
     = Service.calculateHash (Service.createGenesisBlock clock)
  /\ meets_difficulty (hash block)
  /\ hash block = Service.calculateHash block
  /\ previousHash block = hash (Service.createGenesisBlock clock).
Proof.
  intros H. destruct (addNote_block _ _ _ _ _ _ H) as (S & P & _).
  apply addNote_empty in H. destruct H as [-> M].
  apply mineBlock_sound in M. destruct M as (_ & _ & Q & _).
  repeat split; auto.
Qed.

Lemma first_append_shape_witness :
  List.length Sample.chain1 = 2%nat
  /\ meets_difficulty (hash Sample.block1)
  /\ previousHash Sample.block1 = hash Sample.genesis.
Proof.
  assert (A : Service.addNoteToBlockchain 64 Sample.clock1 Sample.payload1 []
              = Some (Sample.block1, Sample.chain1)) by (vm_compute; reflexivity).
  destruct (first_append_shape _ _ _ _ _ A) as (L & _ & _ & _ & _ & P & _ & Q).
  split; [exact L|]. split; [exact P|]. exact Q.
Defined.

(** ** C6: the links of the chain *)

(** C6: after any sequence of [addNoteToBlockchain] calls, every block from
    index 1 on names the hash of the block before it; in particular after
    two appends [chain[2].previousHash] is [chain[1].hash]. *)
Theorem hash_chain_linked :
  (forall payloads chain,
      appended payloads chain ->
      forall i, (1 <= i < List.length chain)%nat ->
        exists currentBlock previousBlock,
          nth_error chain i = Some currentBlock
          /\ nth_error chain (i - 1) = Some previousBlock
          /\ previousHash currentBlock = hash previousBlock)
  /\ (forall fuel1 clock1 p1 block1 chain1 fuel2 clock2 p2 block2 chain2,
         Service.addNoteToBlockchain fuel1 clock1 p1 [] = Some (block1, chain1) ->
         Service.addNoteToBlockchain fuel2 clock2 p2 chain1 = Some (block2, chain2) ->
         nth_error chain2 1 = Some block1 /\ nth_error chain2 2 = Some block2
         /\ previousHash block2 = hash block1).
Proof.
  split.
  - intros payloads chain A i [Hi Hn].
    destruct (appended_shape _ _ A) as (L & _ & _).
    destruct (nth_error chain i) as [cur|] eqn:C;
      [|apply nth_error_None in C; lia].
    destruct (nth_error chain (i - 1)) as [prev|] eqn:P;
      [|apply nth_error_None in P; lia].
    exists cur, prev. repeat split.
    destruct i as [|j]; [lia|].
    replace (S j - 1)%nat with j in P by lia.
    exact (linked_nth chain L j _ _ C P).
  - intros fuel1 clock1 p1 block1 chain1 fuel2 clock2 p2 block2 chain2 H1 H2.
    apply addNote_empty in H1. destruct H1 as [-> _].
    apply addNote_nonempty in H2. destruct H2 as (prev & N & -> & M).
    cbn in N. injection N as <-.
    apply mineBlock_sound in M. destruct M as (_ & _ & Q & _).
    repeat split. exact Q.
Qed.

Lemma hash_chain_linked_witness :
  (exists currentBlock previousBlock,
      nth_error Sample.chain2 2 = Some currentBlock
      /\ nth_error Sample.chain2 (2 - 1) = Some previousBlock
      /\ previousHash currentBlock = hash previousBlock)
  /\ nth_error Sample.chain2 1 = Some Sample.block1
  /\ nth_error Sample.chain2 2 = Some Sample.block2
  /\ previousHash Sample.block2 = hash Sample.block1.
Proof.
  split.
  - apply (proj1 hash_chain_linked _ _ sample_appended2 2%nat). cbn. lia.
  - apply (proj2 hash_chain_linked 64%nat Sample.clock1 Sample.payload1 Sample.block1
                 Sample.chain1 64%nat Sample.clock2 Sample.payload2 Sample.block2
                 Sample.chain2); vm_compute; reflexivity.
Defined.

(** ** The chain at run time agrees with the chain as typed *)

Section Representation.
(** The blocks as objects: as built ([to_value]) or as read back from an
    export ([block_read_back]).  The loop of [validateChain] reads the same
    from both. *)
Variable rep : Block -> value.
Hypothesis rep_hash :
  forall block, Runtime.get (rep block) "hash" = Returns (VStr (hash block)).
Hypothesis rep_previousHash :
  forall block, Runtime.get (rep block) "previousHash" = Returns (VStr (previousHash block)).
Hypothesis rep_calculateHash :
  forall block, Runtime.calculateHash (rep block) = Returns (Service.calculateHash block).

Lemma runtime_index (chain : list Block) (i : nat) :
  Runtime.get_index (VArr (map rep chain)) i
  = Returns (match nth_error chain i with
             | Some block => rep block
             | None => VUndefined
             end).
Proof.
  unfold Runtime.get_index, Block in *. rewrite nth_error_map.
  destruct (nth_error chain i); reflexivity.
Qed.

Lemma runtime_length (chain : list Block) :
  Runtime.get (VArr (map rep chain)) "length"
  = Returns (VNum (Z.of_nat (List.length chain))).
Proof. cbn. rewrite length_map. reflexivity. Qed.

Lemma runtime_validateFrom_stop (chain : value) (i count : nat) (n : Z) :
  Runtime.get chain "length" = Returns (VNum n) -> n <= Z.of_nat i ->
  Runtime.validateFrom chain i count = Returns true.
Proof.
  intros L H. destruct count; cbn [Runtime.validateFrom]; rewrite L;
    cbn [obind Runtime.less_than];
    replace (Z.of_nat i <? n) with false by (symmetry; apply Z.ltb_ge; lia);
    reflexivity.
Qed.

Lemma runtime_validateFrom (chain : list Block) :
  forall count i,
    (1 <= i)%nat -> (List.length chain - i <= count)%nat ->
    Runtime.validateFrom (VArr (map rep chain)) i count
    = Returns (Service.validateFrom chain i (List.length chain - i)).
Proof.
  induction count as [|count IH]; intros i Hi Hc.
  - rewrite (runtime_validateFrom_stop _ i _ _ (runtime_length chain)) by lia.
    replace (List.length chain - i)%nat with 0%nat by lia. reflexivity.
  - destruct (Nat.le_gt_cases (List.length chain) i) as [Ge|Lt].
    + rewrite (runtime_validateFrom_stop _ i _ _ (runtime_length chain)) by lia.
      replace (List.length chain - i)%nat with 0%nat by lia. reflexivity.
    + cbn [Runtime.validateFrom]. rewrite runtime_length.
      cbn [obind Runtime.less_than].
      replace (Z.of_nat i <? Z.of_nat (List.length chain)) with true
        by (symmetry; apply Z.ltb_lt; lia).
      replace (List.length chain - i)%nat with (S (List.length chain - S i)) by lia.
      cbn [Service.validateFrom].
      rewrite !runtime_index.
      destruct (nth_error chain i) as [cur|] eqn:C;
        [|apply nth_error_None in C; lia].
      destruct (nth_error chain (i - 1)) as [prev|] eqn:P;
        [|apply nth_error_None in P; lia].
      cbn [obind]. rewrite rep_hash. cbn [obind].
      rewrite rep_calculateHash. cbn [obind Runtime.strict_equal].
      destruct (String.eqb (hash cur) (Service.calculateHash cur)); [|reflexivity].
      cbn [negb]. rewrite rep_previousHash. cbn [obind].
      rewrite rep_hash. cbn [obind Runtime.strict_equal].
      destruct (String.eqb (previousHash cur) (hash prev)); [|reflexivity].
      cbn [negb]. apply IH; lia.
Qed.

Lemma runtime_validate_rep (chain : list Block) :
  Runtime.validateChain (VArr (map rep chain)) = Returns (Service.validateChain chain).
Proof.
  unfold Runtime.validateChain, Service.validateChain.
  rewrite runtime_length, Nat2Z.id.
  apply runtime_validateFrom; lia.
Qed.
End Representation.


(** So it does on a chain read back from an export, where the dates are
    text. *)
Lemma runtime_validate_read_back (chain : list Block) :
  Runtime.validateChain (chain_read_back chain) = Returns (Service.validateChain chain).
Proof. apply (runtime_validate_rep block_read_back); reflexivity. Qed.

(** ** C8: lookup by note id *)

Lemma find_first_match {A : Type} (test : A -> bool) (l : list A) :
  match find test l with
  | Some x =>
      exists before after,
        l = (before ++ x :: after)%list /\ test x = true
        /\ forall y, In y before -> test y = false
  | None => forall y, In y l -> test y = false
  end.
Proof.
  induction l as [|a l IH]; cbn [find].
  - intros y [].
  - destruct (test a) eqn:T.
    + exists [], l. repeat split; auto. intros y [].
    + destruct (find test l) as [x|].
      * destruct IH as (before & after & -> & Tx & B).
        exists (a :: before), after. repeat split; auto.
        intros y [<-|I]; auto.
      * intros y [<-|I]; auto.
Qed.

Lemma appended_payload_ids payloads chain :
  appended payloads chain ->
  forall block, In block chain ->
    EncryptedNote.id (data block) = "genesis"
    \/ In (EncryptedNote.id (data block)) (map EncryptedNote.id payloads).
Proof.
  induction 1 as [|payloads chain fuel clock e block chain' A IH H]; intros b I.
  - destruct I.
  - destruct (addNote_block _ _ _ _ _ _ H) as (_ & _ & D & _).
    destruct (appended_shape _ _ A) as (L & S & _).
    destruct (addNote_shape _ _ _ _ _ _ H L S) as (_ & _ & _ & ->).
    rewrite map_app, in_app_iff. cbn [map In].
    apply in_app_iff in I. destruct I as [I|[<-|[]]].
    + destruct chain as [|first rest].
      * destruct I as [<-|[]]. left. reflexivity.
      * destruct (IH b I); auto.
    + rewrite D. auto.
Qed.

(** C8, as stated, fails on the id of the genesis payload: no call
    appended a payload with the id ["genesis"], and the lookup returns the
    genesis block. *)
Lemma genesis_id_is_found :
  appended [Sample.payload1] Sample.chain1
  /\ ~ In "genesis" (map EncryptedNote.id [Sample.payload1])
  /\ Service.getBlockByNoteId "genesis" Sample.chain1 = Some Sample.genesis.
Proof.
  split; [exact sample_appended1|]. split; [|reflexivity].
  cbn. intros [H|[]]. discriminate H.
Qed.

(** C8, amended: on every chain and for every id, [getBlockByNoteId]
    returns the first block from index 0 whose [data.id] is the id, and
    [null] when no stored block has it; on a chain built by appending, the
    ids stored are those of the appended payloads and ["genesis"], the id of
    the genesis payload, so the lookup returns [null] for every other id. *)
Theorem lookup_by_note_id :
  (forall chain noteId,
      match Service.getBlockByNoteId noteId chain with
      | Some block =>
          exists before after,
            chain = (before ++ block :: after)%list
            /\ EncryptedNote.id (data block) = noteId
            /\ forall b, In b before -> EncryptedNote.id (data b) <> noteId
      | None => forall b, In b chain -> EncryptedNote.id (data b) <> noteId
      end)
  /\ (forall payloads chain noteId,
         appended payloads chain ->
         noteId <> "genesis" ->
         ~ In noteId (map EncryptedNote.id payloads) ->
         Service.getBlockByNoteId noteId chain = None).
Proof.
  split.
  - intros chain noteId. unfold Service.getBlockByNoteId.
    pose proof (find_first_match
                  (fun block => String.eqb (EncryptedNote.id (data block)) noteId) chain) as F.
    cbv beta in F.
    destruct (find (fun block => String.eqb (EncryptedNote.id (data block)) noteId) chain)
      as [block|].
    + destruct F as (before & after & E & T & B).
      exists before, after. repeat split; auto.
      * apply String.eqb_eq, T.
      * intros b I. apply String.eqb_neq, B, I.
    + intros b I. apply String.eqb_neq, F, I.
  - intros payloads chain noteId A G N. unfold Service.getBlockByNoteId.
    destruct (find (fun block => String.eqb (EncryptedNote.id (data block)) noteId) chain)
      as [block|] eqn:F; [|reflexivity].
    exfalso. apply find_some in F. destruct F as [I T].
    apply String.eqb_eq in T.
    destruct (appended_payload_ids _ _ A block I) as [E|E]; congruence.
Qed.

Lemma lookup_by_note_id_witness :
  Service.getBlockByNoteId "n3" Sample.chain2 = None
  /\ match Service.getBlockByNoteId "n2" Sample.chain2 with
     | Some block =>
         exists before after,
           Sample.chain2 = (before ++ block :: after)%list
           /\ EncryptedNote.id (data block) = "n2"
           /\ forall b, In b before -> EncryptedNote.id (data b) <> "n2"
     | None => forall b, In b Sample.chain2 -> EncryptedNote.id (data b) <> "n2"
     end.
Proof.
  split.
  - apply (proj2 lookup_by_note_id _ _ "n3" sample_appended2).
    + intros H. discriminate H.
    + cbn. intros [H|[H|[]]]; discriminate H.
  - apply (proj1 lookup_by_note_id Sample.chain2 "n2").
Defined.

(** ** C1: the genesis block is not checked *)

(** C1, as stated, fails at index 0: [validateChain] never recomputes the
    digest of the genesis block, so a genesis block whose payload was
    replaced passes. *)
Lemma genesis_payload_tampering_undetected :
  data (nth 0 (tamper 0 (with_data Sample.forged) Sample.chain2) Sample.genesis)
  <> data (nth 0 Sample.chain2 Sample.genesis)
  /\ Service.validateChain Sample.chain2 = true
  /\ Service.validateChain (tamper 0 (with_data Sample.forged) Sample.chain2) = true.
Proof.
  split; [|split; vm_compute; reflexivity].
  intros H. vm_compute in H. discriminate H.
Qed.

(** ** C10: chains of length 0 and 1 *)

(** C10: [validateChain] returns true on every chain of length 0 or 1,
    whatever the block holds, since its loop starts at index 1; so
    [importBlockchain] accepts every candidate that parses to an empty
    array or to an array of one value, and installs it. *)
Theorem short_chains_accepted :
  Service.validateChain [] = true
  /\ (forall block, Service.validateChain [block] = true)
  /\ Runtime.validateChain (VArr []) = Returns true
  /\ (forall v, Runtime.validateChain (VArr [v]) = Returns true)
  /\ (forall chainData chain importedChain,
         JSON_parse chainData = Returns importedChain ->
         importedChain = VArr [] \/ (exists v, importedChain = VArr [v]) ->
         Runtime.importBlockchain chainData chain = (Returns true, importedChain)).
Proof.
  repeat split.
  intros chainData chain importedChain P S.
  unfold Runtime.importBlockchain. rewrite P.
  destruct S as [->|[v ->]]; reflexivity.
Qed.

Lemma short_chains_accepted_witness :
  Runtime.importBlockchain (template_of (JSON_stringify Sample.rogue))
                           (chain_to_value Sample.chain2)
  = (Returns true, Sample.rogue).
Proof.
  destruct short_chains_accepted as (_ & _ & _ & _ & H).
  apply H.
  - vm_compute. reflexivity.
  - right. eexists. reflexivity.
Defined.

(** ** C3: a failed import *)

(** C3 at the candidate [null]: [JSON.parse] returns [null], which is
    stored in [chain]; [validateChain] throws on [chain.length]; the
    [catch] clause returns false and does not put the former chain back.
    The chain after the failed import is [null], on which [validateChain]
    throws.  Likewise an array of two [null]s stays in [chain]:
    [validateChain] throws on the [hash] of its second element. *)
Theorem import_null_loses_chain :
  Runtime.importBlockchain "null" (chain_to_value Sample.chain2) = (Returns false, VNull)
  /\ VNull <> chain_to_value Sample.chain2
  /\ Runtime.validateChain VNull = Throws TypeError
  /\ Runtime.importBlockchain "[null,null]" (chain_to_value Sample.chain2)
     = (Returns false, VArr [VNull; VNull]).
Proof.
  split; [vm_compute; reflexivity|]. split; [discriminate|].
  split; [reflexivity|vm_compute; reflexivity].
Qed.

(** The branches of [importBlockchain] that keep the promise: text that
    does not parse, and a candidate that [validateChain] rejects by
    returning false, leave the chain as it was; a candidate it accepts
    replaces the chain. *)
Lemma import_atomic_when_validation_returns (chainData : string) (chain : value) :
  (forall e, JSON_parse chainData = Throws e ->
             Runtime.importBlockchain chainData chain = (Returns false, chain))
  /\ (forall candidate,
         JSON_parse chainData = Returns candidate ->
         Runtime.validateChain candidate = Returns false ->
         Runtime.importBlockchain chainData chain = (Returns false, chain))
  /\ (forall candidate,
         JSON_parse chainData = Returns candidate ->
         Runtime.validateChain candidate = Returns true ->
         Runtime.importBlockchain chainData chain = (Returns true, candidate)).
Proof.
  unfold Runtime.importBlockchain. repeat split.
  - intros e ->. reflexivity.
  - intros candidate -> ->. reflexivity.
  - intros candidate -> ->. reflexivity.
Qed.

(** The branch that breaks it: a candidate on which [validateChain]
    throws stays in [chain]. *)
Lemma import_keeps_candidate_when_validation_throws
    (chainData : string) (chain candidate : value) (e : error) :
  JSON_parse chainData = Returns candidate ->
  Runtime.validateChain candidate = Throws e ->
  Runtime.importBlockchain chainData chain = (Returns false, candidate).
Proof. unfold Runtime.importBlockchain. intros -> ->. reflexivity. Qed.

(** ** C4: export, then import *)

(** C4 on the chain of the sample run: importing its export returns true
    and the chain read back validates, but it is not the chain exported:
    [JSON.parse] gives the text of each [createdAt] and [updatedAt], where
    the exported chain holds [Date] objects. *)
Theorem import_of_export_sample :
  Runtime.importBlockchain (Service.exportBlockchain Sample.chain2)
                           (chain_to_value Sample.chain2)
  = (Returns true, Sample.imported2)
  /\ Runtime.validateChain Sample.imported2 = Returns true
  /\ Sample.imported2 <> chain_to_value Sample.chain2
  /\ (data0 <- Runtime.get (to_value Sample.genesis) "data" ;;
      Runtime.get data0 "createdAt")%outcome
     = Returns (VDate 1700000000064)
  /\ (block0 <- Runtime.get_index Sample.imported2 0 ;;
      data0 <- Runtime.get block0 "data" ;;
      Runtime.get data0 "createdAt")%outcome
     = Returns (VStr "2023-11-14T22:13:20.064Z").
Proof.
  split; [vm_compute; reflexivity|]. split; [vm_compute; reflexivity|].
  split; [|split; vm_compute; reflexivity].
  intros H. vm_compute in H. discriminate H.
Qed.

(** ** The text of a value, read back *)

Lemma append_assoc (a b c : string) : (a ++ b) ++ c = a ++ (b ++ c).
Proof. induction a as [|x a IH]; cbn; [reflexivity|rewrite IH; reflexivity]. Qed.

Lemma length_append (a b : string) :
  String.length (a ++ b) = (String.length a + String.length b)%nat.
Proof. induction a as [|x a IH]; cbn; [reflexivity|rewrite IH; reflexivity]. Qed.

Lemma blank_append (a b : string) :
  blank a = true -> blank b = true -> blank (a ++ b) = true.
Proof.
  induction a as [|x a IH]; cbn; intros A B; [exact B|].
  apply andb_prop in A. destruct A as [X A]. rewrite X. cbn. auto.
Qed.

Lemma skip_ws_blank (w s : string) :
  blank w = true -> Parse.skip_ws (w ++ s) = Parse.skip_ws s.
Proof.
  induction w as [|x w IH]; cbn; intros B; [reflexivity|].
  apply andb_prop in B. destruct B as [X B]. rewrite X. auto.
Qed.

Lemma skip_ws_start (c : ascii) (s : string) :
  Parse.is_ws c = false -> Parse.skip_ws (String c s) = String c s.
Proof. intros H. cbn. rewrite H. reflexivity. Qed.

(** One character of a string literal: [Parse.chars] reads back what
    [escape_char] wrote. *)
Lemma chars_escape_char (c : ascii) (fuel : nat) (tail : string) :
  Parse.chars (S fuel) (escape_char c ++ tail)
  = obind (Parse.chars fuel tail)
          (fun x => let '(more, rest) := x in Returns (String c more, rest)).
Proof.
  destruct c as [[] [] [] [] [] [] [] []]; reflexivity.
Qed.

Lemma chars_escape (s : string) :
  forall fuel rest,
    (String.length s < fuel)%nat ->
    Parse.chars fuel (escape s ++ String dquote rest) = Returns (s, rest).
Proof.
  induction s as [|c s IH]; intros fuel rest L.
  - destruct fuel; [cbn in L; lia|]. reflexivity.
  - destruct fuel; [cbn in L; lia|].
    cbn [escape]. rewrite append_assoc, chars_escape_char.
    rewrite IH by (cbn in L; lia). reflexivity.
Qed.

Lemma escape_char_length (c : ascii) : (1 <= String.length (escape_char c))%nat.
Proof. destruct c as [[] [] [] [] [] [] [] []]; cbn; lia. Qed.

Lemma escape_length (s : string) : (String.length s <= String.length (escape s))%nat.
Proof.
  induction s as [|c s IH]; cbn [escape String.length]; [lia|].
  rewrite length_append. pose proof (escape_char_length c). lia.
Qed.

(** A string value: its text, read back. *)
Lemma quoted_read_back (s rest : string) :
  Parse.chars (String.length (escape s ++ String dquote rest))
              (escape s ++ String dquote rest)
  = Returns (s, rest).
Proof.
  apply chars_escape. rewrite length_append. cbn [String.length].
  pose proof (escape_length s). lia.
Qed.

Lemma quote_append (s rest : string) :
  quote s ++ rest = String dquote (escape s ++ String dquote rest).
Proof. unfold quote. cbn [append]. rewrite append_assoc. reflexivity. Qed.

(** *** Numbers *)

Lemma follows_cases (rest : string) :
  follows rest = true ->
  rest = EmptyString
  \/ exists c r, rest = String c r
                 /\ In c [" "%char; "009"%char; "010"%char; "013"%char;
                          ","%char; "]"%char; "}"%char].
Proof.
  destruct rest as [|c r]; [auto|]. intros F. right. exists c, r.
  split; [reflexivity|].
  destruct c as [[] [] [] [] [] [] [] []]; cbn in F; try discriminate F;
    cbn; tauto.
Qed.

Ltac follow_cases F :=
  destruct (follows_cases _ F) as [->|(?c & ?r & -> & In_c)];
  [|cbn in In_c;
    repeat (destruct In_c as [<-|In_c]; [|]); [..|destruct In_c]].

Lemma digits_stop (rest : string) :
  follows rest = true -> forall a c, Parse.digits rest a c = (a, c, rest).
Proof. intros F a c. follow_cases F; reflexivity. Qed.

Lemma frac_part_none (rest : string) :
  follows rest = true -> Parse.frac_part rest = Some (0%N, 0%nat, rest).
Proof. intros F. follow_cases F; reflexivity. Qed.

Lemma exp_part_none (rest : string) :
  follows rest = true -> Parse.exp_part rest = Some (0, rest).
Proof. intros F. follow_cases F; reflexivity. Qed.

Lemma digits_uint (d : Decimal.uint) (rest : string) :
  follows rest = true ->
  forall acc count,
    exists count',
      Parse.digits (NilEmpty.string_of_uint d ++ rest) acc count
      = (uint_value d acc, count', rest).
Proof.
  intros F. induction d as [|d IH|d IH|d IH|d IH|d IH|d IH|d IH|d IH|d IH|d IH];
    intros acc count; cbn [NilEmpty.string_of_uint append uint_value].
  1: exists count; apply digits_stop, F.
  all: match goal with
       | |- context [uint_value ?l ?a] =>
           destruct (IH a (S count)) as [k E]; exists k; exact E
       end.
Qed.

Lemma uint_value_acc (d : Decimal.uint) :
  forall acc, uint_value d (Npos acc) = Npos (Pos.of_uint_acc d acc).
Proof.
  induction d as [|d IH|d IH|d IH|d IH|d IH|d IH|d IH|d IH|d IH|d IH];
    intros acc; cbn [uint_value Pos.of_uint_acc]; [reflexivity|..];
    rewrite <- IH; f_equal; lia.
Qed.

Lemma uint_value_of_uint (d : Decimal.uint) : uint_value d 0 = N.of_uint d.
Proof.
  unfold N.of_uint.
  induction d as [|d IH|d IH|d IH|d IH|d IH|d IH|d IH|d IH|d IH|d IH];
    cbn [uint_value Pos.of_uint]; [reflexivity|exact IH|..];
    apply uint_value_acc.
Qed.

(** The decimal text of a positive number begins with a digit from 1 to
    9. *)
Lemma to_uint_head (p : positive) :
  match Pos.to_uint p with
  | Decimal.Nil | Decimal.D0 _ => False
  | _ => True
  end.
Proof.
  pose proof (DecimalPos.Unsigned.to_of (Pos.to_uint p)) as U.
  rewrite DecimalPos.Unsigned.of_to in U. cbn [N.to_uint] in U.
  destruct (Pos.to_uint p) as [|l| | | | | | | | | ] eqn:E; try exact I.
  - exact (DecimalFacts.unorm_nonnil _ (eq_sym U)).
  - rewrite DecimalFacts.unorm_D0 in U.
    assert (C : l = Decimal.Nil \/ l <> Decimal.Nil)
      by (destruct l; [left; reflexivity|right; discriminate..]).
    destruct C as [->|C].
    + pose proof (DecimalPos.Unsigned.of_to p) as O. rewrite E in O. discriminate O.
    + pose proof (DecimalFacts.nb_digits_unorm l C) as B.
      rewrite <- U in B. cbn [Decimal.nb_digits] in B. lia.
Qed.

Lemma int_part_read_back (p : positive) (rest : string) :
  follows rest = true ->
  Parse.int_part (NilEmpty.string_of_uint (Pos.to_uint p) ++ rest) = Some (Npos p, rest).
Proof.
  intros F.
  destruct (digits_uint (Pos.to_uint p) rest F 0%N 0%nat) as [k D].
  rewrite uint_value_of_uint in D.
  change (N.of_uint (Pos.to_uint p)) with (Pos.of_uint (Pos.to_uint p)) in D.
  rewrite DecimalPos.Unsigned.of_to in D.
  pose proof (to_uint_head p) as H.
  destruct (Pos.to_uint p) as [|l|l|l|l|l|l|l|l|l|l]; try contradiction;
    cbn [NilEmpty.string_of_uint append] in D |- *;
    unfold Parse.int_part; rewrite D; reflexivity.
Qed.

Lemma unsigned_number_read_back (negative : bool) (p : positive) (rest : string) :
  follows rest = true -> Zpos p <= Parse.exact_bound ->
  Parse.unsigned_number negative (NilEmpty.string_of_uint (Pos.to_uint p) ++ rest)
  = Returns (if negative then Zneg p else Zpos p, rest).
Proof.
  intros F B. unfold Parse.unsigned_number.
  rewrite (int_part_read_back p rest F), (frac_part_none rest F), (exp_part_none rest F).
  change (Z.of_N (N.pos p) * 10 ^ Z.of_nat 0 + Z.of_N 0) with (Zpos p * 1 + 0).
  rewrite Z.mul_1_r, Z.add_0_r. cbv zeta.
  change (Zpos p =? 0) with false. cbv iota.
  change (Z.abs (0 - Z.of_nat 0) >? 400) with false. cbv iota.
  change (0 <=? 0 - Z.of_nat 0) with true. cbv iota.
  change (10 ^ (0 - Z.of_nat 0)) with 1. rewrite Z.mul_1_r.
  apply Z.leb_le in B. rewrite B. destruct negative; reflexivity.
Qed.

Lemma number_read_back (n : Z) (rest : string) :
  follows rest = true -> Z.abs n <= Parse.exact_bound ->
  Parse.number (decimal n ++ rest) = Returns (n, rest).
Proof.
  intros F B. destruct n as [|p|p].
  - change (decimal 0) with "0". cbn [append Parse.number].
    unfold Parse.unsigned_number. cbn [Parse.int_part].
    change (Ascii.eqb "0" "0") with true. cbv iota.
    rewrite (frac_part_none rest F), (exp_part_none rest F). reflexivity.
  - pose proof (unsigned_number_read_back false p rest F B) as U.
    unfold decimal. cbn [Z.to_int Pos.to_int NilZero.string_of_int].
    pose proof (to_uint_head p) as H.
    destruct (Pos.to_uint p) as [|l|l|l|l|l|l|l|l|l|l]; try contradiction; exact U.
  - pose proof (unsigned_number_read_back true p rest F B) as U.
    unfold decimal. cbn [Z.to_int Pos.to_int NilZero.string_of_int].
    pose proof (to_uint_head p) as H.
    destruct (Pos.to_uint p) as [|l|l|l|l|l|l|l|l|l|l]; try contradiction; exact U.
Qed.

Lemma parse_value_blank (fuel : nat) (w s : string) :
  blank w = true -> Parse.parse_value fuel (w ++ s) = Parse.parse_value fuel s.
Proof.
  intros B. destruct fuel; [reflexivity|].
  cbn [Parse.parse_value]. rewrite (skip_ws_blank w s B). reflexivity.
Qed.

Lemma parse_members_blank (fuel : nat) acc (w s : string) :
  blank w = true -> Parse.parse_members fuel acc (w ++ s) = Parse.parse_members fuel acc s.
Proof.
  intros B. destruct fuel; [reflexivity|].
  cbn [Parse.parse_members]. rewrite (skip_ws_blank w s B). reflexivity.
Qed.

Lemma parse_value_number_start (c : ascii) (t : string) (fuel : nat) :
  Ascii.eqb c "-" || Parse.is_digit c = true ->
  Parse.parse_value (S fuel) (String c t)
  = obind (Parse.number (String c t))
          (fun x => let '(z, rest) := x in Returns (VNum z, rest)).
Proof.
  intros H. destruct c as [[] [] [] [] [] [] [] []]; cbn in H; try discriminate H;
    reflexivity.
Qed.

Lemma decimal_head (n : Z) :
  exists c t, decimal n = String c t
              /\ Ascii.eqb c "-" || Parse.is_digit c = true
              /\ value_start c = true.
Proof.
  destruct n as [|p|p].
  - exists "0"%char, EmptyString. repeat split.
  - unfold decimal. cbn [Z.to_int Pos.to_int NilZero.string_of_int].
    pose proof (to_uint_head p) as H.
    destruct (Pos.to_uint p) as [|l|l|l|l|l|l|l|l|l|l]; try contradiction;
      cbn [NilZero.string_of_uint NilEmpty.string_of_uint];
      eexists; eexists; repeat split.
  - unfold decimal. cbn [Z.to_int Pos.to_int NilZero.string_of_int].
    eexists; eexists; repeat split.
Qed.

Lemma parse_number_value (n : Z) (w rest : string) (fuel : nat) :
  blank w = true -> follows rest = true -> Z.abs n <= Parse.exact_bound ->
  Parse.parse_value (S fuel) (w ++ decimal n ++ rest) = Returns (VNum n, rest).
Proof.
  intros W F B. rewrite (parse_value_blank _ w _ W).
  pose proof (number_read_back n rest F B) as N.
  destruct (decimal_head n) as (c & t & E & S & _). rewrite E in N |- *.
  cbn [append] in N |- *. rewrite (parse_value_number_start c _ fuel S), N. reflexivity.
Qed.

(** *** Arrays and objects *)

Lemma value_induction (P : value -> Prop) :
  P VUndefined -> P VNull -> (forall b, P (VBool b)) -> (forall n, P (VNum n)) ->
  (forall s, P (VStr s)) -> (forall t, P (VDate t)) ->
  (forall items, Forall P items -> P (VArr items)) ->
  (forall props, Forall (fun p => P (snd p)) props -> P (VObj props)) ->
  forall v, P v.
Proof.
  intros HU HN HB HZ HS HD HA HO. fix IH 1.
  intros [ | |b|n|s|t|items|props].
  - exact HU.
  - exact HN.
  - apply HB.
  - apply HZ.
  - apply HS.
  - apply HD.
  - apply HA. induction items as [|x items IHi]; constructor; [apply IH|exact IHi].
  - apply HO. induction props as [|[k x] props IHp]; constructor; [apply IH|exact IHp].
Qed.

Lemma serialize_array (gap indent : string) (items : list value) :
  SerializeJSON gap indent (VArr items)
  = Some (wrap gap "[" "]" indent (map (element_text gap (indent ++ gap)) items)).
Proof.
  reflexivity.
Qed.

Lemma serialize_object (gap indent : string) (props : list (string * value)) :
  SerializeJSON gap indent (VObj props)
  = Some (wrap gap "{" "}" indent (member_texts gap (indent ++ gap) props)).
Proof.
  cbn [SerializeJSON]. do 2 f_equal.
  induction props as [|[k x] props IH]; [reflexivity|].
  cbn [member_texts]. rewrite <- IH. reflexivity.
Qed.

Lemma weight_array (items : list value) :
  weight (VArr items) = S (list_sum (map (fun x => S (weight x)) items)).
Proof.
  cbn [weight]. f_equal.
  induction items as [|x items IH]; [reflexivity|].
  cbn [map list_sum fold_right]. rewrite IH. reflexivity.
Qed.

Lemma weight_object (props : list (string * value)) :
  weight (VObj props) = S (list_sum (map (fun p => S (weight (snd p))) props)).
Proof.
  cbn [weight]. f_equal.
  induction props as [|[k x] props IH]; [reflexivity|].
  cbn [map list_sum fold_right snd]. rewrite IH. reflexivity.
Qed.

Lemma pure_array (items : list value) :
  pure_json (VArr items) = forallb pure_json items.
Proof.
  reflexivity.
Qed.

Lemma pure_object (props : list (string * value)) :
  pure_json (VObj props)
  = ordered_from [] props && forallb (fun p => pure_json (snd p)) props.
Proof.
  cbn [pure_json]. f_equal. induction props as [|[k x] props IH]; [reflexivity|].
  cbn [forallb snd]. rewrite IH. reflexivity.
Qed.

Lemma wrap_parts (gap open_ close_ indent p : string) (ps : list string) :
  wrap gap open_ close_ indent (p :: ps)
  = open_ ++ break_before_part gap indent
      ++ join (String "," (break_before_part gap indent)) (p :: ps)
      ++ break_before_close gap indent ++ close_.
Proof.
  unfold wrap, break_before_part, break_before_close.
  destruct gap as [|g gap]; [reflexivity|].
  cbv zeta. rewrite !append_assoc. reflexivity.
Qed.

Lemma blank_break_part (gap indent : string) :
  blank gap = true -> blank indent = true -> blank (break_before_part gap indent) = true.
Proof.
  intros G I. unfold break_before_part. destruct gap as [|g gap]; [reflexivity|].
  cbn [append blank]. change (Parse.is_ws newline) with true. cbn [andb].
  apply blank_append; assumption.
Qed.

Lemma blank_break_close (gap indent : string) :
  blank indent = true -> blank (break_before_close gap indent) = true.
Proof.
  intros I. unfold break_before_close. destruct gap as [|g gap]; [reflexivity|].
  exact I.
Qed.

Lemma follows_after_blank (w : string) (c : ascii) (r : string) :
  blank w = true -> follows (String c r) = true -> follows (w ++ String c r) = true.
Proof.
  intros B F. destruct w as [|x w]; [exact F|].
  cbn in B. apply andb_prop in B. destruct B as [X _].
  cbn [append follows]. rewrite X. reflexivity.
Qed.

Lemma define_fits (k : string) (v : value) (acc : list (string * value)) :
  fits k acc = true -> Parse.define k v acc = (acc ++ [(k, v)])%list.
Proof.
  induction acc as [|[k' v'] acc IH]; intros F; [reflexivity|].
  cbn [fits forallb fst] in F. apply andb_prop in F. destruct F as [F1 F].
  apply andb_prop in F1. destruct F1 as [N O].
  apply negb_true_iff in N. cbn [Parse.define]. rewrite N.
  specialize (IH F).
  destruct (Parse.index_of_key k) as [i|], (Parse.index_of_key k') as [j|];
    try discriminate O; cbn [app]; try (rewrite IH; reflexivity).
  apply negb_true_iff in O. rewrite O, IH. reflexivity.
Qed.

Lemma parse_elements_blank (fuel : nat) (w s : string) :
  blank w = true -> Parse.parse_elements fuel (w ++ s) = Parse.parse_elements fuel s.
Proof.
  intros B. destruct fuel; [reflexivity|].
  cbn [Parse.parse_elements]. rewrite (parse_value_blank _ w s B). reflexivity.
Qed.

Lemma follows_comma (r : string) : follows (String "," r) = true.
Proof. reflexivity. Qed.

Lemma follows_close (w r : string) (c : ascii) :
  blank w = true -> c = "]"%char \/ c = "}"%char -> follows (w ++ String c r) = true.
Proof.
  intros B C. apply follows_after_blank; [exact B|]. destruct C as [->| ->]; reflexivity.
Qed.

Lemma element_text_known (gap indent text : string) (x : value) :
  SerializeJSON gap indent x = Some text -> element_text gap indent x = text.
Proof. unfold element_text. intros ->. reflexivity. Qed.

(** The elements of an array, read back one after the other. *)
Lemma elements_read_back (gap : string) (items : list value) :
  Forall (reads_back gap) items -> items <> [] ->
  forall indent sepw closew rest fuel,
    blank indent = true -> blank sepw = true -> blank closew = true ->
    (list_sum (map (fun x => S (weight x)) items) <= fuel)%nat ->
    Parse.parse_elements fuel
      (join (String "," sepw) (map (element_text gap indent) items)
         ++ closew ++ String "]" rest)
    = Returns (items, rest).
Proof.
  induction 1 as [|x items Hx Hitems IH]; intros NE indent sepw closew rest fuel I SW CW L;
    [congruence|].
  destruct (Hx indent I) as (text & T & _ & _ & P).
  cbn [map list_sum fold_right] in L. destruct fuel as [|fuel]; [lia|].
  cbn [map]. rewrite (element_text_known _ _ _ _ T).
  cbn [Parse.parse_elements].
  destruct items as [|y items]; cbn [map list_sum fold_right] in L.
  - cbn [map join].
    pose proof (P EmptyString (closew ++ String "]" rest) fuel eq_refl
                  (follows_close closew rest "]" CW (or_introl eq_refl))
                  ltac:(lia)) as E.
    cbn [append] in E. rewrite E. cbn [obind].
    rewrite (skip_ws_blank closew _ CW). reflexivity.
  - assert (J : join (String "," sepw) (text :: map (element_text gap indent) (y :: items))
                = text ++ String "," sepw
                    ++ join (String "," sepw) (map (element_text gap indent) (y :: items)))
      by reflexivity.
    rewrite J, !append_assoc. cbn [append].
    pose proof (P EmptyString
                  (String "," (sepw ++ join (String "," sepw)
                                          (map (element_text gap indent) (y :: items))
                                    ++ closew ++ String "]" rest))
                  fuel eq_refl (follows_comma _) ltac:(lia)) as E.
    cbn [append] in E. rewrite E. cbn [obind].
    change (Parse.skip_ws (String "," ?r)) with (String "," r).
    cbv iota beta.
    rewrite (parse_elements_blank fuel sepw _ SW).
    rewrite (IH ltac:(discriminate) indent sepw closew rest fuel I SW CW ltac:(cbn [map list_sum fold_right]; lia)).
    reflexivity.
Qed.

Lemma parse_members_quote (fuel : nat) (acc : list (string * value)) (body : string) :
  Parse.parse_members (S fuel) acc (String dquote body)
  = obind (Parse.chars (String.length body) body)
      (fun x =>
         let '(k, rest1) := x in
         match Parse.skip_ws rest1 with
         | String ":" rest2 =>
             obind (Parse.parse_value fuel rest2)
               (fun y =>
                  let '(v, rest3) := y in
                  let props := Parse.define k v acc in
                  match Parse.skip_ws rest3 with
                  | String "," rest4 => Parse.parse_members fuel props rest4
                  | String "}" rest4 => Returns (props, rest4)
                  | _ => Throws SyntaxError
                  end)
         | _ => Throws SyntaxError
         end).
Proof. reflexivity. Qed.

Lemma colon_shape (gap : string) :
  blank gap = true -> exists w, blank w = true /\ colon gap = String ":" w.
Proof.
  intros _. destruct gap; [exists EmptyString|exists " "]; split; reflexivity.
Qed.

(** The members of an object, read back one after the other. *)
Lemma members_read_back (gap : string) (G : blank gap = true)
    (props : list (string * value)) :
  Forall (fun p => reads_back gap (snd p)) props -> props <> [] ->
  forall indent acc sepw closew rest fuel,
    blank indent = true -> blank sepw = true -> blank closew = true ->
    ordered_from acc props = true ->
    (list_sum (map (fun p => S (weight (snd p))) props) <= fuel)%nat ->
    Parse.parse_members fuel acc
      (join (String "," sepw) (member_texts gap indent props)
         ++ closew ++ String "}" rest)
    = Returns ((acc ++ props)%list, rest).
Proof.
  induction 1 as [|[k x] props Hx Hprops IH];
    intros NE indent acc sepw closew rest fuel I SW CW O L; [congruence|].
  cbn [snd] in Hx. destruct (Hx indent I) as (text & T & _ & _ & P).
  cbn [map list_sum fold_right snd] in L. destruct fuel as [|fuel]; [lia|].
  cbn [ordered_from] in O. apply andb_prop in O. destruct O as [F O].
  destruct (colon_shape gap G) as (cw & CWB & CE).
  cbn [member_texts]. rewrite T, CE.
  destruct props as [|[k' y] props]; cbn [map list_sum fold_right snd] in L.
  - cbn [member_texts join].
    rewrite !append_assoc, quote_append. cbn [append].
    rewrite parse_members_quote, quoted_read_back. cbn [obind].
    change (Parse.skip_ws (String ":" ?r)) with (String ":" r). cbv iota beta.
    rewrite (P cw (closew ++ String "}" rest) fuel CWB
               (follows_close closew rest "}" CW (or_intror eq_refl)) ltac:(lia)).
    cbn [obind]. cbv zeta. rewrite (skip_ws_blank closew _ CW).
    rewrite (define_fits k x acc F). reflexivity.
  - destruct (Forall_inv Hprops indent I) as (text' & T' & _).
    cbn [snd] in T'.
    assert (J : join (String "," sepw)
                  ((quote k ++ String ":" cw ++ text)
                     :: member_texts gap indent ((k', y) :: props))
                = (quote k ++ String ":" cw ++ text) ++ String "," sepw
                    ++ join (String "," sepw) (member_texts gap indent ((k', y) :: props))).
    { cbn [member_texts]. rewrite T'. reflexivity. }
    rewrite J, !append_assoc, quote_append. cbn [append].
    rewrite parse_members_quote, quoted_read_back. cbn [obind].
    change (Parse.skip_ws (String ":" ?r)) with (String ":" r). cbv iota beta.
    rewrite (P cw _ fuel CWB (follows_comma _) ltac:(lia)).
    cbn [obind]. cbv zeta.
    change (Parse.skip_ws (String "," ?r)) with (String "," r). cbv iota beta.
    rewrite (parse_members_blank fuel _ sepw _ SW).
    rewrite (define_fits k x acc F).
    rewrite (IH ltac:(discriminate) indent (acc ++ [(k, x)])%list sepw closew rest fuel
                I SW CW O ltac:(cbn [map list_sum fold_right snd]; lia)).
    rewrite <- app_assoc. reflexivity.
Qed.

Lemma elements_length (gap indent sepw : string) (items : list value) :
  Forall (reads_back gap) items -> blank indent = true ->
  (list_sum (map (fun x => S (weight x)) items)
   <= S (String.length (join (String "," sepw) (map (element_text gap indent) items))))%nat.
Proof.
  induction 1 as [|x items Hx Hitems IH]; intros I; [cbn; lia|].
  destruct (Hx indent I) as (text & T & W & _).
  cbn [map list_sum fold_right]. rewrite (element_text_known _ _ _ _ T).
  specialize (IH I). destruct items as [|y items].
  - cbn [map join list_sum fold_right] in *. unfold list_sum in *. lia.
  - change (join (String "," sepw) (text :: map (element_text gap indent) (y :: items)))
      with (text ++ String "," sepw
              ++ join (String "," sepw) (map (element_text gap indent) (y :: items))).
    rewrite !length_append. cbn [String.length]. unfold list_sum in *. lia.
Qed.

Lemma members_length (gap indent sepw : string) (props : list (string * value)) :
  Forall (fun p => reads_back gap (snd p)) props -> blank indent = true ->
  (list_sum (map (fun p => S (weight (snd p))) props)
   <= S (String.length (join (String "," sepw) (member_texts gap indent props))))%nat.
Proof.
  induction 1 as [|[k x] props Hx Hprops IH]; intros I; [cbn; lia|].
  cbn [snd] in Hx. destruct (Hx indent I) as (text & T & W & _).
  cbn [map list_sum fold_right snd member_texts]. rewrite T.
  specialize (IH I). destruct props as [|[k' y] props].
  - cbn [member_texts join map list_sum fold_right] in *.
    rewrite !length_append. unfold list_sum in *. lia.
  - destruct (Forall_inv Hprops indent I) as (text' & T' & _). cbn [snd] in T'.
    cbn [member_texts] in IH |- *. rewrite T' in IH |- *.
    match goal with
    | |- context [join ?sep (?a :: ?b :: ?l)] =>
        change (join sep (a :: b :: l)) with (a ++ sep ++ join sep (b :: l))
    end.
    rewrite !length_append. cbn [String.length]. unfold list_sum in *. lia.
Qed.

Lemma join_head (sep : string) (c : ascii) (t : string) (more : list string) (rest : string) :
  exists r, join sep (String c t :: more) ++ rest = String c r.
Proof. destruct more; cbn [join append]; eexists; reflexivity. Qed.

Lemma parse_value_open_bracket (fuel : nat) (body : string) :
  (exists c r, Parse.skip_ws body = String c r /\ c <> "]"%char) ->
  Parse.parse_value (S fuel) (String "[" body)
  = obind (Parse.parse_elements fuel body)
          (fun x => let '(items, rest) := x in Returns (VArr items, rest)).
Proof.
  intros (c & r & E & N).
  assert (U : Parse.parse_value (S fuel) (String "[" body)
              = match Parse.skip_ws body with
                | String "]" rest' => Returns (VArr [], rest')
                | _ => obind (Parse.parse_elements fuel body)
                         (fun x => let '(items, rest) := x in Returns (VArr items, rest))
                end) by reflexivity.
  rewrite U, E.
  destruct c as [[] [] [] [] [] [] [] []]; try reflexivity. congruence.
Qed.

Lemma parse_value_open_brace (fuel : nat) (body : string) :
  (exists r, Parse.skip_ws body = String dquote r) ->
  Parse.parse_value (S fuel) (String "{" body)
  = obind (Parse.parse_members fuel [] body)
          (fun x => let '(props, rest) := x in Returns (VObj props, rest)).
Proof.
  intros (r & E).
  assert (U : Parse.parse_value (S fuel) (String "{" body)
              = match Parse.skip_ws body with
                | String "}" rest' => Returns (VObj [], rest')
                | _ => obind (Parse.parse_members fuel [] body)
                         (fun x => let '(props, rest) := x in Returns (VObj props, rest))
                end) by reflexivity.
  rewrite U, E. reflexivity.
Qed.

Lemma parse_value_quote (fuel : nat) (body : string) :
  Parse.parse_value (S fuel) (String dquote body)
  = obind (Parse.chars (String.length body) body)
          (fun x => let '(text, rest) := x in Returns (VStr text, rest)).
Proof. reflexivity. Qed.

Lemma value_start_not_ws (c : ascii) : value_start c = true -> Parse.is_ws c = false.
Proof.
  unfold value_start. intros H. repeat (apply andb_prop in H; destruct H as [H _]).
  apply negb_true_iff, H.
Qed.

Lemma value_start_not_close (c : ascii) : value_start c = true -> c <> "]"%char.
Proof. intros H ->. discriminate H. Qed.

Lemma forallb_Forall_reads (gap : string) (items : list value) :
  Forall (fun v => pure_json v = true -> reads_back gap v) items ->
  forallb pure_json items = true -> Forall (reads_back gap) items.
Proof.
  induction 1 as [|x items Hx _ IH]; intros A; [constructor|].
  cbn in A. apply andb_prop in A. destruct A as [A1 A2]. constructor; auto.
Qed.

Lemma forallb_Forall_reads_props (gap : string) (props : list (string * value)) :
  Forall (fun p => pure_json (snd p) = true -> reads_back gap (snd p)) props ->
  forallb (fun p => pure_json (snd p)) props = true ->
  Forall (fun p => reads_back gap (snd p)) props.
Proof.
  induction 1 as [|x items Hx _ IH]; intros A; [constructor|].
  cbn in A. apply andb_prop in A. destruct A as [A1 A2]. constructor; auto.
Qed.

(** Every value [JSON.parse] can return is read back from its text, at
    every indentation unit made of white space. *)
Theorem json_reads_back (gap : string) :
  blank gap = true -> forall v, pure_json v = true -> reads_back gap v.
Proof.
  intros G. apply (value_induction (fun v => pure_json v = true -> reads_back gap v)).
  - discriminate.
  - intros _ indent I. exists "null". repeat split.
    + cbn. lia.
    + exists "n"%char, "ull". split; reflexivity.
    + intros w rest [|fuel] W F L; [cbn in L; lia|].
      rewrite (parse_value_blank _ w _ W). reflexivity.
  - intros b _ indent I. exists (if b then "true" else "false"). repeat split.
    + destruct b; cbn; lia.
    + destruct b; eexists; eexists; split; reflexivity.
    + intros w rest [|fuel] W F L; [cbn in L; lia|].
      rewrite (parse_value_blank _ w _ W). destruct b; reflexivity.
  - intros n Pn indent I. exists (decimal n). cbn [pure_json] in Pn.
    apply Z.leb_le in Pn.
    destruct (decimal_head n) as (c & t & E & _ & S). repeat split.
    + rewrite E. cbn. lia.
    + exists c, t. split; assumption.
    + intros w rest [|fuel] W F L; [cbn in L; lia|].
      apply parse_number_value; assumption.
  - intros s _ indent I. exists (quote s). repeat split.
    + cbn. lia.
    + eexists; eexists; split; reflexivity.
    + intros w rest [|fuel] W F L; [cbn in L; lia|].
      rewrite (parse_value_blank _ w _ W), quote_append, parse_value_quote.
      rewrite quoted_read_back. reflexivity.
  - discriminate.
  - intros items IH Pi indent I. rewrite pure_array in Pi.
    pose proof (forallb_Forall_reads gap items IH Pi) as R.
    rewrite serialize_array, weight_array.
    assert (I' : blank (indent ++ gap) = true) by (apply blank_append; assumption).
    destruct items as [|x items].
    + exists "[]". repeat split.
      * cbn. lia.
      * eexists; eexists; split; reflexivity.
      * intros w rest [|fuel] W F L; [cbn in L; lia|].
        rewrite (parse_value_blank _ w _ W). reflexivity.
    + cbn [map]. rewrite wrap_parts.
      pose proof (blank_break_part gap indent G I) as BP.
      pose proof (blank_break_close gap indent I) as BC.
      pose proof (elements_length gap (indent ++ gap) (break_before_part gap indent)
                    (x :: items) R I') as EL.
      pose proof (elements_read_back gap (x :: items) R ltac:(discriminate)
                    (indent ++ gap) (break_before_part gap indent)
                    (break_before_close gap indent)) as ER.
      cbn [map] in EL, ER |- *.
      eexists. split; [reflexivity|]. repeat split.
      * rewrite !length_append. cbn [String.length]. lia.
      * eexists; eexists; split; reflexivity.
      * intros w rest [|fuel] W F L; [lia|].
        rewrite (parse_value_blank _ w _ W), !append_assoc. cbn [append].
        rewrite parse_value_open_bracket.
        -- rewrite (parse_elements_blank fuel _ _ BP).
           rewrite (ER rest fuel I' BP BC ltac:(lia)). reflexivity.
        -- rewrite (skip_ws_blank _ _ BP).
           destruct (Forall_inv R (indent ++ gap) I') as (text & T & _ & (c & t & -> & S) & _).
           rewrite (element_text_known _ _ _ _ T).
           destruct (join_head (String "," (break_before_part gap indent)) c t
                               (map (element_text gap (indent ++ gap)) items)
                               (break_before_close gap indent ++ String "]" rest))
             as [r E].
           rewrite E. exists c, r. split.
           ++ apply skip_ws_start, value_start_not_ws, S.
           ++ apply value_start_not_close, S.
  - intros props IH Pp indent I. rewrite pure_object in Pp.
    apply andb_prop in Pp. destruct Pp as [O Pp].
    pose proof (forallb_Forall_reads_props gap props IH Pp) as R.
    rewrite serialize_object, weight_object.
    assert (I' : blank (indent ++ gap) = true) by (apply blank_append; assumption).
    destruct props as [|[k x] props].
    + exists "{}". repeat split.
      * cbn. lia.
      * eexists; eexists; split; reflexivity.
      * intros w rest [|fuel] W F L; [cbn in L; lia|].
        rewrite (parse_value_blank _ w _ W). reflexivity.
    + pose proof (blank_break_part gap indent G I) as BP.
      pose proof (blank_break_close gap indent I) as BC.
      destruct (Forall_inv R (indent ++ gap) I') as (text & T & _).
      cbn [snd] in T.
      assert (M : exists m ms, member_texts gap (indent ++ gap) ((k, x) :: props)
                               = (quote k ++ m) :: ms).
      { cbn [member_texts]. rewrite T. eexists; eexists; reflexivity. }
      destruct M as (m & ms & M).
      pose proof (members_length gap (indent ++ gap) (break_before_part gap indent)
                    ((k, x) :: props) R I') as ML.
      pose proof (members_read_back gap G ((k, x) :: props) R ltac:(discriminate)
                    (indent ++ gap) [] (break_before_part gap indent)
                    (break_before_close gap indent)) as MR.
      rewrite M in ML, MR |- *. rewrite wrap_parts.
      eexists. split; [reflexivity|]. repeat split.
      * rewrite !length_append. cbn [String.length]. lia.
      * eexists; eexists; split; reflexivity.
      * intros w rest [|fuel] W F L; [lia|].
        rewrite (parse_value_blank _ w _ W), !append_assoc. cbn [append].
        rewrite parse_value_open_brace.
        -- rewrite (parse_members_blank fuel _ _ _ BP).
           rewrite (MR rest fuel I' BP BC O ltac:(lia)). reflexivity.
        -- rewrite (skip_ws_blank _ _ BP).
           destruct ms; cbn [join]; rewrite ?append_assoc, quote_append;
             eexists; reflexivity.
Qed.

Lemma append_empty (s : string) : s ++ EmptyString = s.
Proof. induction s as [|c s IH]; cbn; [reflexivity|rewrite IH; reflexivity]. Qed.

(** [JSON.parse] of the text [JSON.stringify] gives for a value it can
    return is that value, with or without indentation. *)
Theorem JSON_parse_stringify (gap : string) (v : value) (text : string) :
  blank gap = true -> pure_json v = true ->
  SerializeJSON gap EmptyString v = Some text ->
  JSON_parse text = Returns v.
Proof.
  intros G P T.
  destruct (json_reads_back gap G v P EmptyString eq_refl) as (text' & T' & W & _ & R).
  rewrite T in T'. injection T' as <-.
  specialize (R EmptyString EmptyString (S (String.length text)) eq_refl eq_refl
                ltac:(lia)).
  cbn [append] in R. rewrite append_empty in R.
  unfold JSON_parse, Parse.JSON_parse. rewrite R. reflexivity.
Qed.

(** ** C5: encrypt, then decrypt *)

Lemma pure_strings (l : list string) : forallb pure_json (map VStr l) = true.
Proof. induction l as [|s l IH]; [reflexivity|exact IH]. Qed.

(** The text [encryptNote] encrypts is read back to the title, the content
    and the tags of the note. *)
Lemma noteData_read_back (note : Note.t) :
  exists c t noteObject,
    noteData note = String c t
    /\ JSON_parse (noteData note) = Returns noteObject
    /\ Runtime.get noteObject "title" = Returns (VStr (Note.title note))
    /\ Runtime.get noteObject "content" = Returns (VStr (Note.content note))
    /\ Runtime.get noteObject "tags" = Returns (Note.tags_value note).
Proof.
  unfold noteData, Note.tags_value. destruct (Note.tags note) as [l|].
  - exists "{"%char. eexists.
    exists (VObj [("title", VStr (Note.title note)); ("content", VStr (Note.content note));
                  ("tags", VArr (map VStr l))]).
    split; [|split; [|repeat split]].
    + unfold JSON_stringify. rewrite serialize_object. reflexivity.
    + apply (JSON_parse_stringify EmptyString); [reflexivity| |].
      * rewrite pure_object. cbn [forallb snd].
        rewrite pure_array, pure_strings. reflexivity.
      * unfold JSON_stringify.
        destruct (SerializeJSON EmptyString EmptyString
                    (VObj [("title", VStr (Note.title note));
                           ("content", VStr (Note.content note));
                           ("tags", VArr (map VStr l))])) eqn:E; [reflexivity|].
        rewrite serialize_object in E. discriminate E.
  - exists "{"%char. eexists.
    exists (VObj [("title", VStr (Note.title note)); ("content", VStr (Note.content note))]).
    split; [|split; [|repeat split]].
    + reflexivity.
    + apply (JSON_parse_stringify EmptyString); reflexivity.
Qed.

Section CodecProperties.
Variable AES_encrypt : string -> string -> string -> string.
Variable AES_decrypt : string -> string -> outcome string.

(** C5: for every note and every salt the library draws, when the library
    decrypts under the key what it encrypted under the key,
    [decryptNote (encryptNote note)] returns, and returns a note with the
    id, title, content, tags, [createdAt] and [updatedAt] of [note]; the
    encrypted note carries the id and the dates of [note].  Nothing is
    asked of the ciphertext, which depends on the salt. *)
Theorem decrypt_encrypt_note (salt : string) (note : Note.t) :
  AES_decrypt (AES_encrypt salt (noteData note) ENCRYPTION_KEY) ENCRYPTION_KEY
  = Returns (noteData note) ->
  decryptNote AES_decrypt (encryptNote AES_encrypt salt note)
  = Returns (Note.to_value note)
  /\ EncryptedNote.id (encryptNote AES_encrypt salt note) = Note.id note
  /\ EncryptedNote.createdAt (encryptNote AES_encrypt salt note) = Note.createdAt note
  /\ EncryptedNote.updatedAt (encryptNote AES_encrypt salt note) = Note.updatedAt note.
Proof.
  intros H. split; [|repeat split].
  destruct (noteData_read_back note) as (c & t & noteObject & E & P & T & C & G).
  unfold decryptNote, encryptNote.
  cbn [EncryptedNote.encryptedData EncryptedNote.id EncryptedNote.createdAt
       EncryptedNote.updatedAt].
  rewrite H. cbn [obind]. rewrite E. rewrite <- E. rewrite P. cbn [obind].
  rewrite T. cbn [obind]. rewrite C. cbn [obind]. rewrite G. reflexivity.
Qed.
End CodecProperties.

Lemma decrypt_encrypt_note_witness :
  decryptNote StandIn.decrypt (encryptNote StandIn.encrypt "8f3a61c2" Sample.note1)
  = Returns (Note.to_value Sample.note1)
  /\ decryptNote StandIn.decrypt (encryptNote StandIn.encrypt "d04b97e5" Sample.note1)
     = Returns (Note.to_value Sample.note1)
  /\ EncryptedNote.encryptedData (encryptNote StandIn.encrypt "8f3a61c2" Sample.note1)
     <> EncryptedNote.encryptedData (encryptNote StandIn.encrypt "d04b97e5" Sample.note1).
Proof.
  split; [|split].
  - apply (decrypt_encrypt_note StandIn.encrypt StandIn.decrypt "8f3a61c2" Sample.note1).
    vm_compute. reflexivity.
  - apply (decrypt_encrypt_note StandIn.encrypt StandIn.decrypt "d04b97e5" Sample.note1).
    vm_compute. reflexivity.
  - intros H. vm_compute in H. discriminate H.
Defined.

(** ** Export and import of a chain of blocks *)

Lemma block_text_read_back (gap indent : string) (block : Block) :
  element_text gap indent (to_value block)
  = element_text gap indent (block_read_back block).
Proof. reflexivity. Qed.

(** The export of a chain is the text of the chain read back: a [Date] is
    written as its ISO text. *)
Lemma export_text (chain : list Block) :
  JSON_stringify_indent2 (chain_to_value chain)
  = JSON_stringify_indent2 (chain_read_back chain).
Proof.
  unfold JSON_stringify_indent2, chain_to_value, chain_read_back.
  rewrite !serialize_array, !map_map. do 2 f_equal.
Qed.

Lemma pure_block_read_back (block : Block) :
  exact_numbers block -> pure_json (block_read_back block) = true.
Proof.
  intros [T N]. unfold exact in T, N. apply Z.leb_le in T, N.
  unfold block_read_back. rewrite pure_object. cbn [forallb snd].
  rewrite pure_object. cbn [forallb snd pure_json]. rewrite T, N. reflexivity.
Qed.

Lemma pure_chain_read_back (chain : list Block) :
  Forall exact_numbers chain -> pure_json (chain_read_back chain) = true.
Proof.
  intros E. unfold chain_read_back. rewrite pure_array.
  induction E as [|block chain B _ IH]; [reflexivity|].
  cbn [map forallb]. rewrite (pure_block_read_back block B), IH. reflexivity.
Qed.

Lemma parse_export (chain : list Block) :
  Forall exact_numbers chain ->
  JSON_parse (Service.exportBlockchain chain) = Returns (chain_read_back chain).
Proof.
  intros E. unfold Service.exportBlockchain. rewrite export_text.
  destruct (JSON_stringify_indent2 (chain_read_back chain)) as [text|] eqn:T.
  - apply (JSON_parse_stringify "  " _ text);
      [reflexivity|apply pure_chain_read_back, E|exact T].
  - unfold JSON_stringify_indent2, chain_read_back in T.
    rewrite serialize_array in T. discriminate T.
Qed.

Lemma read_back_differs (chain : list Block) :
  chain <> [] -> chain_read_back chain <> chain_to_value chain.
Proof.
  destruct chain as [|block chain]; [congruence|]. intros _ H.
  unfold chain_read_back, chain_to_value in H. cbn [map] in H. discriminate H.
Qed.

(** A candidate that is the export of a chain of blocks is installed when
    it validates and dropped when it does not: on such candidates the
    import is all or nothing. *)
Lemma import_exported_chain (candidate : list Block) (chain : value) :
  Forall exact_numbers candidate ->
  Runtime.importBlockchain (Service.exportBlockchain candidate) chain
  = (Returns (Service.validateChain candidate),
     if Service.validateChain candidate then chain_read_back candidate else chain).
Proof.
  intros E. unfold Runtime.importBlockchain.
  rewrite (parse_export candidate E), runtime_validate_read_back.
  destruct (Service.validateChain candidate); reflexivity.
Qed.

(** Importing the export of the current chain: accepted, still valid, and
    with the text of each date where the chain had the date. *)
Lemma import_of_export (chain : list Block) :
  Forall exact_numbers chain -> Service.validateChain chain = true ->
  Runtime.importBlockchain (Service.exportBlockchain chain) (chain_to_value chain)
  = (Returns true, chain_read_back chain)
  /\ Runtime.validateChain (chain_read_back chain) = Returns true
  /\ Runtime.exportBlockchain (chain_read_back chain)
     = Runtime.exportBlockchain (chain_to_value chain)
  /\ (chain <> [] -> chain_read_back chain <> chain_to_value chain).
Proof.
  intros E V. repeat split.
  - rewrite (import_exported_chain chain _ E), V. reflexivity.
  - rewrite runtime_validate_read_back, V. reflexivity.
  - unfold Runtime.exportBlockchain. symmetry. apply export_text.
  - apply read_back_differs.
Qed.

(** ** The other properties the design document lists *)

(** Digest determinism: a text verifies against its own digest. *)
Lemma verifyHash_generateHash (data : string) :
  verifyHash data (generateHash data) = true.
Proof. unfold verifyHash. apply String.eqb_refl. Qed.

Lemma appended_length payloads chain :
  appended payloads chain ->
  (payloads = [] /\ chain = [])
  \/ List.length chain = S (List.length payloads).
Proof.
  induction 1 as [|payloads chain fuel clock e block chain' A IH H].
  - left. split; reflexivity.
  - right. destruct (appended_shape _ _ A) as (L & HS & _).
    destruct (addNote_shape _ _ _ _ _ _ H L HS) as (_ & _ & _ & ->).
    rewrite !length_app. cbn [List.length].
    destruct IH as [[-> ->]|IH]; [reflexivity|].
    destruct chain as [|first rest]; [discriminate IH|]. lia.
Qed.

(** Validation positive: the statistics of a chain built by appending
    report it valid and count the genesis block and one block for each
    payload. *)
Lemma stats_after_appending payloads chain :
  appended payloads chain -> payloads <> [] ->
  Service.isValid (Service.getBlockchainStats chain) = true
  /\ Service.totalBlocks (Service.getBlockchainStats chain) = S (List.length payloads).
Proof.
  intros A N. split; [exact (appended_valid _ _ A)|].
  destruct (appended_length _ _ A) as [[E _]|E]; [contradiction|exact E].
Qed.

(** The scenario of the design document: two notes encrypted and appended
    to an empty chain give three blocks, a valid chain, and the block of
    the second note names the hash of the block of the first. *)
Example two_notes_scenario :
  Service.totalBlocks (Service.getBlockchainStats Sample.chain2) = 3%nat
  /\ Service.isValid (Service.getBlockchainStats Sample.chain2) = true
  /\ option_map previousHash (Service.getBlockByNoteId "n2" Sample.chain2)
     = option_map hash (Service.getBlockByNoteId "n1" Sample.chain2).
Proof. repeat split; vm_compute; reflexivity. Qed.

(** * The storage, the utilities and the screens; more on the chain *)

(** ** The stand-in cipher on the notes of the examples *)

Lemma notebook_cipher (pool : list Note.t) :
  forallb
    (fun note =>
       match StandIn.decrypt (StandIn.encrypt "8f3a61c2" (noteData note) ENCRYPTION_KEY)
                             ENCRYPTION_KEY,
             StandIn.decrypt (StandIn.encrypt "d04b97e5" (noteData note) ENCRYPTION_KEY)
                             ENCRYPTION_KEY with
       | Returns a, Returns b => String.eqb a (noteData note) && String.eqb b (noteData note)
       | _, _ => false
       end) pool = true ->
  cipher_inverts StandIn.encrypt StandIn.decrypt Notebook.salts pool.
Proof.
  intros F k note I. rewrite forallb_forall in F. specialize (F note I).
  cbv beta in F. unfold Notebook.salts.
  destruct (StandIn.decrypt (StandIn.encrypt "8f3a61c2" _ _) _) as [a| |] eqn:Ea;
    try discriminate F.
  destruct (StandIn.decrypt (StandIn.encrypt "d04b97e5" _ _) _) as [b| |] eqn:Eb;
    try discriminate F.
  apply andb_prop in F. destruct F as [A B].
  apply String.eqb_eq in A, B. subst a b. destruct (Nat.even k); assumption.
Qed.

Lemma notebook_stored : holds StandIn.decrypt Notebook.stored [Sample.note1; Sample.note2].
Proof.
  vm_compute. reflexivity.
Qed.

(** ** What [validateChain] checks *)

Lemma valid_iff (chain : list Block) :
  Service.validateChain chain = true <-> Forall sealed (tl chain) /\ linked chain.
Proof.
  destruct chain as [|first rest].
  - split; [intros _; split; [constructor|exact I]|reflexivity].
  - rewrite validateChain_links. cbn [tl]. split.
    + intros V. split; [|exact (valid_links_linked _ _ V)].
      apply Forall_forall. intros block B. exact (valid_links_sealed _ _ _ V B).
    + intros [S L]. exact (valid_links_complete _ _ S L).
Qed.

(** X1: [validateChain()] returns [true] exactly when every block after the
    first carries the digest of its own fields and the hash of the block
    before it; of the first block it reads the hash only. *)
Theorem validateChain_checks (chain : list Block) :
  Service.validateChain chain = true
  <-> forall i currentBlock previousBlock,
        nth_error chain (S i) = Some currentBlock ->
        nth_error chain i = Some previousBlock ->
        hash currentBlock = Service.calculateHash currentBlock
        /\ previousHash currentBlock = hash previousBlock.
Proof.
  rewrite valid_iff. split.
  - intros [S L] i currentBlock previousBlock C P. split.
    + destruct chain as [|first rest]; [destruct i; discriminate P|].
      cbn [tl nth_error] in S, C. rewrite Forall_forall in S.
      exact (S _ (nth_error_In _ _ C)).
    + exact (linked_nth _ L _ _ _ C P).
  - intros H. split.
    + destruct chain as [|first rest]; [constructor|]. cbn [tl].
      apply Forall_forall. intros block B.
      destruct (In_nth_error _ _ B) as (i & C).
      assert (P : exists previousBlock, nth_error (first :: rest) i = Some previousBlock).
      { destruct (nth_error (first :: rest) i) as [p|] eqn:E; [eauto|].
        apply nth_error_None in E.
        assert (i < List.length rest)%nat by (apply nth_error_Some; congruence).
        cbn [List.length] in E. lia. }
      destruct P as (p & P). exact (proj1 (H i block p C P)).
    + induction chain as [|first rest IH]; [exact I|].
      destruct rest as [|second rest]; [exact I|]. split.
      * exact (proj2 (H 0%nat second first eq_refl eq_refl)).
      * apply IH. intros i c p C P. exact (H (S i) c p C P).
Qed.

(** X2: [addNoteToBlockchain] only appends: the blocks of the chain stay
    where they are, the block returned is the last, after the genesis
    block when the chain was empty; a chain [validateChain] accepted is
    accepted with the new block; and [getBlockByNoteId] then finds a block
    of the note's id. *)
Theorem append_only fuel clock encryptedNote chain block chain' :
  Service.addNoteToBlockchain fuel clock encryptedNote chain = Some (block, chain') ->
  chain' = (match chain with
            | [] => [Service.createGenesisBlock clock]
            | _ => chain
            end ++ [block])%list
  /\ (forall i b, nth_error chain i = Some b -> nth_error chain' i = Some b)
  /\ nth_error chain' (List.length chain' - 1) = Some block
  /\ (Service.validateChain chain = true -> Service.validateChain chain' = true)
  /\ exists found,
       Service.getBlockByNoteId (EncryptedNote.id encryptedNote) chain' = Some found
       /\ EncryptedNote.id (data found) = EncryptedNote.id encryptedNote.
Proof.
  intros H.
  assert (Shape : chain' = (match chain with
                            | [] => [Service.createGenesisBlock clock]
                            | _ => chain
                            end ++ [block])%list).
  { destruct chain as [|first rest].
    - destruct (addNote_empty _ _ _ _ _ H) as [-> _]. reflexivity.
    - destruct (addNote_nonempty _ _ _ _ _ _ _ H) as (p & _ & -> & _). reflexivity. }
  destruct (addNote_block _ _ _ _ _ _ H) as (Sealed & Meets & Data & Id).
  split; [exact Shape|]. split; [|split; [|split]].
  - intros i b N. rewrite Shape. destruct chain as [|first rest]; [destruct i; discriminate N|].
    rewrite nth_error_app1; [exact N|]. apply nth_error_Some. congruence.
  - rewrite Shape, length_app. cbn [List.length].
    rewrite nth_error_app2 by lia.
    replace (_ - _)%nat with 0%nat by lia. reflexivity.
  - intros V.
    destruct (proj1 (valid_iff chain) V) as [S L].
    destruct (addNote_shape _ _ _ _ _ _ H L S) as (L' & S' & _).
    apply valid_iff. split; assumption.
  - unfold Service.getBlockByNoteId.
    destruct (List.find
                (fun b => String.eqb (EncryptedNote.id (data b))
                                     (EncryptedNote.id encryptedNote)) chain')
      as [found|] eqn:F.
    + exists found. split; [reflexivity|].
      apply find_some in F. apply String.eqb_eq. exact (proj2 F).
    + exfalso.
      assert (I : In block chain') by (rewrite Shape; apply in_app_iff; right; left; reflexivity).
      pose proof (find_none _ _ F block I) as N. cbv beta in N.
      rewrite Data, String.eqb_refl in N. discriminate N.
Qed.

Lemma append_only_witness :
  Sample.chain2 = (Sample.chain1 ++ [Sample.block2])%list
  /\ nth_error Sample.chain2 1 = Some Sample.block1
  /\ Service.validateChain Sample.chain2 = true.
Proof.
  destruct (append_only 64 Sample.clock2 Sample.payload2 Sample.chain1
              Sample.block2 Sample.chain2 ltac:(vm_compute; reflexivity))
    as (Shape & Kept & _ & Valid & _).
  split; [exact Shape|]. split; [apply Kept; reflexivity|].
  apply Valid. vm_compute. reflexivity.
Defined.

(** ** The first nonce that qualifies *)




(** ** The nonce as a number *)











(** X4: the statistics after [addNoteToBlockchain]: one block more, two on
    an empty chain, the new block last, and valid when the chain was. *)
Theorem stats_after_append fuel clock encryptedNote chain block chain' :
  Service.addNoteToBlockchain fuel clock encryptedNote chain = Some (block, chain') ->
  Service.totalBlocks (Service.getBlockchainStats chain')
  = (match chain with [] => 2 | _ => S (List.length chain) end)%nat
  /\ Service.lastBlock (Service.getBlockchainStats chain') = Some block
  /\ (Service.isValid (Service.getBlockchainStats chain) = true ->
      Service.isValid (Service.getBlockchainStats chain') = true)
  /\ Service.lastBlock (Service.getBlockchainStats []) = None
  /\ Service.isValid (Service.getBlockchainStats []) = true.
Proof.
  intros H. cbn [Service.getBlockchainStats Service.totalBlocks Service.lastBlock
                 Service.isValid].
  assert (Shape : chain' = (match chain with
                            | [] => [Service.createGenesisBlock clock]
                            | _ => chain
                            end ++ [block])%list).
  { destruct chain as [|first rest].
    - destruct (addNote_empty _ _ _ _ _ H) as [-> _]. reflexivity.
    - destruct (addNote_nonempty _ _ _ _ _ _ _ H) as (p & _ & -> & _). reflexivity. }
  split; [|split; [|split; [|split; reflexivity]]].
  - rewrite Shape, length_app. destruct chain; cbn [List.length]; lia.
  - rewrite Shape, length_app. cbn [List.length].
    rewrite nth_error_app2 by lia.
    replace (_ - _)%nat with 0%nat by lia. reflexivity.
  - intros V. destruct (proj1 (valid_iff chain) V) as [S L].
    destruct (addNote_shape _ _ _ _ _ _ H L S) as (L' & S' & _).
    apply valid_iff. split; assumption.
Qed.

Lemma stats_after_append_witness :
  Service.totalBlocks (Service.getBlockchainStats Sample.chain2) = 3%nat
  /\ Service.lastBlock (Service.getBlockchainStats Sample.chain2) = Some Sample.block2.
Proof.
  destruct (stats_after_append 64 Sample.clock2 Sample.payload2 Sample.chain1
              Sample.block2 Sample.chain2 ltac:(vm_compute; reflexivity))
    as (Total & Last & _).
  split; [exact Total|exact Last].
Defined.

(** ** The digest as text *)

Lemma hex_digit_is_hex (n : N) : (n < 16)%N -> is_hex (hex_digit n) = true.
Proof.
  intros L.
  assert (C : In n [0; 1; 2; 3; 4; 5; 6; 7; 8; 9; 10; 11; 12; 13; 14; 15]%N).
  { destruct n as [|p]; [left; reflexivity|].
    do 16 (destruct p as [p|p|]; try (exfalso; lia); cbn; try tauto). }
  cbn in C. repeat (destruct C as [<-|C]; [reflexivity|]). destruct C.
Qed.

Lemma hex_of_byte (x : N) (shift : N) (rest : list N) :
  exists a b,
    hex_of_bytes (N.land (N.shiftr x shift) 0xFF :: rest)
    = String a (String b (hex_of_bytes rest))
    /\ is_hex a = true /\ is_hex b = true.
Proof.
  cbn [hex_of_bytes]. eexists _, _. split; [reflexivity|].
  assert (B : (N.land (N.shiftr x shift) 255 < 256)%N).
  { change 255%N with (N.ones 8). rewrite N.land_ones. apply N.mod_lt. discriminate. }
  split; apply hex_digit_is_hex.
  - rewrite N.shiftr_div_pow2. change (2 ^ 4)%N with 16%N.
    apply N.Div0.div_lt_upper_bound. exact B.
  - change 15%N with (N.ones 4). rewrite N.land_ones. apply N.mod_lt. discriminate.
Qed.

Lemma hex_of_word (x : N) (rest : list N) :
  exists w,
    hex_of_bytes (SHA256.be_bytes 4 x ++ rest) = w ++ hex_of_bytes rest
    /\ String.length w = 8%nat /\ all_hex w = true.
Proof.
  unfold SHA256.be_bytes. cbn [seq rev app map].
  change (8 * N.of_nat 3)%N with 24%N. change (8 * N.of_nat 2)%N with 16%N.
  change (8 * N.of_nat 1)%N with 8%N. change (8 * N.of_nat 0)%N with 0%N.
  destruct (hex_of_byte x 24 (N.land (N.shiftr x 16) 255 :: N.land (N.shiftr x 8) 255
                                :: N.land (N.shiftr x 0) 255 :: rest))
    as (a1 & b1 & -> & A1 & B1).
  destruct (hex_of_byte x 16 (N.land (N.shiftr x 8) 255 :: N.land (N.shiftr x 0) 255 :: rest))
    as (a2 & b2 & -> & A2 & B2).
  destruct (hex_of_byte x 8 (N.land (N.shiftr x 0) 255 :: rest)) as (a3 & b3 & -> & A3 & B3).
  destruct (hex_of_byte x 0 rest) as (a4 & b4 & -> & A4 & B4).
  exists (String a1 (String b1 (String a2 (String b2 (String a3 (String b3
            (String a4 (String b4 EmptyString)))))))).
  split; [reflexivity|]. split; [reflexivity|].
  cbn [all_hex]. rewrite A1, B1, A2, B2, A3, B3, A4, B4. reflexivity.
Qed.

Lemma all_hex_append (a b : string) : all_hex (a ++ b) = all_hex a && all_hex b.
Proof.
  induction a as [|c a IH]; [reflexivity|].
  cbn [append all_hex]. rewrite IH, andb_assoc. reflexivity.
Qed.

Local Transparent generateHash.

(** X5: a digest is a text of 64 lower-case hexadecimal digits, whatever
    the data; [verifyHash] accepts that text and no other, so no text of
    another length, and none with a capital digit. *)
Theorem digest_text (data : string) :
  String.length (generateHash data) = 64%nat
  /\ all_hex (generateHash data) = true
  /\ (forall hash, verifyHash data hash = true <-> hash = generateHash data)
  /\ (forall hash, String.length hash <> 64%nat \/ all_hex hash = false ->
                   verifyHash data hash = false).
Proof.
  assert (Shape : String.length (generateHash data) = 64%nat
                  /\ all_hex (generateHash data) = true).
  { unfold generateHash, SHA256.digest. cbv zeta.
    set (r := fold_left SHA256.compress _ SHA256.init). clearbody r.
    cbn [flat_map].
    repeat match goal with
           | |- context [hex_of_bytes (SHA256.be_bytes 4 ?x ++ ?rest)] =>
               let w := fresh "w" in
               let E := fresh "E" in
               let L := fresh "L" in
               let A := fresh "A" in
               destruct (hex_of_word x rest) as (w & E & L & A); rewrite E; clear E
           end.
    cbn [hex_of_bytes]. rewrite !length_append, !all_hex_append.
    repeat match goal with H : String.length _ = 8%nat |- _ => rewrite H; clear H end.
    repeat match goal with H : all_hex _ = true |- _ => rewrite H; clear H end.
    split; reflexivity. }
  destruct Shape as [Len Hex]. split; [exact Len|]. split; [exact Hex|].
  assert (V : forall hash, verifyHash data hash = true <-> hash = generateHash data).
  { intros hash. unfold verifyHash. cbv zeta. rewrite String.eqb_eq. split; congruence. }
  split; [exact V|].
  intros hash D. destruct (verifyHash data hash) eqn:E; [|reflexivity].
  apply V in E. subst hash. destruct D as [D|D]; congruence.
Qed.

Local Opaque generateHash.

(** ** Candidates that validation neither throws on nor leaves *)

Lemma ToString_primitive (v : value) :
  primitive v = true -> exists s, Runtime.ToString v = Returns s.
Proof.
  destruct v; intros P; try discriminate P; cbn [Runtime.ToString]; eauto.
Qed.

Lemma calculateHash_flat (props : list (string * value)) :
  flat_block (VObj props) = true ->
  exists h, Runtime.calculateHash (VObj props) = Returns h.
Proof.
  cbn [flat_block]. intros F. apply andb_prop in F. destruct F as [F N].
  apply andb_prop in F. destruct F as [P T].
  unfold Runtime.calculateHash. cbn [Runtime.get obind].
  destruct (ToString_primitive _ P) as (p & ->).
  destruct (ToString_primitive _ T) as (t & ->).
  destruct (ToString_primitive _ N) as (n & ->).
  cbn [obind]. eauto.
Qed.

Lemma flat_nth (items : list value) (i : nat) :
  forallb flat_block items = true -> (i < List.length items)%nat ->
  exists props, nth_error items i = Some (VObj props) /\ flat_block (VObj props) = true.
Proof.
  intros F L. rewrite forallb_forall in F.
  destruct (nth_error items i) as [x|] eqn:E; [|apply nth_error_None in E; lia].
  pose proof (F x (nth_error_In _ _ E)) as X.
  destruct x; try discriminate X. eauto.
Qed.

Lemma validateFrom_flat (items : list value) :
  forallb flat_block items = true ->
  forall count i,
    (1 <= i)%nat -> (List.length items - i <= count)%nat ->
    exists answer, Runtime.validateFrom (VArr items) i count = Returns answer.
Proof.
  intros F. induction count as [|count IH]; intros i I C.
  - exists true. apply (runtime_validateFrom_stop _ _ _ (Z.of_nat (List.length items)));
      [reflexivity|lia].
  - destruct (Nat.lt_ge_cases i (List.length items)) as [L|G].
    + destruct (flat_nth items i F L) as (cur & Ec & Fc).
      destruct (flat_nth items (i - 1) F ltac:(lia)) as (prev & Ep & Fp).
      destruct (calculateHash_flat _ Fc) as (h & Eh).
      destruct (IH (S i) ltac:(lia) ltac:(lia)) as (answer & Ea).
      cbn [Runtime.validateFrom].
      change (Runtime.get (VArr items) "length")
        with (Returns (A:=value) (VNum (Z.of_nat (List.length items)))).
      cbn [obind Runtime.less_than].
      replace (Z.of_nat i <? Z.of_nat (List.length items)) with true
        by (symmetry; apply Z.ltb_lt; lia).
      cbn [Runtime.get_index]. rewrite Ec, Ep. cbn [obind Runtime.get].
      rewrite Eh. cbn [obind].
      destruct (negb (Runtime.strict_equal (Runtime.lookup "hash" cur) (VStr h)));
        [exists false; reflexivity|].
      destruct (negb (Runtime.strict_equal (Runtime.lookup "previousHash" cur)
                                           (Runtime.lookup "hash" prev)));
        [exists false; reflexivity|].
      exists answer. exact Ea.
    + exists true. apply (runtime_validateFrom_stop _ _ _ (Z.of_nat (List.length items)));
        [reflexivity|lia].
Qed.

(** X6: on a candidate that is the JSON of an array of objects whose
    [previousHash], [timestamp] and [nonce] are not objects,
    [validateChain] returns, and [importBlockchain] is all or nothing: it
    returns [true] with the candidate installed, or [false] with the chain
    as it was. *)
Theorem import_all_or_nothing (chainData : string) (items : list value) (chain : value) :
  JSON_parse chainData = Returns (VArr items) ->
  forallb flat_block items = true ->
  exists answer : bool,
    Runtime.validateChain (VArr items) = Returns answer
    /\ Runtime.importBlockchain chainData chain
       = (Returns answer, if answer then VArr items else chain).
Proof.
  intros P F.
  destruct (validateFrom_flat items F (Z.to_nat (Z.of_nat (List.length items))) 1
              ltac:(lia) ltac:(lia)) as (answer & V).
  assert (V' : Runtime.validateChain (VArr items) = Returns answer) by exact V.
  exists answer. split; [exact V'|].
  unfold Runtime.importBlockchain. rewrite P, V'. destruct answer; reflexivity.
Qed.

Lemma import_all_or_nothing_witness :
  exists answer : bool,
    Runtime.validateChain Notebook.candidate = Returns answer
    /\ Runtime.importBlockchain (template_of (JSON_stringify Notebook.candidate))
                                (chain_to_value Sample.chain2)
       = (Returns answer,
          if answer then Notebook.candidate else chain_to_value Sample.chain2).
Proof.
  apply (import_all_or_nothing (template_of (JSON_stringify Notebook.candidate))).
  - vm_compute. reflexivity.
  - vm_compute. reflexivity.
Defined.

Lemma validate_lengthless (candidate : value) :
  lengthless candidate = true -> Runtime.validateChain candidate = Returns true.
Proof.
  intros L.
  destruct candidate as [| |b|n|s|t|items|props]; try discriminate L;
    cbn [lengthless] in L.
  - reflexivity.
  - reflexivity.
  - apply Z.leb_le in L. unfold Runtime.validateChain.
    change (Runtime.get (VStr s) "length")
      with (Returns (A:=value) (VNum (Runtime.utf16_length s))).
    apply (runtime_validateFrom_stop _ _ _ (Runtime.utf16_length s)); [reflexivity|lia].
  - apply negb_true_iff in L.
    assert (U : Runtime.lookup "length" props = VUndefined).
    { unfold Runtime.lookup, Runtime.has_key in *.
      destruct (List.find (fun p => String.eqb (fst p) "length") props) as [[k v]|] eqn:E;
        [|reflexivity].
      apply find_some in E. destruct E as [I E].
      assert (X : existsb (fun p => String.eqb (fst p) "length") props = true).
      { apply existsb_exists. exists (k, v). split; assumption. }
      congruence. }
    unfold Runtime.validateChain. cbn [Runtime.get]. rewrite U.
    cbn [Runtime.validateFrom Runtime.get obind]. rewrite U. reflexivity.
Qed.

(** X7: a candidate that is the JSON of a boolean, of a number, of a text of
    at most one code unit or of an object without a [length] is accepted:
    [importBlockchain] returns [true] and what was the chain is then that
    value, which is no array. *)
Theorem import_accepts_lengthless (chainData : string) (candidate chain : value) :
  JSON_parse chainData = Returns candidate ->
  lengthless candidate = true ->
  Runtime.validateChain candidate = Returns true
  /\ Runtime.importBlockchain chainData chain = (Returns true, candidate)
  /\ forall items, candidate <> VArr items.
Proof.
  intros P L. pose proof (validate_lengthless candidate L) as V.
  split; [exact V|]. split.
  - unfold Runtime.importBlockchain. rewrite P, V. reflexivity.
  - intros items ->. discriminate L.
Qed.

Lemma import_accepts_lengthless_witness :
  Runtime.importBlockchain "{}" (chain_to_value Sample.chain2) = (Returns true, VObj [])
  /\ Runtime.importBlockchain "42" (chain_to_value Sample.chain2) = (Returns true, VNum 42).
Proof.
  split.
  - apply (import_accepts_lengthless "{}" (VObj []) (chain_to_value Sample.chain2));
      vm_compute; reflexivity.
  - apply (import_accepts_lengthless "42" (VNum 42) (chain_to_value Sample.chain2));
      vm_compute; reflexivity.
Defined.

(** ** What [decryptNote] throws, and when *)

Section DecryptProperties.
Variable AES_decrypt : string -> string -> outcome string.

(** X8: [decryptNote] throws when the cipher throws, when it gives the
    empty text, when its text is not JSON, and when the text is the JSON of
    [null]; whatever was thrown inside, it throws the one error of its
    [catch] clause.  A text that is the JSON of anything else is not
    checked: of a number, a boolean or a text it makes a note without
    title, content and tags. *)
Theorem decryptNote_throws (encryptedNote : EncryptedNote.t) :
  let decrypted :=
    AES_decrypt (EncryptedNote.encryptedData encryptedNote) ENCRYPTION_KEY in
  let note title content tags :=
    VObj [("id", VStr (EncryptedNote.id encryptedNote));
          ("title", title); ("content", content); ("tags", tags);
          ("createdAt", VDate (EncryptedNote.createdAt encryptedNote));
          ("updatedAt", VDate (EncryptedNote.updatedAt encryptedNote))] in
  (forall e, decrypted = Throws e ->
             decryptNote AES_decrypt encryptedNote = Throws CipherError)
  /\ (decrypted = Returns EmptyString ->
      decryptNote AES_decrypt encryptedNote = Throws CipherError)
  /\ (forall text e,
        decrypted = Returns text -> JSON_parse text = Throws e ->
        decryptNote AES_decrypt encryptedNote = Throws CipherError)
  /\ (forall text,
        decrypted = Returns text -> JSON_parse text = Returns VNull ->
        decryptNote AES_decrypt encryptedNote = Throws CipherError)
  /\ (forall e, decryptNote AES_decrypt encryptedNote = Throws e -> e = CipherError)
  /\ (forall text v,
        decrypted = Returns text -> text <> EmptyString ->
        JSON_parse text = Returns v -> scalar v = true ->
        decryptNote AES_decrypt encryptedNote
        = Returns (note VUndefined VUndefined VUndefined))
  /\ (forall text props,
        decrypted = Returns text -> text <> EmptyString ->
        JSON_parse text = Returns (VObj props) ->
        decryptNote AES_decrypt encryptedNote
        = Returns (note (Runtime.lookup "title" props) (Runtime.lookup "content" props)
                        (Runtime.lookup "tags" props))).
Proof.
  cbv zeta. unfold decryptNote.
  split; [|split; [|split; [|split; [|split; [|split]]]]].
  - intros e ->. reflexivity.
  - intros ->. reflexivity.
  - intros text e -> P. cbn [obind]. destruct text; [reflexivity|].
    rewrite P. reflexivity.
  - intros text -> P. cbn [obind]. destruct text; [reflexivity|].
    rewrite P. reflexivity.
  - intros e.
    destruct (obind _ _) as [v|e'|]; intros H;
      [discriminate H|injection H as <-; reflexivity|discriminate H].
  - intros text v -> T P S. cbn [obind]. destruct text; [contradiction|].
    rewrite P. cbn [obind].
    destruct v; try discriminate S; reflexivity.
  - intros text props -> T P. cbn [obind]. destruct text; [contradiction|].
    rewrite P. reflexivity.
Qed.
End DecryptProperties.

(** X9: the text [encryptNote] encrypts tells the title, the content and the
    tags apart: two notes with the same text have the same title, content
    and tags, a note without tags is not a note with none. *)
Theorem noteData_tells_apart (a b : Note.t) :
  noteData a = noteData b ->
  Note.title a = Note.title b /\ Note.content a = Note.content b
  /\ Note.tags a = Note.tags b.
Proof.
  intros E.
  destruct (noteData_read_back a) as (_ & _ & oa & _ & Pa & Ta & Ca & Ga).
  destruct (noteData_read_back b) as (_ & _ & ob & _ & Pb & Tb & Cb & Gb).
  rewrite E, Pb in Pa. injection Pa as <-.
  rewrite Tb in Ta. rewrite Cb in Ca. rewrite Gb in Ga.
  injection Ta as Ta. injection Ca as Ca. injection Ga as Ga.
  split; [congruence|]. split; [congruence|].
  unfold Note.tags_value in Ga.
  destruct (Note.tags a) as [la|], (Note.tags b) as [lb|]; try discriminate Ga;
    [|reflexivity].
  injection Ga as Ga. f_equal.
  revert lb Ga. induction la as [|x la IH]; intros [|y lb] Ga; try discriminate Ga;
    [reflexivity|].
  cbn [map] in Ga. injection Ga as -> Ga. f_equal. apply IH. exact Ga.
Qed.

Lemma noteData_tells_apart_witness :
  Note.title Sample.note1
  = Note.title (Note.Build "n9" "Groceries" "milk, eggs" 5 6 (Some ["home"]))
  /\ Note.content Sample.note1
     = Note.content (Note.Build "n9" "Groceries" "milk, eggs" 5 6 (Some ["home"]))
  /\ Note.tags Sample.note1
     = Note.tags (Note.Build "n9" "Groceries" "milk, eggs" 5 6 (Some ["home"])).
Proof.
  apply (noteData_tells_apart Sample.note1
           (Note.Build "n9" "Groceries" "milk, eggs" 5 6 (Some ["home"]))).
  vm_compute. reflexivity.
Defined.

Section ChainedNote.
Variable AES_encrypt : string -> string -> string -> string.
Variable AES_decrypt : string -> string -> outcome string.

(** X10: a note encrypted and added to the chain is in the block returned:
    decrypting the data of the block gives the note.  [getBlockByNoteId]
    of the note's id finds that block when no block had the id; when one
    had, it finds what it found before, the older block. *)
Theorem chained_note_is_recovered (salt : string) (note : Note.t)
    (fuel : nat) (clock : Clock) (chain : list Block) (block : Block) (chain' : list Block) :
  AES_decrypt (AES_encrypt salt (noteData note) ENCRYPTION_KEY) ENCRYPTION_KEY
  = Returns (noteData note) ->
  Service.addNoteToBlockchain fuel clock (encryptNote AES_encrypt salt note) chain
  = Some (block, chain') ->
  decryptNote AES_decrypt (data block) = Returns (Note.to_value note)
  /\ id block = Note.id note
  /\ ((forall b, In b chain -> EncryptedNote.id (data b) <> Note.id note) ->
      Note.id note <> "genesis" ->
      Service.getBlockByNoteId (Note.id note) chain' = Some block)
  /\ (forall older,
        Service.getBlockByNoteId (Note.id note) chain = Some older ->
        Service.getBlockByNoteId (Note.id note) chain' = Some older).
Proof.
  intros Cipher H.
  destruct (addNote_block _ _ _ _ _ _ H) as (_ & _ & Data & Id).
  assert (Shape : chain' = (match chain with
                            | [] => [Service.createGenesisBlock clock]
                            | _ => chain
                            end ++ [block])%list).
  { destruct chain as [|first rest].
    - destruct (addNote_empty _ _ _ _ _ H) as [-> _]. reflexivity.
    - destruct (addNote_nonempty _ _ _ _ _ _ _ H) as (p & _ & -> & _). reflexivity. }
  split; [|split; [exact Id|split]].
  - rewrite Data.
    destruct (noteData_read_back note) as (c & t & noteObject & E & P & T & C & G).
    unfold decryptNote, encryptNote.
    cbn [EncryptedNote.encryptedData EncryptedNote.id EncryptedNote.createdAt
         EncryptedNote.updatedAt].
    rewrite Cipher. cbn [obind]. rewrite E. rewrite <- E. rewrite P. cbn [obind].
    rewrite T. cbn [obind]. rewrite C. cbn [obind]. rewrite G. reflexivity.
  - intros Fresh NotGenesis. unfold Service.getBlockByNoteId. rewrite Shape.
    assert (Mine : String.eqb (EncryptedNote.id (data block)) (Note.id note) = true).
    { rewrite Data. apply String.eqb_refl. }
    assert (Others : forall l : list Block,
               (forall b, In b l -> EncryptedNote.id (data b) <> Note.id note) ->
               List.find (fun b => String.eqb (EncryptedNote.id (data b)) (Note.id note))
                         (l ++ [block]) = Some block).
    { induction l as [|b l IH]; intros F.
      - cbn [app List.find]. rewrite Mine. reflexivity.
      - cbn [app List.find].
        destruct (String.eqb (EncryptedNote.id (data b)) (Note.id note)) eqn:G.
        + apply String.eqb_eq in G. exfalso. exact (F b (or_introl eq_refl) G).
        + apply IH. intros x I. apply F. right. exact I. }
    apply Others. destruct chain as [|first rest]; [|exact Fresh].
    intros b [<-|[]]. cbn. congruence.
  - intros older O. unfold Service.getBlockByNoteId in *.
    destruct chain as [|first rest]; [discriminate O|]. rewrite Shape.
    revert O. generalize (first :: rest). intros l.
    induction l as [|b l IH]; intros O; [discriminate O|].
    cbn [app List.find] in *.
    destruct (String.eqb (EncryptedNote.id (data b)) (Note.id note)); [exact O|].
    apply IH. exact O.
Qed.
End ChainedNote.

Lemma chained_note_is_recovered_witness :
  decryptNote StandIn.decrypt (data Sample.block1) = Returns (Note.to_value Sample.note1)
  /\ Service.getBlockByNoteId "n1" Sample.chain1 = Some Sample.block1.
Proof.
  destruct (chained_note_is_recovered StandIn.encrypt StandIn.decrypt "8f3a61c2"
              Sample.note1 64 Sample.clock1 [] Sample.block1 Sample.chain1)
    as (D & _ & Found & _).
  - vm_compute. reflexivity.
  - vm_compute. reflexivity.
  - split; [exact D|]. apply Found; [intros b []|discriminate].
Defined.

(** ** The chain after an import *)

Lemma held_hash (h : held) :
  Runtime.get (value_of h) "hash" = Returns (VStr (hash (block_of h))).
Proof. destruct h; reflexivity. Qed.

Lemma held_previousHash (h : held) :
  Runtime.get (value_of h) "previousHash" = Returns (VStr (previousHash (block_of h))).
Proof. destruct h; reflexivity. Qed.

Lemma held_calculateHash (h : held) :
  Runtime.calculateHash (value_of h) = Returns (Service.calculateHash (block_of h)).
Proof. destruct h; reflexivity. Qed.

Lemma held_index (l : list held) (i : nat) :
  Runtime.get_index (VArr (map value_of l)) i
  = Returns (match nth_error l i with
             | Some h => value_of h
             | None => VUndefined
             end).
Proof.
  unfold Runtime.get_index. rewrite nth_error_map.
  destruct (nth_error l i); reflexivity.
Qed.

Lemma held_length (l : list held) :
  Runtime.get (VArr (map value_of l)) "length" = Returns (VNum (Z.of_nat (List.length l))).
Proof. cbn. rewrite length_map. reflexivity. Qed.

Lemma held_validateFrom (l : list held) :
  forall count i,
    (1 <= i)%nat -> (List.length l - i <= count)%nat ->
    Runtime.validateFrom (VArr (map value_of l)) i count
    = Returns (Service.validateFrom (map block_of l) i (List.length l - i)).
Proof.
  induction count as [|count IH]; intros i Hi Hc.
  - rewrite (runtime_validateFrom_stop _ i _ _ (held_length l)) by lia.
    replace (List.length l - i)%nat with 0%nat by lia. reflexivity.
  - destruct (Nat.le_gt_cases (List.length l) i) as [Ge|Lt].
    + rewrite (runtime_validateFrom_stop _ i _ _ (held_length l)) by lia.
      replace (List.length l - i)%nat with 0%nat by lia. reflexivity.
    + cbn [Runtime.validateFrom]. rewrite held_length.
      cbn [obind Runtime.less_than].
      replace (Z.of_nat i <? Z.of_nat (List.length l)) with true
        by (symmetry; apply Z.ltb_lt; lia).
      replace (List.length l - i)%nat with (S (List.length l - S i)) by lia.
      cbn [Service.validateFrom].
      rewrite !held_index. unfold Block in *. rewrite !nth_error_map.
      destruct (nth_error l i) as [cur|] eqn:C;
        [|apply nth_error_None in C; lia].
      destruct (nth_error l (i - 1)) as [prev|] eqn:P;
        [|apply nth_error_None in P; lia].
      cbn [obind option_map]. rewrite held_hash. cbn [obind].
      rewrite held_calculateHash. cbn [obind Runtime.strict_equal].
      destruct (String.eqb (hash (block_of cur)) (Service.calculateHash (block_of cur)));
        [|reflexivity].
      cbn [negb]. rewrite held_previousHash. cbn [obind].
      rewrite held_hash. cbn [obind Runtime.strict_equal].
      destruct (String.eqb (previousHash (block_of cur)) (hash (block_of prev)));
        [|reflexivity].
      cbn [negb]. apply IH; lia.
Qed.

(** [validateChain] reads the same from the blocks it built and from the
    blocks read back. *)
Lemma held_validateChain (l : list held) :
  Runtime.validateChain (VArr (map value_of l))
  = Returns (Service.validateChain (map block_of l)).
Proof.
  unfold Runtime.validateChain, Service.validateChain.
  rewrite held_length, Nat2Z.id, length_map.
  apply held_validateFrom; lia.
Qed.

Lemma find_read_back (noteId : string) (chain : list Block) :
  RuntimeChain.find noteId (map block_read_back chain)
  = Returns match Service.getBlockByNoteId noteId chain with
            | Some block => block_read_back block
            | None => VUndefined
            end.
Proof.
  unfold Service.getBlockByNoteId.
  induction chain as [|block chain IH]; [reflexivity|].
  cbn [map RuntimeChain.find List.find].
  change (Runtime.get (block_read_back block) "data")
    with (Returns (A:=value)
            (VObj [("id", VStr (EncryptedNote.id (data block)));
                   ("encryptedData", VStr (EncryptedNote.encryptedData (data block)));
                   ("createdAt", VStr (toISOString (EncryptedNote.createdAt (data block))));
                   ("updatedAt", VStr (toISOString (EncryptedNote.updatedAt (data block))))])).
  cbn [obind Runtime.get Runtime.lookup List.find fst snd String.eqb Ascii.eqb Bool.eqb
       Runtime.strict_equal].
  destruct (String.eqb (EncryptedNote.id (data block)) noteId); [reflexivity|exact IH].
Qed.

(** X11: on the chain an import of an export left, the service works as on
    the chain exported: [exportBlockchain] gives the text imported;
    [getBlockByNoteId] finds the block it found, read back;
    [addNoteToBlockchain] mines the block it would have mined and puts it
    last; and [validateChain] accepts the chain with the new block. *)
Theorem imported_chain_serves (chain : list Block) (fuel : nat) (clock : Clock)
    (encryptedNote : EncryptedNote.t) (block : Block) (chain' : list Block) :
  Forall exact_numbers chain -> Service.validateChain chain = true ->
  Service.addNoteToBlockchain fuel clock encryptedNote chain = Some (block, chain') ->
  let imported := chain_read_back chain in
  (forall before,
      Runtime.importBlockchain (Service.exportBlockchain chain) before
      = (Returns true, imported))
  /\ Runtime.exportBlockchain imported = Some (Service.exportBlockchain chain)
  /\ (forall noteId,
        RuntimeChain.getBlockByNoteId noteId imported
        = Returns match Service.getBlockByNoteId noteId chain with
                  | Some found => block_read_back found
                  | None => VNull
                  end)
  /\ exists after,
       RuntimeChain.addNoteToBlockchain fuel clock encryptedNote imported
       = Returns (Some (block, after))
       /\ Runtime.validateChain after = Returns true
       /\ Runtime.get_index after (List.length chain' - 1) = Returns (to_value block)
       /\ forall i b, nth_error chain i = Some b ->
                      Runtime.get_index after i = Returns (block_read_back b).
Proof.
  intros E V H imported. split; [|split; [|split]].
  - intros before. subst imported. rewrite (import_exported_chain chain before E), V.
    reflexivity.
  - subst imported. unfold Runtime.exportBlockchain, Service.exportBlockchain.
    rewrite export_text. unfold JSON_stringify_indent2, chain_read_back.
    rewrite serialize_array. reflexivity.
  - intros noteId. subst imported. unfold chain_read_back, RuntimeChain.getBlockByNoteId.
    rewrite find_read_back. cbn [obind].
    destruct (Service.getBlockByNoteId noteId chain); reflexivity.
  - destruct (proj1 (valid_iff chain) V) as [Se L].
    destruct (addNote_shape _ _ _ _ _ _ H L Se) as (L' & Se' & _ & Shape).
    assert (V' : Service.validateChain chain' = true) by (apply valid_iff; split; assumption).
    destruct chain as [|first rest].
    + destruct (addNote_empty _ _ _ _ _ H) as [-> M].
      exists (VArr (map value_of [Built (Service.createGenesisBlock clock); Built block])).
      split; [|split; [|split]].
      * subst imported. unfold RuntimeChain.addNoteToBlockchain, chain_read_back.
        cbn [map List.length Nat.eqb app]. cbn [Runtime.get_index nth_error Nat.sub obind].
        change (Runtime.get (to_value (Service.createGenesisBlock clock)) "hash")
          with (Returns (A:=value) (VStr (hash (Service.createGenesisBlock clock)))).
        cbn [obind Nat.add]. rewrite M. reflexivity.
      * rewrite held_validateChain. cbn [map block_of]. rewrite V'. reflexivity.
      * reflexivity.
      * intros i b N. destruct i; discriminate N.
    + destruct (addNote_nonempty _ _ _ _ _ _ _ H) as (p & P & -> & M).
      exists (VArr (map value_of (map Read (first :: rest) ++ [Built block]))).
      split; [|split; [|split]].
      * subst imported. unfold RuntimeChain.addNoteToBlockchain, chain_read_back.
        rewrite length_map. cbn [List.length Nat.eqb].
        rewrite length_map. cbn [List.length].
        replace (S (List.length rest) - 1)%nat with (List.length rest) by lia.
        unfold Runtime.get_index. rewrite nth_error_map. unfold Block in *. rewrite P.
        cbn [option_map obind].
        change (Runtime.get (block_read_back p) "hash")
          with (Returns (A:=value) (VStr (hash p))).
        cbn [obind]. rewrite M. rewrite map_app, map_map. reflexivity.
      * rewrite held_validateChain, map_app, map_map. cbn [map block_of].
        rewrite map_id. rewrite V'. reflexivity.
      * rewrite held_index, length_app. cbn [List.length].
        rewrite nth_error_app2 by (rewrite length_map; cbn [List.length]; lia).
        rewrite length_map. cbn [List.length].
        replace (_ - _)%nat with 0%nat by lia. reflexivity.
      * intros i b N. rewrite held_index.
        rewrite nth_error_app1
          by (rewrite length_map; apply nth_error_Some; unfold Block in *; congruence).
        rewrite nth_error_map. unfold Block in *. rewrite N. reflexivity.
Qed.

(** X12: a candidate that is the JSON of [null], of a boolean, of a number or
    of an object without [length] and [NaN] is what the field holds after
    [importBlockchain], and on it [addNoteToBlockchain] and
    [getBlockByNoteId] throw. *)
Theorem no_chain_after_import (chainData : string) (candidate chain : value)
    (fuel : nat) (clock : Clock) (encryptedNote : EncryptedNote.t) (noteId : string) :
  JSON_parse chainData = Returns candidate ->
  no_chain candidate = true ->
  snd (Runtime.importBlockchain chainData chain) = candidate
  /\ RuntimeChain.addNoteToBlockchain fuel clock encryptedNote candidate = Throws TypeError
  /\ RuntimeChain.getBlockByNoteId noteId candidate = Throws TypeError.
Proof.
  intros P N. split; [|split].
  - unfold Runtime.importBlockchain. rewrite P.
    destruct candidate as [| |b|n|s|t|items|props]; try discriminate N; try reflexivity.
    cbn [no_chain] in N. apply negb_true_iff, orb_false_iff in N. destruct N as [Len _].
    rewrite (validate_lengthless (VObj props)); [reflexivity|].
    cbn [lengthless]. rewrite Len. reflexivity.
  - destruct candidate as [| |b|n|s|t|items|props]; try discriminate N; try reflexivity.
    cbn [no_chain] in N. apply negb_true_iff in N.
    unfold RuntimeChain.addNoteToBlockchain. rewrite N. reflexivity.
  - destruct candidate; try discriminate N; reflexivity.
Qed.

Lemma imported_chain_serves_witness :
  Runtime.exportBlockchain (chain_read_back Sample.chain1)
  = Some (Service.exportBlockchain Sample.chain1)
  /\ RuntimeChain.getBlockByNoteId "n1" (chain_read_back Sample.chain1)
     = Returns (block_read_back Sample.block1)
  /\ exists after,
       RuntimeChain.addNoteToBlockchain 64 Sample.clock2 Sample.payload2
                                        (chain_read_back Sample.chain1)
       = Returns (Some (Sample.block2, after))
       /\ Runtime.validateChain after = Returns true.
Proof.
  assert (E : Forall exact_numbers Sample.chain1).
  { repeat constructor; vm_compute; intros H; discriminate H. }
  assert (V : Service.validateChain Sample.chain1 = true) by (vm_compute; reflexivity).
  assert (A : Service.addNoteToBlockchain 64 Sample.clock2 Sample.payload2 Sample.chain1
              = Some (Sample.block2, Sample.chain2)) by (vm_compute; reflexivity).
  destruct (imported_chain_serves Sample.chain1 64 Sample.clock2 Sample.payload2
              Sample.block2 Sample.chain2 E V A) as (_ & X & G & after & Add & Val & _).
  split; [exact X|]. split.
  - rewrite (G "n1"). vm_compute. reflexivity.
  - exists after. split; [exact Add|exact Val].
Defined.

Lemma no_chain_after_import_witness :
  snd (Runtime.importBlockchain "null" (chain_to_value Sample.chain1)) = VNull
  /\ RuntimeChain.addNoteToBlockchain 64 Sample.clock2 Sample.payload2 VNull
     = Throws TypeError
  /\ RuntimeChain.getBlockByNoteId "n1" VNull = Throws TypeError.
Proof.
  apply (no_chain_after_import "null" VNull (chain_to_value Sample.chain1)
           64 Sample.clock2 Sample.payload2 "n1").
  - vm_compute. reflexivity.
  - reflexivity.
Defined.

(** ** Dates as text, read back *)

Lemma digit_char (r : Z) :
  0 <= r < 10 ->
  Parse.is_digit (ascii_of_N (48 + Z.to_N r)) = true
  /\ Z.of_N (N_of_ascii (ascii_of_N (48 + Z.to_N r))) - 48 = r.
Proof.
  intros R.
  assert (C : In r [0; 1; 2; 3; 4; 5; 6; 7; 8; 9]) by (cbn; lia).
  cbn in C. repeat (destruct C as [<-|C]; [split; reflexivity|]). destruct C.
Qed.

Lemma fixed_digits_padded (k : nat) :
  forall j y acc rest,
    0 <= y ->
    fixed_digits (k + j) (padded k y ++ rest) acc
    = fixed_digits j rest (acc * 10 ^ Z.of_nat k + y mod 10 ^ Z.of_nat k).
Proof.
  induction k as [|k IH]; intros j y acc rest Y.
  - cbn [padded Nat.add append]. f_equal. change (10 ^ Z.of_nat 0) with 1.
    rewrite Z.mod_1_r. lia.
  - cbn [padded]. rewrite append_assoc. cbn [append].
    replace (S k + j)%nat with (k + S j)%nat by lia.
    rewrite IH by (apply Z.div_pos; lia).
    destruct (digit_char (y mod 10)) as [D V].
    { apply Z.mod_pos_bound. lia. }
    cbn [fixed_digits]. rewrite D, V. f_equal.
    rewrite Nat2Z.inj_succ, Z.pow_succ_r by lia.
    rewrite (Z.rem_mul_r y 10 (10 ^ Z.of_nat k)) by lia. lia.
Qed.

Lemma fixed_digits_read_back (k : nat) (y : Z) (rest : string) :
  0 <= y < 10 ^ Z.of_nat k ->
  fixed_digits k (padded k y ++ rest) 0 = Some (y, rest).
Proof.
  intros Y. replace k with (k + 0)%nat at 1 by lia.
  rewrite fixed_digits_padded by lia. cbn [fixed_digits].
  rewrite Z.mod_small by lia. reflexivity.
Qed.

Lemma padded_head (k : nat) :
  forall y, 0 <= y -> exists c t, padded (S k) y = String c t /\ Parse.is_digit c = true.
Proof.
  induction k as [|k IH]; intros y Y.
  - cbn [padded append]. eexists _, _. split; [reflexivity|].
    apply digit_char, Z.mod_pos_bound. lia.
  - destruct (IH (y / 10)) as (c & t & E & D); [apply Z.div_pos; lia|].
    change (padded (S (S k)) y)
      with (padded (S k) (y / 10) ++ String (ascii_of_N (48 + Z.to_N (y mod 10))) EmptyString).
    rewrite E. cbn [append]. eauto.
Qed.

Lemma year_digits_plain (c : ascii) (t : string) :
  Parse.is_digit c = true -> year_digits (String c t) = fixed_digits 4 (String c t) 0.
Proof.
  destruct c as [[] [] [] [] [] [] [] []]; try discriminate; reflexivity.
Qed.

Lemma is_leap_spec (y : Z) :
  is_leap y = true <-> y mod 4 = 0 /\ (y mod 100 <> 0 \/ y mod 400 = 0).
Proof.
  unfold is_leap.
  rewrite andb_true_iff, orb_true_iff, negb_true_iff, !Z.eqb_eq, Z.eqb_neq. tauto.
Qed.

Lemma is_leap_era (y k : Z) : is_leap (y + k * 400) = is_leap y.
Proof.
  unfold is_leap.
  replace (y + k * 400) with (y + (k * 100) * 4) at 1 by lia.
  replace (y + k * 400) with (y + (k * 4) * 100) at 1 by lia.
  rewrite !Z.mod_add by lia. reflexivity.
Qed.

Lemma days_from_civil_from_days (days : Z) :
  let '(y, m, d) := civil_from_days days in
  days_from_civil y m d = days /\ 1 <= m <= 12 /\ 1 <= d <= days_in_month y m
  /\ (days + 719468) / 146097 * 400 <= y <= (days + 719468) / 146097 * 400 + 400.
Proof.
  unfold civil_from_days, days_from_civil. cbv zeta.
  set (z := days + 719468).
  set (era := z / 146097).
  set (doe := z - era * 146097).
  assert (R : 0 <= doe < 146097).
  { subst doe era. Z.div_mod_to_equations. lia. }
  assert (Z0 : days = era * 146097 + doe - 719468) by (subst doe z; lia).
  clearbody doe era. clear z.
  set (yoe := (doe - doe / 1460 + doe / 36524 - doe / 146096) / 365).
  set (doy := doe - (365 * yoe + yoe / 4 - yoe / 100)).
  assert (Y : 0 <= yoe < 400 /\ 0 <= doy <= 365).
  { subst doy yoe. Z.div_mod_to_equations. lia. }
  assert (L : doy = 365 -> (yoe + 1) mod 4 = 0 /\ ((yoe + 1) mod 100 <> 0 \/ yoe + 1 = 400)).
  { subst doy yoe. Z.div_mod_to_equations. lia. }
  assert (D : doe = 365 * yoe + yoe / 4 - yoe / 100 + doy) by (subst doy; lia).
  clearbody doy yoe.
  set (mp := (5 * doy + 2) / 153).
  assert (M : 0 <= mp <= 11) by (subst mp; Z.div_mod_to_equations; lia).
  destruct (mp <? 10) eqn:E1.
  - apply Z.ltb_lt in E1.
    destruct (mp + 3 <=? 2) eqn:E2; [apply Z.leb_le in E2; lia|].
    destruct (2 <? mp + 3) eqn:E3; [|apply Z.ltb_ge in E3; lia].
    split; [subst mp; Z.div_mod_to_equations; lia|].
    split; [lia|]. split; [|lia].
    unfold days_in_month.
    destruct (mp + 3 =? 2) eqn:F; [apply Z.eqb_eq in F; lia|].
    destruct ((mp + 3 =? 4) || (mp + 3 =? 6) || (mp + 3 =? 9) || (mp + 3 =? 11)) eqn:G.
    + rewrite !orb_true_iff, !Z.eqb_eq in G. subst mp. Z.div_mod_to_equations. lia.
    + rewrite !orb_false_iff, !Z.eqb_neq in G. subst mp. Z.div_mod_to_equations. lia.
  - apply Z.ltb_ge in E1.
    destruct (mp - 9 <=? 2) eqn:E2; [|apply Z.leb_gt in E2; lia].
    destruct (2 <? mp - 9) eqn:E3; [apply Z.ltb_lt in E3; lia|].
    split; [subst mp; Z.div_mod_to_equations; lia|].
    split; [lia|]. split; [|lia].
    unfold days_in_month.
    replace (yoe + era * 400 + 1) with (yoe + 1 + era * 400) by lia.
    rewrite is_leap_era.
    destruct (mp - 9 =? 2) eqn:F.
    + apply Z.eqb_eq in F.
      destruct (is_leap (yoe + 1)) eqn:Leap.
      * subst mp. Z.div_mod_to_equations. lia.
      * assert (doy <> 365).
        { intros H. apply L in H. apply not_true_iff_false in Leap. apply Leap.
          apply is_leap_spec. destruct H as [H4 [H100|H400]]; [tauto|].
          rewrite H400. split; [reflexivity|right; reflexivity]. }
        subst mp. Z.div_mod_to_equations. lia.
    + apply Z.eqb_neq in F.
      replace ((mp - 9 =? 4) || (mp - 9 =? 6) || (mp - 9 =? 9) || (mp - 9 =? 11)) with false.
      * subst mp. Z.div_mod_to_equations. lia.
      * symmetry. rewrite !orb_false_iff, !Z.eqb_neq. lia.
Qed.

Lemma year_digits_read_back (y : Z) (rest : string) :
  -999999 <= y <= 999999 ->
  year_digits
    ((if (0 <=? y) && (y <=? 9999) then padded 4 y
      else if y <? 0 then "-" ++ padded 6 (- y) else "+" ++ padded 6 y) ++ rest)
  = Some (y, rest).
Proof.
  intros Y.
  destruct ((0 <=? y) && (y <=? 9999)) eqn:Small.
  - apply andb_prop in Small. destruct Small as [A B].
    apply Z.leb_le in A. apply Z.leb_le in B.
    destruct (padded_head 3 y A) as (c & t & E & D).
    rewrite E. cbn [append]. rewrite year_digits_plain by exact D.
    change (String c (t ++ rest)) with (String c t ++ rest). rewrite <- E.
    apply fixed_digits_read_back. change (10 ^ Z.of_nat 4) with 10000. lia.
  - destruct (y <? 0) eqn:Neg.
    + apply Z.ltb_lt in Neg. cbn [append year_digits].
      rewrite fixed_digits_read_back by (change (10 ^ Z.of_nat 6) with 1000000; lia).
      destruct (- y =? 0) eqn:Z0; [apply Z.eqb_eq in Z0; lia|].
      f_equal. f_equal. lia.
    + apply Z.ltb_ge in Neg. cbn [append year_digits].
      apply fixed_digits_read_back. change (10 ^ Z.of_nat 6) with 1000000. lia.
Qed.

Lemma Date_parse_toISOString (t : Z) :
  Z.abs t <= max_time -> Date_parse (toISOString t) = Some t.
Proof.
  intros T. unfold max_time in T. unfold toISOString.
  pose proof (days_from_civil_from_days (t / 86400000)) as C.
  destruct (civil_from_days (t / 86400000)) as [[y m] d].
  destruct C as (Days & M & D & Y).
  set (ms := t mod 86400000).
  assert (MS : 0 <= ms < 86400000) by (apply Z.mod_pos_bound; lia).
  assert (TD : t = t / 86400000 * 86400000 + ms).
  { subst ms. pose proof (Z.div_mod t 86400000). lia. }
  assert (YR : -999999 <= y <= 999999).
  { clear - T Y. Z.div_mod_to_equations. lia. }
  assert (D31 : d <= 31).
  { unfold days_in_month in D.
    destruct (m =? 2); [destruct (is_leap y)|destruct (_ || _)]; lia. }
  unfold Date_parse. cbv zeta.
  rewrite year_digits_read_back by exact YR. cbn [append].
  rewrite (fixed_digits_read_back 2 m) by (change (10 ^ Z.of_nat 2) with 100; lia).
  rewrite (fixed_digits_read_back 2 d) by (change (10 ^ Z.of_nat 2) with 100; lia).
  rewrite (fixed_digits_read_back 2 (ms / 3600000))
    by (change (10 ^ Z.of_nat 2) with 100; Z.div_mod_to_equations; lia).
  rewrite (fixed_digits_read_back 2 (ms / 60000 mod 60))
    by (change (10 ^ Z.of_nat 2) with 100; Z.div_mod_to_equations; lia).
  rewrite (fixed_digits_read_back 2 (ms / 1000 mod 60))
    by (change (10 ^ Z.of_nat 2) with 100; Z.div_mod_to_equations; lia).
  rewrite (fixed_digits_read_back 3 (ms mod 1000))
    by (change (10 ^ Z.of_nat 3) with 1000; Z.div_mod_to_equations; lia).
  rewrite Days.
  assert (Sum : t / 86400000 * 86400000 + ms / 3600000 * 3600000
                + ms / 60000 mod 60 * 60000 + ms / 1000 mod 60 * 1000 + ms mod 1000 = t).
  { rewrite TD at 2. clear - MS. Z.div_mod_to_equations. lia. }
  rewrite Sum.
  replace ((1 <=? m) && (m <=? 12) && (1 <=? d) && (d <=? days_in_month y m)
           && (ms / 3600000 <=? 23) && (ms / 60000 mod 60 <=? 59)
           && (ms / 1000 mod 60 <=? 59) && (Z.abs t <=? max_time)) with true; [reflexivity|].
  symmetry. rewrite !andb_true_iff, !Z.leb_le. unfold max_time.
  repeat split; try lia; clear - MS; Z.div_mod_to_equations; lia.
Qed.

(** ** The notes in the storage *)

Lemma wrap_head (gap close_ indent : string) (c : ascii) (t : string) (parts : list string) :
  exists r, wrap gap (String c t) close_ indent parts = String c r.
Proof.
  unfold wrap. destruct parts; [|destruct gap]; cbn [append]; eauto.
Qed.

Lemma encrypted_text (l : list EncryptedNote.t) :
  JSON_stringify (VArr (map EncryptedNote.to_value l))
  = JSON_stringify (VArr (map encrypted_read_back l)).
Proof.
  unfold JSON_stringify. rewrite !serialize_array, !map_map. reflexivity.
Qed.

Lemma pure_encrypted_read_back (l : list EncryptedNote.t) :
  pure_json (VArr (map encrypted_read_back l)) = true.
Proof.
  rewrite pure_array. induction l as [|e l IH]; [reflexivity|].
  cbn [map forallb]. rewrite IH. reflexivity.
Qed.

(** What [saveNotes] stores is a text that is not empty, and [JSON.parse]
    reads it back to the encrypted notes with their dates as texts. *)
Lemma stored_text_read_back (l : list EncryptedNote.t) :
  exists c t,
    template_of (JSON_stringify (VArr (map EncryptedNote.to_value l))) = String c t
    /\ JSON_parse (String c t) = Returns (VArr (map encrypted_read_back l)).
Proof.
  rewrite encrypted_text.
  destruct (JSON_stringify (VArr (map encrypted_read_back l))) as [text|] eqn:T.
  - pose proof T as T'. unfold JSON_stringify in T'. rewrite serialize_array in T'.
    destruct (wrap_head EmptyString "]" EmptyString "["%char EmptyString
                (map (element_text EmptyString (EmptyString ++ EmptyString))
                     (map encrypted_read_back l))) as (r & W).
    rewrite W in T'. injection T' as <-.
    exists "["%char, r. split; [reflexivity|].
    apply (JSON_parse_stringify EmptyString);
      [reflexivity|apply pure_encrypted_read_back|exact T].
  - unfold JSON_stringify in T. rewrite serialize_array in T. discriminate T.
Qed.

Section StorageProperties.
Variable AES_encrypt : string -> string -> string -> string.
Variable AES_decrypt : string -> string -> outcome string.


Lemma encryptNote_typed (salt : string) (note : Note.t) :
  RuntimeNotes.encryptNote AES_encrypt salt (Note.to_value note)
  = Returns (EncryptedNote.to_value (encryptNote AES_encrypt salt note)).
Proof. reflexivity. Qed.

Lemma encrypt_all (salts : Salts) (notes : list Note.t) :
  forall k,
    StorageService.map_from
      (fun k note => RuntimeNotes.encryptNote AES_encrypt (salts k) note)
      k (map Note.to_value notes)
    = Returns (map EncryptedNote.to_value (encrypted_from AES_encrypt salts k notes)).
Proof.
  induction notes as [|note notes IH]; intros k; [reflexivity|].
  cbn [map StorageService.map_from encrypted_from].
  rewrite encryptNote_typed. cbn [obind]. rewrite IH. reflexivity.
Qed.

Lemma revive_read_back (salt : string) (note : Note.t) :
  AES_decrypt (AES_encrypt salt (noteData note) ENCRYPTION_KEY) ENCRYPTION_KEY
  = Returns (noteData note) ->
  dated note ->
  StorageService.revive AES_decrypt
    (encrypted_read_back (encryptNote AES_encrypt salt note))
  = Returns (Note.to_value note).
Proof.
  intros H [C U].
  destruct (noteData_read_back note) as (c & t & noteObject & E & P & T & Co & G).
  unfold StorageService.revive, RuntimeNotes.decryptNote, encrypted_read_back, encryptNote.
  cbn [EncryptedNote.encryptedData EncryptedNote.id EncryptedNote.createdAt
       EncryptedNote.updatedAt].
  change (Runtime.get (VObj ?p) ?k) with (Returns (Runtime.lookup k p)).
  cbn [Runtime.lookup List.find fst snd String.eqb Ascii.eqb Bool.eqb obind].
  rewrite H. cbn [obind]. rewrite E. rewrite <- E. rewrite P. cbn [obind].
  rewrite T. cbn [obind]. rewrite Co. cbn [obind]. rewrite G.
  cbn [obind RuntimeNotes.rethrow].
  cbn [Runtime.lookup List.find fst snd String.eqb Ascii.eqb Bool.eqb].
  unfold RuntimeNotes.new_Date.
  rewrite !Date_parse_toISOString by assumption. cbn [obind].
  reflexivity.
Qed.

Lemma revive_all (salts : Salts) (notes : list Note.t) :
  forall k j,
    (forall i note, nth_error notes i = Some note ->
       AES_decrypt (AES_encrypt (salts (k + i)%nat) (noteData note) ENCRYPTION_KEY)
                   ENCRYPTION_KEY
       = Returns (noteData note)) ->
    Forall dated notes ->
    StorageService.map_from (fun _ => StorageService.revive AES_decrypt) j
      (map encrypted_read_back (encrypted_from AES_encrypt salts k notes))
    = Returns (map Note.to_value notes).
Proof.
  induction notes as [|note notes IH]; intros k j R D; [reflexivity|].
  cbn [map StorageService.map_from encrypted_from].
  rewrite revive_read_back.
  - cbn [obind]. rewrite IH; [reflexivity| |exact (Forall_inv_tail D)].
    intros i n E. replace (S k + i)%nat with (k + S i)%nat by lia.
    apply R. exact E.
  - specialize (R 0%nat note eq_refl). rewrite Nat.add_0_r in R. exact R.
  - exact (Forall_inv D).
Qed.

Lemma setItem_same (key item : string) (storage : Storage) :
  getItem key (setItem key item storage) = Some item.
Proof. unfold getItem, setItem. rewrite String.eqb_refl. reflexivity. Qed.

Lemma setItem_other (key item k : string) (storage : Storage) :
  k <> key -> getItem k (setItem key item storage) = getItem k storage.
Proof.
  intros N. unfold getItem, setItem.
  destruct (String.eqb k key) eqn:E; [apply String.eqb_eq in E; contradiction|reflexivity].
Qed.

(** What [saveNotes] does with notes of the declared type. *)
Lemma saveNotes_typed (salts : Salts) (notes : list Note.t) (storage : Storage) :
  StorageService.saveNotes AES_encrypt salts (map Note.to_value notes) storage
  = (Fulfilled tt,
     setItem StorageService.ENCRYPTED_NOTES_KEY
       (template_of (JSON_stringify
          (VArr (map EncryptedNote.to_value (encrypted_from AES_encrypt salts 0 notes)))))
       storage).
Proof. unfold StorageService.saveNotes. rewrite encrypt_all. reflexivity. Qed.

(** What [loadNotes] reads from what [saveNotes] stored. *)
Lemma load_stored (salts : Salts) (notes : list Note.t) (storage : Storage) :
  recovers AES_encrypt AES_decrypt salts notes ->
  Forall dated notes ->
  holds AES_decrypt
    (setItem StorageService.ENCRYPTED_NOTES_KEY
       (template_of (JSON_stringify
          (VArr (map EncryptedNote.to_value (encrypted_from AES_encrypt salts 0 notes)))))
       storage)
    notes.
Proof.
  intros R D. unfold holds, StorageService.loadNotes. rewrite setItem_same.
  destruct (stored_text_read_back (encrypted_from AES_encrypt salts 0 notes))
    as (c & t & E & P).
  rewrite E, P. cbn [obind].
  rewrite (revive_all salts notes 0 0); [reflexivity| |exact D].
  intros i note N. apply R. exact N.
Qed.
End StorageProperties.

(** ** Notes by their id *)

Lemma same_id_note (noteId : value) (note : Note.t) :
  StorageService.same_id (Returns noteId) (Note.to_value note)
  = Returns (Runtime.strict_equal (VStr (Note.id note)) noteId).
Proof. reflexivity. Qed.

Lemma findIndex_none (noteId : string) (notes : list Note.t) :
  (forall n, In n notes -> Note.id n <> noteId) ->
  forall k,
    StorageService.findIndex (StorageService.same_id (Returns (VStr noteId))) k
                             (map Note.to_value notes)
    = Returns None.
Proof.
  induction notes as [|n notes IH]; intros D k; [reflexivity|].
  cbn [map StorageService.findIndex]. rewrite same_id_note. cbn [obind Runtime.strict_equal].
  destruct (String.eqb (Note.id n) noteId) eqn:E.
  - apply String.eqb_eq in E. exfalso. exact (D n (or_introl eq_refl) E).
  - apply IH. intros m I. apply D. right. exact I.
Qed.

Lemma findIndex_first (noteId : string) (before : list Note.t) (n : Note.t)
    (after : list Note.t) :
  (forall m, In m before -> Note.id m <> noteId) -> Note.id n = noteId ->
  forall k,
    StorageService.findIndex (StorageService.same_id (Returns (VStr noteId))) k
                             (map Note.to_value (before ++ n :: after))
    = Returns (Some (k + List.length before)%nat).
Proof.
  induction before as [|m before IH]; intros D E k.
  - cbn [app map StorageService.findIndex]. rewrite same_id_note.
    cbn [obind Runtime.strict_equal]. rewrite E, String.eqb_refl.
    cbn [List.length]. rewrite Nat.add_0_r. reflexivity.
  - cbn [app map StorageService.findIndex]. rewrite same_id_note.
    cbn [obind Runtime.strict_equal].
    destruct (String.eqb (Note.id m) noteId) eqn:F.
    + apply String.eqb_eq in F. exfalso. exact (D m (or_introl eq_refl) F).
    + rewrite IH; [|intros x I; apply D; right; exact I|exact E].
      cbn [List.length]. do 2 f_equal. lia.
Qed.

Lemma find_none (noteId : string) (notes : list Note.t) :
  (forall n, In n notes -> Note.id n <> noteId) ->
  StorageService.find (StorageService.same_id (Returns (VStr noteId)))
                      (map Note.to_value notes)
  = Returns VUndefined.
Proof.
  induction notes as [|n notes IH]; intros D; [reflexivity|].
  cbn [map StorageService.find]. rewrite same_id_note. cbn [obind Runtime.strict_equal].
  destruct (String.eqb (Note.id n) noteId) eqn:E.
  - apply String.eqb_eq in E. exfalso. exact (D n (or_introl eq_refl) E).
  - apply IH. intros m I. apply D. right. exact I.
Qed.

Lemma find_first (noteId : string) (before : list Note.t) (n : Note.t)
    (after : list Note.t) :
  (forall m, In m before -> Note.id m <> noteId) -> Note.id n = noteId ->
  StorageService.find (StorageService.same_id (Returns (VStr noteId)))
                      (map Note.to_value (before ++ n :: after))
  = Returns (Note.to_value n).
Proof.
  induction before as [|m before IH]; intros D E.
  - cbn [app map StorageService.find]. rewrite same_id_note.
    cbn [obind Runtime.strict_equal]. rewrite E, String.eqb_refl. reflexivity.
  - cbn [app map StorageService.find]. rewrite same_id_note.
    cbn [obind Runtime.strict_equal].
    destruct (String.eqb (Note.id m) noteId) eqn:F.
    + apply String.eqb_eq in F. exfalso. exact (D m (or_introl eq_refl) F).
    + apply IH; [intros x I; apply D; right; exact I|exact E].
Qed.

Lemma filter_others (noteId : string) (notes : list Note.t) :
  StorageService.filter
    (fun note => obind (StorageService.same_id (Returns (VStr noteId)) note)
                       (fun same => Returns (negb same)))
    (map Note.to_value notes)
  = Returns (map Note.to_value
               (List.filter (fun n => negb (String.eqb (Note.id n) noteId)) notes)).
Proof.
  induction notes as [|n notes IH]; [reflexivity|].
  cbn [map StorageService.filter List.filter]. rewrite same_id_note.
  cbn [obind Runtime.strict_equal]. rewrite IH. cbn [obind].
  destruct (String.eqb (Note.id n) noteId); reflexivity.
Qed.

Lemma assign_at (x : value) (before : list Note.t) (old : Note.t) (after : list Note.t) :
  StorageService.assign (List.length before) x
                        (map Note.to_value (before ++ old :: after))
  = (map Note.to_value before ++ x :: map Note.to_value after)%list.
Proof.
  induction before as [|m before IH]; [reflexivity|].
  cbn [app map List.length StorageService.assign]. rewrite IH. reflexivity.
Qed.

(** A decomposition of the notes at the first of an id. *)
Lemma first_of_id (noteId : string) (notes : list Note.t) :
  (forall n, In n notes -> Note.id n <> noteId)
  \/ exists before n after,
       notes = (before ++ n :: after)%list /\ Note.id n = noteId
       /\ forall m, In m before -> Note.id m <> noteId.
Proof.
  induction notes as [|n notes IH]; [left; intros n []|].
  destruct (String.eqb (Note.id n) noteId) eqn:E.
  - apply String.eqb_eq in E. right. exists [], n, notes.
    split; [reflexivity|]. split; [exact E|intros m []].
  - apply String.eqb_neq in E. destruct IH as [D|(before & x & after & -> & X & D)].
    + left. intros m [<-|I]; [exact E|exact (D m I)].
    + right. exists (n :: before), x, after.
      split; [reflexivity|]. split; [exact X|].
      intros m [<-|I]; [exact E|exact (D m I)].
Qed.

Section StorageOperations.
Variable AES_encrypt : string -> string -> string -> string.
Variable AES_decrypt : string -> string -> outcome string.

(** [getNote] on the notes the storage holds: the first note of the id,
    or [null]. *)
Lemma getNote_held (storage : Storage) (notes : list Note.t) (noteId : string) :
  holds AES_decrypt storage notes ->
  StorageService.getNote AES_decrypt noteId storage
  = Fulfilled match List.find (fun n => String.eqb (Note.id n) noteId) notes with
              | Some n => Note.to_value n
              | None => VNull
              end.
Proof.
  intros H. unfold holds in H. unfold StorageService.getNote. rewrite H.
  destruct (first_of_id noteId notes) as [D|(before & n & after & -> & E & D)].
  - rewrite (find_none _ _ D).
    destruct (List.find _ notes) as [n|] eqn:F; [|reflexivity].
    apply find_some in F. destruct F as [I F]. apply String.eqb_eq in F.
    exfalso. exact (D n I F).
  - rewrite (find_first _ _ _ _ D E).
    assert (F : List.find (fun n => String.eqb (Note.id n) noteId) (before ++ n :: after)
                = Some n).
    { clear - D E. induction before as [|m before IH].
      - cbn [app List.find]. rewrite E, String.eqb_refl. reflexivity.
      - cbn [app List.find].
        destruct (String.eqb (Note.id m) noteId) eqn:F.
        + apply String.eqb_eq in F. exfalso. exact (D m (or_introl eq_refl) F).
        + apply IH. intros x I. apply D. right. exact I. }
    rewrite F. reflexivity.
Qed.

Lemma recovers_of_all (salts : Salts) (notes pool : list Note.t) :
  cipher_inverts AES_encrypt AES_decrypt salts pool ->
  (forall n, In n notes -> In n pool) ->
  recovers AES_encrypt AES_decrypt salts notes.
Proof.
  intros C S k n N. apply C. apply S. exact (nth_error_In _ _ N).
Qed.

(** [saveNote] of a note whose id no note has: the note is added last. *)
Lemma saveNote_new (salts : Salts) (note : Note.t) (notes : list Note.t)
    (storage : Storage) :
  holds AES_decrypt storage notes ->
  (forall n, In n notes -> Note.id n <> Note.id note) ->
  recovers AES_encrypt AES_decrypt salts (notes ++ [note]) ->
  Forall dated (notes ++ [note]) ->
  exists storage',
    StorageService.saveNote AES_encrypt AES_decrypt salts (Note.to_value note) storage
    = (Fulfilled tt, storage')
    /\ holds AES_decrypt storage' (notes ++ [note]).
Proof.
  intros H D R F. unfold StorageService.saveNote. unfold holds in H. rewrite H.
  change (Runtime.get (Note.to_value note) "id") with (Returns (VStr (Note.id note))).
  rewrite (findIndex_none _ _ D).
  pose proof (saveNotes_typed AES_encrypt salts (notes ++ [note]) storage) as S.
  rewrite map_app in S. cbn [map] in S. rewrite S.
  eexists. split; [reflexivity|]. apply load_stored; assumption.
Qed.

(** [saveNote] of a note whose id a note has: the note takes the place of
    the first of them. *)
Lemma saveNote_existing (salts : Salts) (note : Note.t)
    (before : list Note.t) (old : Note.t) (after : list Note.t) (storage : Storage) :
  holds AES_decrypt storage (before ++ old :: after) ->
  Note.id old = Note.id note ->
  (forall n, In n before -> Note.id n <> Note.id note) ->
  recovers AES_encrypt AES_decrypt salts (before ++ note :: after) ->
  Forall dated (before ++ note :: after) ->
  exists storage',
    StorageService.saveNote AES_encrypt AES_decrypt salts (Note.to_value note) storage
    = (Fulfilled tt, storage')
    /\ holds AES_decrypt storage' (before ++ note :: after).
Proof.
  intros H E D R F. unfold StorageService.saveNote. unfold holds in H. rewrite H.
  change (Runtime.get (Note.to_value note) "id") with (Returns (VStr (Note.id note))).
  rewrite (findIndex_first _ _ _ _ D E). cbn [Nat.add]. rewrite assign_at.
  pose proof (saveNotes_typed AES_encrypt salts (before ++ note :: after) storage) as S.
  rewrite map_app in S. cbn [map] in S. rewrite S.
  eexists. split; [reflexivity|]. apply load_stored; assumption.
Qed.

Lemma find_other_app (test : Note.t -> bool) (before after : list Note.t) (x : Note.t) :
  test x = false ->
  List.find test (before ++ x :: after) = List.find test (before ++ after).
Proof.
  intros X. induction before as [|m before IH].
  - cbn [app List.find]. rewrite X. reflexivity.
  - cbn [app List.find]. destruct (test m); [reflexivity|exact IH].
Qed.

(** X13: the notes saved are the notes loaded: after [saveNotes(notes)],
    [loadNotes()] is fulfilled with notes of the same id, title, content,
    tags and dates, the dates [Date] objects again, in the same order; no
    other item of the storage is touched. *)
Theorem saved_notes_are_loaded (salts : Salts) (notes : list Note.t) (storage : Storage) :
  recovers AES_encrypt AES_decrypt salts notes ->
  Forall dated notes ->
  exists storage',
    StorageService.saveNotes AES_encrypt salts (map Note.to_value notes) storage
    = (Fulfilled tt, storage')
    /\ StorageService.loadNotes AES_decrypt storage' = Fulfilled (map Note.to_value notes)
    /\ forall key, key <> StorageService.ENCRYPTED_NOTES_KEY ->
                   getItem key storage' = getItem key storage.
Proof.
  intros R D. rewrite saveNotes_typed. eexists. split; [reflexivity|]. split.
  - apply (load_stored AES_encrypt AES_decrypt salts notes storage R D).
  - intros key N. apply setItem_other. exact N.
Qed.

(** X14: [saveNote(note)] on a storage that holds notes: the note takes the
    place of the first note of its id, or comes last when no note has its
    id; [getNote] of its id then gives the note, and of any other id what
    it gave before. *)
Theorem saveNote_then_getNote (salts : Salts) (note : Note.t) (notes : list Note.t)
    (storage : Storage) :
  holds AES_decrypt storage notes ->
  cipher_inverts AES_encrypt AES_decrypt salts (note :: notes) ->
  Forall dated (note :: notes) ->
  exists storage' notes',
    StorageService.saveNote AES_encrypt AES_decrypt salts (Note.to_value note) storage
    = (Fulfilled tt, storage')
    /\ holds AES_decrypt storage' notes'
    /\ ((forall n, In n notes -> Note.id n <> Note.id note) ->
        notes' = (notes ++ [note])%list)
    /\ (forall before old after,
          notes = (before ++ old :: after)%list -> Note.id old = Note.id note ->
          (forall n, In n before -> Note.id n <> Note.id note) ->
          notes' = (before ++ note :: after)%list)
    /\ StorageService.getNote AES_decrypt (Note.id note) storage'
       = Fulfilled (Note.to_value note)
    /\ forall other, other <> Note.id note ->
         StorageService.getNote AES_decrypt other storage'
         = StorageService.getNote AES_decrypt other storage.
Proof.
  intros H C F.
  destruct (first_of_id (Note.id note) notes) as [D|(before & old & after & -> & E & D)].
  - destruct (saveNote_new salts note notes storage H D) as (storage' & S & L).
    { apply (recovers_of_all salts _ (note :: notes) C).
      intros n I. apply in_app_iff in I. destruct I as [I|[<-|[]]]; [right|left]; auto. }
    { apply Forall_app. split; [exact (Forall_inv_tail F)|].
      constructor; [exact (Forall_inv F)|constructor]. }
    exists storage', (notes ++ [note])%list.
    split; [exact S|]. split; [exact L|]. split; [reflexivity|]. split; [|split].
    + intros before old after -> E _. exfalso.
      apply (D old); [apply in_app_iff; right; left; reflexivity|exact E].
    + rewrite (getNote_held _ _ _ L).
      replace (notes ++ [note])%list with (notes ++ note :: [])%list by reflexivity.
      assert (X : List.find (fun n => String.eqb (Note.id n) (Note.id note)) (notes ++ [note])
                  = Some note).
      { clear - D. induction notes as [|m notes IH].
        - cbn [app List.find]. rewrite String.eqb_refl. reflexivity.
        - cbn [app List.find]. destruct (String.eqb (Note.id m) (Note.id note)) eqn:G.
          + apply String.eqb_eq in G. exfalso. exact (D m (or_introl eq_refl) G).
          + apply IH. intros x I. apply D. right. exact I. }
      rewrite X. reflexivity.
    + intros other O. rewrite (getNote_held _ _ _ L), (getNote_held _ _ _ H).
      rewrite find_other_app, List.app_nil_r; [reflexivity|].
      apply String.eqb_neq. congruence.
  - destruct (saveNote_existing salts note before old after storage H E D)
      as (storage' & S & L).
    { apply (recovers_of_all salts _ (note :: before ++ old :: after) C).
      intros n I. apply in_app_iff in I. destruct I as [I|[<-|I]].
      - right. apply in_app_iff. left. exact I.
      - left. reflexivity.
      - right. apply in_app_iff. right. right. exact I. }
    { pose proof (Forall_inv F) as Fn. apply Forall_inv_tail in F.
      apply Forall_app in F. destruct F as [Fb Fa]. apply Forall_app. split; [exact Fb|].
      constructor; [exact Fn|exact (Forall_inv_tail Fa)]. }
    exists storage', (before ++ note :: after)%list.
    split; [exact S|]. split; [exact L|]. split; [|split; [|split]].
    + intros N. exfalso.
      apply (N old); [apply in_app_iff; right; left; reflexivity|exact E].
    + intros before' old' after' Eq E' D'.
      assert (B : before' = before).
      { clear - Eq E E' D D'. revert before' Eq D'.
        induction before as [|m before IH]; intros [|m' before'] Eq D'.
        - reflexivity.
        - cbn [app] in Eq. injection Eq as <- _. exfalso.
          exact (D' old (or_introl eq_refl) E).
        - cbn [app] in Eq. injection Eq as -> _. exfalso.
          exact (D old' (or_introl eq_refl) E').
        - cbn [app] in Eq. injection Eq as <- Eq. f_equal.
          apply IH; [intros x I; apply D; right; exact I|exact Eq|].
          intros x I. apply D'. right. exact I. }
      subst before'. apply app_inv_head in Eq. injection Eq as _ <-. reflexivity.
    + rewrite (getNote_held _ _ _ L).
      assert (X : List.find (fun n => String.eqb (Note.id n) (Note.id note))
                            (before ++ note :: after) = Some note).
      { clear - D. induction before as [|m before IH].
        - cbn [app List.find]. rewrite String.eqb_refl. reflexivity.
        - cbn [app List.find]. destruct (String.eqb (Note.id m) (Note.id note)) eqn:G.
          + apply String.eqb_eq in G. exfalso. exact (D m (or_introl eq_refl) G).
          + apply IH. intros x I. apply D. right. exact I. }
      rewrite X. reflexivity.
    + intros other O. rewrite (getNote_held _ _ _ L), (getNote_held _ _ _ H).
      rewrite !find_other_app; [reflexivity| |].
      * rewrite E. apply String.eqb_neq. congruence.
      * apply String.eqb_neq. congruence.
Qed.

Lemma find_filter_other (noteId other : string) (notes : list Note.t) :
  other <> noteId ->
  List.find (fun n => String.eqb (Note.id n) other)
            (List.filter (fun n => negb (String.eqb (Note.id n) noteId)) notes)
  = List.find (fun n => String.eqb (Note.id n) other) notes.
Proof.
  intros O. induction notes as [|n notes IH]; [reflexivity|].
  cbn [List.filter List.find].
  destruct (String.eqb (Note.id n) noteId) eqn:E; cbn [negb].
  - apply String.eqb_eq in E.
    assert (X : String.eqb (Note.id n) other = false) by (apply String.eqb_neq; congruence).
    rewrite X. exact IH.
  - cbn [List.find]. destruct (String.eqb (Note.id n) other); [reflexivity|exact IH].
Qed.

(** X15: [deleteNote(noteId)] on a storage that holds notes leaves the notes
    of the other ids, in their order: every note of the id is gone,
    [getNote] of the id gives [null], and of any other id what it gave
    before. *)
Theorem deleteNote_removes (salts : Salts) (noteId : string) (notes : list Note.t)
    (storage : Storage) :
  holds AES_decrypt storage notes ->
  cipher_inverts AES_encrypt AES_decrypt salts notes ->
  Forall dated notes ->
  exists storage',
    StorageService.deleteNote AES_encrypt AES_decrypt salts noteId storage
    = (Fulfilled tt, storage')
    /\ holds AES_decrypt storage'
         (List.filter (fun n => negb (String.eqb (Note.id n) noteId)) notes)
    /\ StorageService.getNote AES_decrypt noteId storage' = Fulfilled VNull
    /\ forall other, other <> noteId ->
         StorageService.getNote AES_decrypt other storage'
         = StorageService.getNote AES_decrypt other storage.
Proof.
  intros H C F. pose proof H as H'. unfold holds in H'.
  unfold StorageService.deleteNote. rewrite H', filter_others, saveNotes_typed.
  eexists. split; [reflexivity|].
  assert (L : holds AES_decrypt
                (setItem StorageService.ENCRYPTED_NOTES_KEY
                   (template_of (JSON_stringify
                      (VArr (map EncryptedNote.to_value
                               (encrypted_from AES_encrypt salts 0
                                  (List.filter
                                     (fun n => negb (String.eqb (Note.id n) noteId))
                                     notes))))))
                   storage)
                (List.filter (fun n => negb (String.eqb (Note.id n) noteId)) notes)).
  { apply load_stored.
    - apply (recovers_of_all salts _ notes C). intros n I.
      apply filter_In in I. exact (proj1 I).
    - apply Forall_forall. intros n I. apply filter_In in I.
      rewrite Forall_forall in F. exact (F n (proj1 I)). }
  split; [exact L|]. split.
  - rewrite (getNote_held _ _ _ L).
    destruct (List.find _ _) as [n|] eqn:X; [|reflexivity].
    apply find_some in X. destruct X as [I X]. apply filter_In in I.
    destruct I as [_ I]. rewrite X in I. discriminate I.
  - intros other O. rewrite (getNote_held _ _ _ L), (getNote_held _ _ _ H).
    rewrite find_filter_other by exact O. reflexivity.
Qed.

(** X16: a storage [loadNotes] cannot read is left as it is: [getNote],
    [saveNote] and [deleteNote] are rejected, each with its own message,
    and nothing is written.  [loadNotes] cannot read an item that is not
    JSON, or not the JSON of an array, or that has an element the cipher
    fails on after elements that decrypt. *)
Theorem unreadable_storage (salts : Salts) (storage : Storage) (c : ascii) (text : string) :
  getItem StorageService.ENCRYPTED_NOTES_KEY storage = Some (String c text) ->
  ((exists e, JSON_parse (String c text) = Throws e)
   \/ (exists v, JSON_parse (String c text) = Returns v
                 /\ forall items, v <> VArr items)
   \/ (exists before bad after e,
         JSON_parse (String c text) = Returns (VArr (before ++ bad :: after))
         /\ Forall (fun x => exists note,
                      StorageService.revive AES_decrypt x = Returns note) before
         /\ StorageService.revive AES_decrypt bad = Throws e)) ->
  StorageService.loadNotes AES_decrypt storage
  = Rejected "Failed to load notes from storage"
  /\ (forall noteId,
        StorageService.getNote AES_decrypt noteId storage = Rejected "Failed to get note")
  /\ (forall note,
        StorageService.saveNote AES_encrypt AES_decrypt salts note storage
        = (Rejected "Failed to save note", storage))
  /\ (forall noteId,
        StorageService.deleteNote AES_encrypt AES_decrypt salts noteId storage
        = (Rejected "Failed to delete note", storage)).
Proof.
  intros G Why.
  assert (L : StorageService.loadNotes AES_decrypt storage
              = Rejected "Failed to load notes from storage").
  { unfold StorageService.loadNotes. rewrite G.
    destruct Why as [(e & ->)|[(v & -> & N)|(before & bad & after & e & -> & B & X)]].
    - reflexivity.
    - cbn [obind]. destruct v; try reflexivity. exfalso. exact (N items eq_refl).
    - cbn [obind].
      assert (M : forall k, exists e',
                    StorageService.map_from (fun _ => StorageService.revive AES_decrypt) k
                                            (before ++ bad :: after) = Throws e').
      { clear - B X. induction B as [|x before (note & R) _ IH]; intros k.
        - cbn [app StorageService.map_from]. rewrite X. exists e. reflexivity.
        - cbn [app StorageService.map_from]. rewrite R. cbn [obind].
          destruct (IH (S k)) as (e' & ->). exists e'. reflexivity. }
      destruct (M 0%nat) as (e' & ->). reflexivity. }
  split; [exact L|]. split; [|split].
  - intros noteId. unfold StorageService.getNote. rewrite L. reflexivity.
  - intros note. unfold StorageService.saveNote. rewrite L. reflexivity.
  - intros noteId. unfold StorageService.deleteNote. rewrite L. reflexivity.
Qed.

(** X17: a storage without the item, or with an empty item, or after
    [clearAllNotes], holds no notes: [loadNotes] is fulfilled with an
    empty array and [getNote] with [null].  [clearAllNotes] leaves the
    other items alone, and a note saved after it is the only note held. *)
Theorem empty_storage (storage : Storage) :
  (getItem StorageService.ENCRYPTED_NOTES_KEY storage = None
   \/ getItem StorageService.ENCRYPTED_NOTES_KEY storage = Some EmptyString ->
   holds AES_decrypt storage []
   /\ forall noteId, StorageService.getNote AES_decrypt noteId storage = Fulfilled VNull)
  /\ fst (StorageService.clearAllNotes storage) = Fulfilled tt
  /\ holds AES_decrypt (snd (StorageService.clearAllNotes storage)) []
  /\ (forall key, key <> StorageService.ENCRYPTED_NOTES_KEY ->
                  getItem key (snd (StorageService.clearAllNotes storage))
                  = getItem key storage)
  /\ (forall salts note,
        dated note -> cipher_inverts AES_encrypt AES_decrypt salts [note] ->
        exists storage',
          StorageService.saveNote AES_encrypt AES_decrypt salts (Note.to_value note)
                                  (snd (StorageService.clearAllNotes storage))
          = (Fulfilled tt, storage')
          /\ holds AES_decrypt storage' [note]).
Proof.
  assert (C : holds AES_decrypt (snd (StorageService.clearAllNotes storage)) []).
  { unfold holds, StorageService.loadNotes, StorageService.clearAllNotes, getItem, removeItem.
    cbn [snd]. rewrite String.eqb_refl. reflexivity. }
  split; [|split; [|split; [|split]]].
  - intros E.
    assert (H : holds AES_decrypt storage []).
    { unfold holds, StorageService.loadNotes. destruct E as [-> | ->]; reflexivity. }
    split; [exact H|]. intros noteId. rewrite (getNote_held _ _ _ H). reflexivity.
  - reflexivity.
  - exact C.
  - intros key N. unfold StorageService.clearAllNotes, getItem, removeItem. cbn [snd].
    destruct (String.eqb key StorageService.ENCRYPTED_NOTES_KEY) eqn:E; [|reflexivity].
    apply String.eqb_eq in E. contradiction.
  - intros salts note D I.
    apply (saveNote_new salts note [] _ C).
    + intros n [].
    + apply (recovers_of_all salts _ [note] I). intros n H. exact H.
    + constructor; [exact D|constructor].
Qed.
End StorageOperations.

Lemma saved_notes_are_loaded_witness :
  exists storage',
    StorageService.saveNotes StandIn.encrypt Notebook.salts
      (map Note.to_value [Sample.note1; Notebook.note3]) Notebook.empty
    = (Fulfilled tt, storage')
    /\ StorageService.loadNotes StandIn.decrypt storage'
       = Fulfilled (map Note.to_value [Sample.note1; Notebook.note3])
    /\ forall key, key <> StorageService.ENCRYPTED_NOTES_KEY ->
                   getItem key storage' = getItem key Notebook.empty.
Proof.
  apply (saved_notes_are_loaded StandIn.encrypt StandIn.decrypt).
  - apply (recovers_of_all StandIn.encrypt StandIn.decrypt _ _ [Sample.note1; Notebook.note3]);
      [apply notebook_cipher; vm_compute; reflexivity|auto].
  - repeat constructor; vm_compute; discriminate.
Defined.

Lemma saveNote_then_getNote_witness :
  exists storage' notes',
    StorageService.saveNote StandIn.encrypt StandIn.decrypt Notebook.salts
      (Note.to_value Notebook.note1') Notebook.stored
    = (Fulfilled tt, storage')
    /\ holds StandIn.decrypt storage' notes'
    /\ notes' = [Notebook.note1'; Sample.note2]
    /\ StorageService.getNote StandIn.decrypt "n1" storage'
       = Fulfilled (Note.to_value Notebook.note1')
    /\ StorageService.getNote StandIn.decrypt "n2" storage'
       = Fulfilled (Note.to_value Sample.note2).
Proof.
  destruct (saveNote_then_getNote StandIn.encrypt StandIn.decrypt Notebook.salts
              Notebook.note1' [Sample.note1; Sample.note2] Notebook.stored)
    as (storage' & notes' & S & H & _ & Old & G & Others).
  - exact notebook_stored.
  - apply notebook_cipher. vm_compute. reflexivity.
  - repeat constructor; vm_compute; discriminate.
  - exists storage', notes'. split; [exact S|]. split; [exact H|]. split; [|split].
    + apply (Old [] Sample.note1 [Sample.note2]); [reflexivity|reflexivity|intros n []].
    + exact G.
    + rewrite (Others "n2") by discriminate. vm_compute. reflexivity.
Defined.

Lemma deleteNote_removes_witness :
  exists storage',
    StorageService.deleteNote StandIn.encrypt StandIn.decrypt Notebook.salts "n1"
      Notebook.stored
    = (Fulfilled tt, storage')
    /\ holds StandIn.decrypt storage' [Sample.note2]
    /\ StorageService.getNote StandIn.decrypt "n1" storage' = Fulfilled VNull.
Proof.
  destruct (deleteNote_removes StandIn.encrypt StandIn.decrypt Notebook.salts "n1"
              [Sample.note1; Sample.note2] Notebook.stored)
    as (storage' & S & H & G & _).
  - exact notebook_stored.
  - apply notebook_cipher. vm_compute. reflexivity.
  - repeat constructor; vm_compute; discriminate.
  - exists storage'. split; [exact S|]. split; [exact H|exact G].
Defined.

Lemma unreadable_storage_witness :
  StorageService.loadNotes StandIn.decrypt Notebook.spoiled
  = Rejected "Failed to load notes from storage"
  /\ StorageService.saveNote StandIn.encrypt StandIn.decrypt Notebook.salts
       (Note.to_value Sample.note1) Notebook.spoiled
     = (Rejected "Failed to save note", Notebook.spoiled).
Proof.
  destruct (unreadable_storage StandIn.encrypt StandIn.decrypt Notebook.salts
              Notebook.spoiled "o" "ops") as (L & _ & S & _).
  - reflexivity.
  - left. exists SyntaxError. vm_compute. reflexivity.
  - split; [exact L|apply S].
Defined.

(** ** White space at the ends of a text *)

Lemma trimStart_prefix (s : string) :
  Str.trimStart s = match Str.space_prefix s with
                    | Some r => Str.trimStart r
                    | None => s
                    end.
Proof.
  destruct s as [|a [|b [|c r]]]; cbn [Str.trimStart Str.space_prefix];
    try destruct (Str.is_space1 a); try destruct (Str.is_space2 a b);
    try destruct (Str.is_space3 a b c); reflexivity.
Qed.

Lemma all_space_prefix (s : string) :
  Str.all_space s = match s with
                    | EmptyString => true
                    | _ => match Str.space_prefix s with
                           | Some r => Str.all_space r
                           | None => false
                           end
                    end.
Proof.
  destruct s as [|a [|b [|c r]]]; cbn [Str.all_space Str.space_prefix];
    try destruct (Str.is_space1 a); try destruct (Str.is_space2 a b);
    try destruct (Str.is_space3 a b c); reflexivity.
Qed.

Lemma space_prefix_shorter (s r : string) :
  Str.space_prefix s = Some r -> (String.length r < String.length s)%nat.
Proof.
  destruct s as [|a [|b [|c t]]]; cbn [Str.space_prefix];
    try destruct (Str.is_space1 a); try destruct (Str.is_space2 a b);
    try destruct (Str.is_space3 a b c);
    intros E; inversion E; subst; cbn [String.length]; lia.
Qed.

Lemma space_prefix_append (s r w : string) :
  Str.space_prefix s = Some r -> Str.space_prefix (s ++ w) = Some (r ++ w).
Proof.
  destruct s as [|a [|b [|c t]]]; cbn [Str.space_prefix append];
    try destruct (Str.is_space1 a); try destruct (Str.is_space2 a b);
    try destruct (Str.is_space3 a b c);
    intros E; inversion E; subst; reflexivity.
Qed.

Lemma space_prefix_cut (s r : string) :
  Str.space_prefix s = Some r -> exists v, s = v ++ r /\ Str.all_space v = true.
Proof.
  destruct s as [|a [|b [|c t]]]; cbn [Str.space_prefix];
    try destruct (Str.is_space1 a) eqn:A; try destruct (Str.is_space2 a b) eqn:B;
    try destruct (Str.is_space3 a b c) eqn:C;
    intros E; inversion E; subst.
  all: first
    [ exists (String a EmptyString); split; [reflexivity|];
      cbn [Str.all_space]; rewrite A; reflexivity
    | exists (String a (String b EmptyString)); split; [reflexivity|];
      cbn [Str.all_space]; rewrite A, B; reflexivity
    | exists (String a (String b (String c EmptyString))); split; [reflexivity|];
      cbn [Str.all_space]; rewrite A, B, C; reflexivity ].
Qed.

(** Induction on the length of a text. *)
Lemma length_induction (P : string -> Prop) :
  (forall s, (forall r, (String.length r < String.length s)%nat -> P r) -> P s) ->
  forall s, P s.
Proof.
  intros H s.
  assert (G : forall n r, (String.length r < n)%nat -> P r).
  { induction n as [|n IH]; intros r L; [lia|].
    apply H. intros q Q. apply IH. lia. }
  apply (G (S (String.length s))). lia.
Qed.

Lemma all_space_append (s w : string) :
  Str.all_space s = true -> Str.all_space w = true -> Str.all_space (s ++ w) = true.
Proof.
  revert w. induction s as [s IH] using length_induction. intros w S W.
  destruct s as [|a t]; [exact W|].
  rewrite all_space_prefix in S.
  destruct (Str.space_prefix (String a t)) as [r|] eqn:E; [|discriminate S].
  change (String a t ++ w) with (String a (t ++ w)).
  rewrite all_space_prefix.
  change (String a (t ++ w)) with (String a t ++ w).
  rewrite (space_prefix_append _ _ w E).
  apply IH; [apply (space_prefix_shorter _ _ E)|exact S|exact W].
Qed.

Lemma trimStart_all_space (s : string) :
  Str.all_space s = true -> Str.trimStart s = EmptyString.
Proof.
  induction s as [s IH] using length_induction. intros S.
  destruct s as [|a t]; [reflexivity|].
  rewrite all_space_prefix in S. rewrite trimStart_prefix.
  destruct (Str.space_prefix (String a t)) as [r|] eqn:E; [|discriminate S].
  apply IH; [apply (space_prefix_shorter _ _ E)|exact S].
Qed.

(** What [trimStart] leaves does not begin with white space, and is the
    end of the text. *)
Lemma trimStart_spec (s : string) :
  Str.space_prefix (Str.trimStart s) = None
  /\ exists w, s = w ++ Str.trimStart s /\ Str.all_space w = true.
Proof.
  induction s as [s IH] using length_induction.
  rewrite trimStart_prefix.
  destruct (Str.space_prefix s) as [r|] eqn:E.
  - destruct (IH r (space_prefix_shorter _ _ E)) as (N & w & R & W).
    split; [exact N|].
    assert (X : exists v, s = v ++ r /\ Str.all_space v = true).
    { apply space_prefix_cut. exact E. }
    destruct X as (v & -> & V).
    exists (v ++ w). split.
    + rewrite append_assoc. f_equal. exact R.
    + apply all_space_append; assumption.
  - split; [exact E|]. exists EmptyString. split; reflexivity.
Qed.

(** What [trimEnd] leaves is the beginning of the text. *)
Lemma trimEnd_spec (s : string) :
  exists w, s = Str.trimEnd s ++ w /\ Str.all_space w = true.
Proof.
  induction s as [|a s IH].
  - exists EmptyString. split; reflexivity.
  - cbn [Str.trimEnd]. destruct (Str.all_space (String a s)) eqn:E.
    + exists (String a s). split; [reflexivity|exact E].
    + destruct IH as (w & S & W). exists w. split; [|exact W].
      cbn [append]. f_equal. exact S.
Qed.

Lemma all_space_trimEnd (s : string) :
  Str.all_space (Str.trimEnd s) = true -> Str.all_space s = true.
Proof.
  intros T. destruct (trimEnd_spec s) as (w & S & W).
  rewrite S. apply all_space_append; assumption.
Qed.

Lemma trimEnd_cons (a : ascii) (s : string) :
  Str.trimEnd (String a s)
  = if Str.all_space (String a s) then EmptyString else String a (Str.trimEnd s).
Proof. reflexivity. Qed.

(** No end of what [trimEnd] leaves is white space only. *)
Lemma trimEnd_fixed (s : string) : Str.trimEnd (Str.trimEnd s) = Str.trimEnd s.
Proof.
  induction s as [|a s IH]; [reflexivity|].
  rewrite trimEnd_cons. destruct (Str.all_space (String a s)) eqn:E; [reflexivity|].
  rewrite trimEnd_cons.
  destruct (Str.all_space (String a (Str.trimEnd s))) eqn:F.
  - assert (G : Str.all_space (Str.trimEnd (String a s)) = true).
    { rewrite trimEnd_cons, E. exact F. }
    apply all_space_trimEnd in G. congruence.
  - rewrite IH. reflexivity.
Qed.

Lemma trimStart_fixed (s : string) :
  Str.space_prefix s = None -> Str.trimStart s = s.
Proof. intros N. rewrite trimStart_prefix, N. reflexivity. Qed.

(** A beginning of a text that does not begin with white space does not
    either. *)
Lemma space_prefix_beginning (u w : string) :
  Str.space_prefix (u ++ w) = None -> Str.space_prefix u = None.
Proof.
  intros N. destruct (Str.space_prefix u) as [r|] eqn:E; [|reflexivity].
  rewrite (space_prefix_append _ _ w E) in N. discriminate N.
Qed.

Lemma trim_start_fixed (s : string) : Str.trimStart (Str.trim s) = Str.trim s.
Proof.
  unfold Str.trim. apply trimStart_fixed.
  destruct (trimStart_spec s) as (N & _).
  destruct (trimEnd_spec (Str.trimStart s)) as (w & S & _).
  rewrite S in N. exact (space_prefix_beginning _ _ N).
Qed.

(** [trim] leaves a text that [trim] leaves as it is. *)
Lemma trim_trim (s : string) : Str.trim (Str.trim s) = Str.trim s.
Proof.
  unfold Str.trim at 1. rewrite trim_start_fixed. apply trimEnd_fixed.
Qed.

Lemma trim_space (t : string) : Str.trim (String " " t) = Str.trim t.
Proof. reflexivity. Qed.

(** ** Splitting and joining *)

Lemma without_append (c : ascii) (a b : string) :
  without c (a ++ b) = without c a && without c b.
Proof.
  induction a as [|x a IH]; [reflexivity|].
  cbn [append without]. rewrite IH, andb_assoc. reflexivity.
Qed.

Lemma split_pieces (c : ascii) (s : string) :
  Forall (fun piece => without c piece = true) (Str.split c s).
Proof.
  induction s as [|a s IH]; [repeat constructor|].
  cbn [Str.split]. destruct (Ascii.eqb a c) eqn:E.
  - constructor; [reflexivity|exact IH].
  - destruct (Str.split c s) as [|piece pieces]; [repeat constructor; cbn; rewrite E; reflexivity|].
    inversion IH as [|? ? P Ps]; subst.
    constructor; [cbn [without]; rewrite E, P; reflexivity|exact Ps].
Qed.

Lemma split_whole (c : ascii) (s : string) :
  without c s = true -> Str.split c s = [s].
Proof.
  induction s as [|a s IH]; [reflexivity|].
  cbn [without Str.split]. intros W. apply andb_prop in W. destruct W as [A W].
  apply negb_true_iff in A. rewrite A, (IH W). reflexivity.
Qed.

Lemma split_at (c : ascii) (s r : string) :
  without c s = true -> Str.split c (s ++ String c r) = s :: Str.split c r.
Proof.
  induction s as [|a s IH]; intros W.
  - cbn [append Str.split]. rewrite Ascii.eqb_refl. reflexivity.
  - cbn [without] in W. apply andb_prop in W. destruct W as [A W].
    apply negb_true_iff in A. cbn [append Str.split]. rewrite A, (IH W). reflexivity.
Qed.

Lemma trim_without (c : ascii) (s : string) :
  without c s = true -> without c (Str.trim s) = true.
Proof.
  intros W. unfold Str.trim.
  destruct (trimStart_spec s) as (_ & w & S & _).
  destruct (trimEnd_spec (Str.trimStart s)) as (v & T & _).
  rewrite S, T, !without_append in W.
  apply andb_prop in W. destruct W as [_ W].
  apply andb_prop in W. destruct W as [W _]. exact W.
Qed.

(** The tags the screens read from the field: none is empty, none begins
    or ends with white space, none has a comma. *)
Lemma tagsArray_tags (input tag : string) :
  In tag (Screens.tagsArray input) ->
  Str.trim tag = tag /\ 0 < Str.length tag /\ without "," tag = true.
Proof.
  unfold Screens.tagsArray. intros I. apply filter_In in I. destruct I as [I L].
  apply Z.ltb_lt in L. apply in_map_iff in I. destruct I as (piece & <- & P).
  split; [apply trim_trim|]. split; [exact L|].
  apply trim_without.
  pose proof (split_pieces "," input) as F. rewrite Forall_forall in F. exact (F _ P).
Qed.

Lemma split_joined (tag : string) (tags : list string) :
  Forall (fun t => without "," t = true) (tag :: tags) ->
  Str.split "," (join ", " (tag :: tags)) = tag :: map (String " ") tags.
Proof.
  revert tag. induction tags as [|next tags IH]; intros tag F.
  - cbn [join map]. apply split_whole. exact (Forall_inv F).
  - change (join ", " (tag :: next :: tags))
      with (tag ++ String "," (String " " (join ", " (next :: tags)))).
    rewrite split_at by exact (Forall_inv F).
    cbn [map]. f_equal.
    pose proof (IH next (Forall_inv_tail F)) as S.
    cbn [Str.split]. change (Ascii.eqb " " ",") with false. cbv iota.
    rewrite S. reflexivity.
Qed.

Lemma tagsArray_joined (tags : list string) :
  Forall (fun t => Str.trim t = t /\ 0 < Str.length t /\ without "," t = true) tags ->
  Screens.tagsArray (join ", " tags) = tags.
Proof.
  intros F. destruct tags as [|tag tags]; [reflexivity|].
  unfold Screens.tagsArray. rewrite split_joined.
  - cbn [map]. rewrite map_map.
    assert (M : map (fun x => Str.trim (String " " x)) tags = tags).
    { apply Forall_inv_tail in F. induction F as [|t l [T _] _ IH]; [reflexivity|].
      cbn [map]. rewrite trim_space, T, IH. reflexivity. }
    rewrite M. destruct (Forall_inv F) as (T & _). rewrite T.
    change (?a :: ?l) with ([a] ++ l)%list. 
    apply forallb_filter_id. apply forallb_forall. intros t I.
    rewrite Forall_forall in F. destruct (F t I) as (_ & L & _).
    apply Z.ltb_lt. exact L.
  - eapply Forall_impl; [|exact F]. intros t (_ & _ & W). exact W.
Qed.

(** ** Code units *)

Lemma units_cons (a : ascii) (s : string) :
  Str.length (String a s) = Str.units_of a + Str.length s.
Proof. reflexivity. Qed.

Lemma units_of_range (a : ascii) : 0 <= Str.units_of a <= 2.
Proof.
  unfold Str.units_of.
  destruct (_ <? _)%N; [lia|]. destruct (_ <? _)%N; [lia|]. destruct (_ <? _)%N; lia.
Qed.

Lemma units_nonneg (s : string) : 0 <= Str.length s.
Proof.
  induction s as [|a s IH]; [reflexivity|].
  rewrite units_cons. pose proof (units_of_range a). lia.
Qed.

Lemma units_app (a b : string) : Str.length (a ++ b) = Str.length a + Str.length b.
Proof.
  induction a as [|x a IH]; [reflexivity|].
  cbn [append]. rewrite !units_cons, IH. lia.
Qed.

(** [substring(0, n)] is a beginning of the text, of [n] code units when
    the text has as many. *)
Lemma take_spec (s : string) :
  forall n head,
    Str.take n s = Returns head ->
    Str.length head = Z.min (Z.max n 0) (Str.length s)
    /\ exists tail, s = head ++ tail.
Proof.
  induction s as [|a s IH]; intros n head T.
  - cbn in T. injection T as <-. split; [cbn; lia|exists EmptyString; reflexivity].
  - pose proof (units_of_range a) as U. pose proof (units_nonneg s) as L.
    cbn [Str.take] in T. rewrite units_cons.
    destruct (Str.units_of a =? 0) eqn:Z0.
    + apply Z.eqb_eq in Z0.
      destruct (Str.take n s) as [t| |] eqn:E; try discriminate T.
      cbn [obind] in T. injection T as <-.
      destruct (IH _ _ E) as (Len & tail & S).
      split; [rewrite units_cons; lia|].
      exists tail. cbn [append]. f_equal. exact S.
    + apply Z.eqb_neq in Z0.
      destruct (n <=? 0) eqn:N0.
      * apply Z.leb_le in N0. injection T as <-.
        split; [cbn; lia|]. exists (String a s). reflexivity.
      * apply Z.leb_gt in N0.
        destruct (n <? Str.units_of a) eqn:NU; [discriminate T|].
        apply Z.ltb_ge in NU.
        destruct (Str.take (n - Str.units_of a) s) as [t| |] eqn:E; try discriminate T.
        cbn [obind] in T. injection T as <-.
        destruct (IH _ _ E) as (Len & tail & S).
        split; [rewrite units_cons; lia|].
        exists tail. cbn [append]. f_equal. exact S.
Qed.

(** A text without a character of four bytes can be cut anywhere. *)
Lemma take_returns (s : string) :
  (forall a, In a (list_ascii_of_string s) -> Str.units_of a <= 1) ->
  forall n, exists head, Str.take n s = Returns head.
Proof.
  induction s as [|a s IH]; intros B n; [exists EmptyString; reflexivity|].
  cbn [Str.take].
  assert (Bs : forall x, In x (list_ascii_of_string s) -> Str.units_of x <= 1).
  { intros x I. apply B. right. exact I. }
  assert (Ba : Str.units_of a <= 1) by (apply B; left; reflexivity).
  destruct (Str.units_of a =? 0).
  - destruct (IH Bs n) as (h & ->). eexists. reflexivity.
  - destruct (n <=? 0) eqn:N0; [eexists; reflexivity|]. apply Z.leb_gt in N0.
    destruct (n <? Str.units_of a) eqn:NU; [apply Z.ltb_lt in NU; lia|].
    destruct (IH Bs (n - Str.units_of a)) as (h & ->). eexists. reflexivity.
Qed.

(** ** Sorting *)

Section SortProperties.
Context {A : Type}.
Variable comparefn : A -> A -> Z.
Variable le : A -> A -> Prop.
Hypothesis comparefn_le : forall a b, comparefn a b <= 0 <-> le a b.
Hypothesis le_trans : forall a b c, le a b -> le b c -> le a c.
Hypothesis le_total : forall a b, le a b \/ le b a.

Lemma insert_permutation (x : A) (l : list A) : Permutation (x :: l) (insert comparefn x l).
Proof.
  induction l as [|y l IH]; [reflexivity|].
  cbn [insert]. destruct (comparefn x y <=? 0); [reflexivity|].
  rewrite perm_swap. constructor. exact IH.
Qed.

Lemma sort_permutation (l : list A) : Permutation l (sort comparefn l).
Proof.
  induction l as [|x l IH]; [reflexivity|].
  cbn [sort fold_right]. rewrite <- insert_permutation. constructor. exact IH.
Qed.

Lemma insert_sorted (x : A) (l : list A) :
  StronglySorted le l -> StronglySorted le (insert comparefn x l).
Proof.
  induction 1 as [|y l S IH F]; [repeat constructor|].
  cbn [insert]. destruct (comparefn x y <=? 0) eqn:E.
  - apply Z.leb_le, comparefn_le in E. constructor; [constructor; assumption|].
    constructor; [exact E|]. eapply Forall_impl; [|exact F].
    intros z Z. exact (le_trans _ _ _ E Z).
  - apply Z.leb_gt in E. constructor; [exact IH|].
    rewrite <- insert_permutation. constructor; [|exact F].
    destruct (le_total x y) as [L|L]; [apply comparefn_le in L; lia|exact L].
Qed.

Lemma sort_sorted (l : list A) : StronglySorted le (sort comparefn l).
Proof.
  induction l as [|x l IH]; [constructor|].
  cbn [sort fold_right]. apply insert_sorted. exact IH.
Qed.

(** Inserting and filtering, in a sorted list. *)
Lemma filter_insert (test : A -> bool) (x : A) (l : list A) :
  StronglySorted le l ->
  filter test (insert comparefn x l)
  = if test x then insert comparefn x (filter test l) else filter test l.
Proof.
  induction 1 as [|y l S IH F].
  - cbn [insert filter]. destruct (test x); reflexivity.
  - cbn [insert]. destruct (comparefn x y <=? 0) eqn:E.
    + cbn [filter]. destruct (test x) eqn:X; [|reflexivity].
      destruct (test y) eqn:Y.
      * cbn [insert]. rewrite E. reflexivity.
      * apply Z.leb_le, comparefn_le in E. clear IH.
        induction l as [|z l IHl]; [reflexivity|].
        cbn [filter]. inversion F as [|? ? Fz Fl]; subst. inversion S; subst.
        destruct (test z).
        -- cbn [insert].
           assert (G : comparefn x z <= 0) by (apply comparefn_le; eauto).
           apply Z.leb_le in G. rewrite G. reflexivity.
        -- apply IHl; assumption.
    + cbn [filter]. rewrite IH. destruct (test y) eqn:Y; [|reflexivity].
      destruct (test x); [|reflexivity].
      cbn [insert]. rewrite E. reflexivity.
Qed.

(** Filtering and sorting, in either order. *)
Lemma filter_sort (test : A -> bool) (l : list A) :
  filter test (sort comparefn l) = sort comparefn (filter test l).
Proof.
  induction l as [|x l IH]; [reflexivity|].
  cbn [sort fold_right]. rewrite filter_insert by apply sort_sorted.
  fold (sort comparefn l). rewrite IH. cbn [filter].
  destruct (test x); reflexivity.
Qed.

(** Elements none of which has to come after another are left in their
    order. *)
Lemma sort_stable (test : A -> bool) (l : list A) :
  (forall a b, test a = true -> test b = true -> le a b) ->
  filter test (sort comparefn l) = filter test l.
Proof.
  intros Same. rewrite filter_sort.
  induction l as [|x l IH]; [reflexivity|].
  cbn [filter]. destruct (test x) eqn:E; [|exact IH].
  cbn [sort fold_right]. fold (sort comparefn (filter test l)).
  rewrite IH.
  destruct (filter test l) as [|y r] eqn:R; [reflexivity|].
  cbn [insert].
  assert (Y : test y = true).
  { assert (I : In y (filter test l)) by (rewrite R; left; reflexivity).
    apply filter_In in I. exact (proj2 I). }
  assert (G : comparefn x y <= 0) by (apply comparefn_le, Same; assumption).
  apply Z.leb_le in G. rewrite G. reflexivity.
Qed.
End SortProperties.

(** ** The order of strings *)

Lemma units_lt_irrefl (x : list N) : Str.units_lt x x = false.
Proof.
  induction x as [|a x IH]; [reflexivity|].
  cbn [Str.units_lt]. rewrite N.ltb_irrefl, N.eqb_refl, IH. reflexivity.
Qed.

Lemma units_lt_trans (x : list N) :
  forall y z, Str.units_lt x y = true -> Str.units_lt y z = true -> Str.units_lt x z = true.
Proof.
  induction x as [|a x IH]; intros [|b y] [|c z] XY YZ; cbn [Str.units_lt] in *;
    try discriminate; try reflexivity.
  apply orb_true_iff in XY, YZ. apply orb_true_iff.
  rewrite !andb_true_iff, !N.ltb_lt, !N.eqb_eq in *.
  destruct XY as [XY|[E1 XY]], YZ as [YZ|[E2 YZ]]; try (left; lia).
  right. split; [lia|]. exact (IH _ _ XY YZ).
Qed.

Lemma units_lt_total (x : list N) :
  forall y, Str.units_lt x y = true \/ x = y \/ Str.units_lt y x = true.
Proof.
  induction x as [|a x IH]; intros [|b y]; cbn [Str.units_lt]; auto.
  destruct (N.lt_trichotomy a b) as [L|[->|L]].
  - left. apply orb_true_iff. left. apply N.ltb_lt. exact L.
  - rewrite N.ltb_irrefl, N.eqb_refl. cbn [orb andb].
    destruct (IH y) as [H|[->|H]]; auto.
  - right. right. apply orb_true_iff. left. apply N.ltb_lt. exact L.
Qed.

Lemma units_lt_asym (x y : list N) :
  Str.units_lt x y = true -> Str.units_lt y x = false.
Proof.
  intros XY. destruct (Str.units_lt y x) eqn:YX; [|reflexivity].
  pose proof (units_lt_trans _ _ _ XY YX) as XX.
  rewrite units_lt_irrefl in XX. discriminate XX.
Qed.

Lemma SortCompare_le (x y : string) :
  Utils.SortCompare x y <= 0 <-> Str.less_than y x = false.
Proof.
  unfold Utils.SortCompare, Str.less_than.
  destruct (Str.units_lt (Str.units x) (Str.units y)) eqn:XY.
  - rewrite (units_lt_asym _ _ XY). split; [reflexivity|lia].
  - destruct (Str.units_lt (Str.units y) (Str.units x)); split;
      intros H; try reflexivity; try lia; discriminate H.
Qed.

Lemma not_less_trans (x y z : string) :
  Str.less_than y x = false -> Str.less_than z y = false -> Str.less_than z x = false.
Proof.
  unfold Str.less_than. intros XY YZ.
  destruct (Str.units_lt (Str.units z) (Str.units x)) eqn:ZX; [|reflexivity].
  destruct (units_lt_total (Str.units x) (Str.units y)) as [H|[H|H]].
  - rewrite (units_lt_trans _ _ _ ZX H) in YZ. discriminate YZ.
  - rewrite <- H, ZX in YZ. discriminate YZ.
  - rewrite H in XY. discriminate XY.
Qed.

Lemma not_less_total (x y : string) :
  Str.less_than y x = false \/ Str.less_than x y = false.
Proof.
  unfold Str.less_than.
  destruct (Str.units_lt (Str.units y) (Str.units x)) eqn:YX; [|left; reflexivity].
  right. exact (units_lt_asym _ _ YX).
Qed.

(** ** The utilities *)

(** What [validateNote] accepts. *)
Lemma validateNote_accepts (title content : string) :
  Utils.isValid (Utils.validateNote title content) = true
  <-> (Str.trim title <> EmptyString /\ Str.length (Str.trim title) <= 100)
      /\ (Str.trim content <> EmptyString /\ Str.length (Str.trim content) <= 10000).
Proof.
  unfold Utils.validateNote. cbn [Utils.isValid].
  destruct (Str.trim title) as [|a t] eqn:T;
    destruct (Str.trim content) as [|b c] eqn:C;
    try destruct (100 <? Str.length (String a t)) eqn:LT;
    try destruct (10000 <? Str.length (String b c)) eqn:LC;
    cbn [List.length app Nat.eqb];
    try apply Z.ltb_lt in LT; try apply Z.ltb_ge in LT;
    try apply Z.ltb_lt in LC; try apply Z.ltb_ge in LC;
    (split; [intros H; try discriminate H|intros [[? ?] [? ?]]; try congruence; try lia]).
  repeat split; try discriminate; assumption.
Qed.

(** X18: a note made from a title and a content that [validateNote]
    accepted has a title of at most 100 code units and a content of at most
    10000, neither empty nor with white space at its ends, and
    [validateNote] accepts them again as they are; so has a note brought up
    to date. *)
Theorem validated_note (id : string) (now : Date) (title content : string)
    (tags : option (list string)) (existingNote : Note.t) :
  Utils.isValid (Utils.validateNote title content) = true ->
  forall note,
    note = Utils.createNote id now title content tags
    \/ note = Utils.updateNote now existingNote title content tags ->
    (Note.title note <> EmptyString /\ Str.length (Note.title note) <= 100)
    /\ (Note.content note <> EmptyString /\ Str.length (Note.content note) <= 10000)
    /\ Str.trim (Note.title note) = Note.title note
    /\ Str.trim (Note.content note) = Note.content note
    /\ Utils.isValid (Utils.validateNote (Note.title note) (Note.content note)) = true.
Proof.
  intros V note N.
  assert (T : Note.title note = Str.trim title) by (destruct N as [->| ->]; reflexivity).
  assert (C : Note.content note = Str.trim content) by (destruct N as [->| ->]; reflexivity).
  rewrite T, C. apply validateNote_accepts in V. destruct V as [VT VC].
  split; [exact VT|]. split; [exact VC|].
  split; [apply trim_trim|]. split; [apply trim_trim|].
  apply validateNote_accepts. rewrite !trim_trim. split; assumption.
Qed.

Lemma validated_note_witness :
  Note.title (Utils.createNote "n4" 1690000400000 "  Groceries " "milk" None) = "Groceries"
  /\ Utils.isValid (Utils.validateNote "Groceries" "milk") = true.
Proof.
  destruct (validated_note "n4" 1690000400000 "  Groceries " "milk" None Sample.note1
              ltac:(vm_compute; reflexivity)
              (Utils.createNote "n4" 1690000400000 "  Groceries " "milk" None)
              (or_introl eq_refl)) as (_ & _ & _ & _ & V).
  split; [reflexivity|exact V].
Defined.

(** The text [validateNote] answers with: the message of the title, then
    the message of the content. *)
Lemma validateNote_errors (title content : string) :
  Utils.errors (Utils.validateNote title content)
  = ((if String.eqb (Str.trim title) EmptyString then ["Title is required"]
      else if 100 <? Str.length (Str.trim title)
           then ["Title must be less than 100 characters"] else [])
     ++ (if String.eqb (Str.trim content) EmptyString then ["Content is required"]
         else if 10000 <? Str.length (Str.trim content)
              then ["Content must be less than 10,000 characters"] else []))%list.
Proof.
  unfold Utils.validateNote. cbn [Utils.errors].
  destruct (Str.trim title) as [|a t]; destruct (Str.trim content) as [|b c];
    cbn [String.eqb];
    try destruct (100 <? Str.length (String a t));
    try destruct (10000 <? Str.length (String b c)); reflexivity.
Qed.

(** X19: [truncateText] returns the text when it has at most [maxLength] code
    units; otherwise a beginning of the text of [maxLength] code units (of
    none when [maxLength] is negative) followed by three dots, so a text of
    [maxLength + 3] code units, longer than the text it shortens when that
    had no more than [maxLength + 2].  It returns whenever no character of
    the text takes two code units. *)
Theorem truncateText_result (text : string) (maxLength : Z) :
  (forall result,
      Utils.truncateText text maxLength = Returns result ->
      (Str.length text <= maxLength -> result = text)
      /\ (maxLength < Str.length text ->
            exists head tail,
              result = head ++ "..." /\ text = head ++ tail
              /\ Str.length head = Z.max maxLength 0
              /\ Str.length result = Z.max maxLength 0 + 3))
  /\ ((forall a, In a (list_ascii_of_string text) -> Str.units_of a <= 1) ->
      exists result, Utils.truncateText text maxLength = Returns result).
Proof.
  unfold Utils.truncateText. split.
  - intros result R.
    destruct (Str.length text <=? maxLength) eqn:L.
    all: pose proof (units_nonneg text) as P.
    + apply Z.leb_le in L. injection R as <-. split; [reflexivity|intros H; lia].
    + apply Z.leb_gt in L. split; [intros H; lia|]. intros _.
      destruct (Str.take maxLength text) as [head| |] eqn:T; try discriminate R.
      cbn [obind] in R. injection R as <-.
      destruct (take_spec _ _ _ T) as (Len & tail & S).
      exists head, tail. split; [reflexivity|]. split; [exact S|].
      assert (H : Str.length head = Z.max maxLength 0) by lia.
      split; [exact H|]. rewrite units_app, H. reflexivity.
  - intros B. destruct (Str.length text <=? maxLength); [exists text; reflexivity|].
    destruct (take_returns text B maxLength) as (head & ->).
    exists (head ++ "..."). reflexivity.
Qed.

Lemma truncateText_result_witness :
  Utils.truncateText "Groceries list" 9 = Returns "Groceries..."
  /\ exists head tail,
       "Groceries..." = head ++ "..." /\ "Groceries list" = head ++ tail
       /\ Str.length head = Z.max 9 0 /\ Str.length "Groceries..." = Z.max 9 0 + 3.
Proof.
  split; [vm_compute; reflexivity|].
  destruct (truncateText_result "Groceries list" 9) as [R _].
  apply (R "Groceries...").
  - vm_compute. reflexivity.
  - vm_compute. reflexivity.
Defined.

Lemma comparison_in_order (localeCompare : string -> string -> Z)
    (sortBy : Utils.SortBy) (ascending : bool) (a b : Note.t) :
  sortBy <> Utils.by_title ->
  (if ascending then Utils.comparison localeCompare sortBy a b
   else - Utils.comparison localeCompare sortBy a b) <= 0
  <-> in_order ascending sortBy a b.
Proof.
  intros N. unfold in_order.
  destruct sortBy; [contradiction| |]; destruct ascending;
    cbn [Utils.comparison sort_time]; lia.
Qed.

Lemma in_order_trans (ascending : bool) (sortBy : Utils.SortBy) (a b c : Note.t) :
  in_order ascending sortBy a b -> in_order ascending sortBy b c ->
  in_order ascending sortBy a c.
Proof. unfold in_order. destruct ascending; lia. Qed.

Lemma in_order_total (ascending : bool) (sortBy : Utils.SortBy) (a b : Note.t) :
  in_order ascending sortBy a b \/ in_order ascending sortBy b a.
Proof. unfold in_order. destruct ascending; lia. Qed.

(** X20: sorted by a date, the notes are the same notes, in the order of the
    date, the latest first unless [ascending] is set, and notes of one date
    in the order they had. *)
Theorem sortNotes_by_date (localeCompare : string -> string -> Z)
    (notes : list Note.t) (sortBy : Utils.SortBy) (ascending : bool) :
  sortBy <> Utils.by_title ->
  Permutation notes (Utils.sortNotes localeCompare notes sortBy ascending)
  /\ StronglySorted (in_order ascending sortBy)
                    (Utils.sortNotes localeCompare notes sortBy ascending)
  /\ forall t,
       filter (fun note => sort_time sortBy note =? t)
              (Utils.sortNotes localeCompare notes sortBy ascending)
       = filter (fun note => sort_time sortBy note =? t) notes.
Proof.
  intros N. unfold Utils.sortNotes. split; [apply sort_permutation|]. split.
  - apply sort_sorted.
    + intros a b. apply comparison_in_order. exact N.
    + apply in_order_trans.
    + apply in_order_total.
  - intros t. apply (sort_stable _ (in_order ascending sortBy)).
    + intros a b. apply comparison_in_order. exact N.
    + apply in_order_trans.
    + apply in_order_total.
    + intros a b A B. apply Z.eqb_eq in A, B. unfold in_order.
      destruct ascending; lia.
Qed.

Lemma sortNotes_by_date_witness :
  Permutation [Sample.note1; Sample.note2]
    (Utils.sortNotes Notebook.localeCompare [Sample.note1; Sample.note2]
                     Utils.by_updatedAt false)
  /\ Utils.sortNotes Notebook.localeCompare [Sample.note1; Sample.note2]
                     Utils.by_updatedAt false
     = [Sample.note2; Sample.note1].
Proof.
  destruct (sortNotes_by_date Notebook.localeCompare [Sample.note1; Sample.note2]
              Utils.by_updatedAt false ltac:(intros H; discriminate H)) as (P & _).
  split; [exact P|vm_compute; reflexivity].
Defined.

(** X21: searching the notes and sorting what was found by a date gives the
    list that sorting the notes and searching the sorted list gives. *)
Theorem search_then_sort (toLowerCase : string -> string)
    (localeCompare : string -> string -> Z)
    (notes : list Note.t) (searchTerm : string) (sortBy : Utils.SortBy) (ascending : bool) :
  sortBy <> Utils.by_title ->
  Utils.sortNotes localeCompare (Utils.searchNotes toLowerCase notes searchTerm)
                  sortBy ascending
  = Utils.searchNotes toLowerCase (Utils.sortNotes localeCompare notes sortBy ascending)
                      searchTerm.
Proof.
  intros N. unfold Utils.searchNotes.
  destruct (Str.trim searchTerm); [reflexivity|].
  unfold Utils.sortNotes. symmetry.
  apply (filter_sort _ (in_order ascending sortBy)).
  - intros x y. apply comparison_in_order. exact N.
  - apply in_order_trans.
  - apply in_order_total.
Qed.

Lemma search_then_sort_witness :
  Utils.sortNotes Notebook.localeCompare
    (Utils.searchNotes Notebook.toLowerCase [Sample.note1; Sample.note2] "il")
    Utils.by_createdAt true
  = Utils.searchNotes Notebook.toLowerCase
      (Utils.sortNotes Notebook.localeCompare [Sample.note1; Sample.note2]
                       Utils.by_createdAt true) "il".
Proof.
  apply (search_then_sort Notebook.toLowerCase Notebook.localeCompare).
  intros H. discriminate H.
Defined.

(** *** Tags *)

Lemma add_In (tag t : string) (tagSet : list string) :
  In t (Utils.add tag tagSet) <-> t = tag \/ In t tagSet.
Proof.
  unfold Utils.add. destruct (existsb (String.eqb tag) tagSet) eqn:E.
  - split; [auto|]. intros [->|I]; [|exact I].
    apply existsb_exists in E. destruct E as (x & I & E).
    apply String.eqb_eq in E. subst x. exact I.
  - rewrite in_app_iff. cbn [In]. intuition congruence.
Qed.

Lemma add_NoDup (tag : string) (tagSet : list string) :
  NoDup tagSet -> NoDup (Utils.add tag tagSet).
Proof.
  intros N. unfold Utils.add. destruct (existsb (String.eqb tag) tagSet) eqn:E; [exact N|].
  apply NoDup_app; [exact N|repeat constructor; intros []|].
  intros x I [->|[]].
  assert (X : existsb (String.eqb x) tagSet = true).
  { apply existsb_exists. exists x. split; [exact I|apply String.eqb_refl]. }
  congruence.
Qed.

Lemma add_all (tags : list string) :
  forall tagSet,
    (forall t, In t (fold_left (fun tagSet tag => Utils.add tag tagSet) tags tagSet)
               <-> In t tags \/ In t tagSet)
    /\ (NoDup tagSet ->
        NoDup (fold_left (fun tagSet tag => Utils.add tag tagSet) tags tagSet)).
Proof.
  induction tags as [|tag tags IH]; intros tagSet.
  - cbn [fold_left In]. split; [intuition|auto].
  - cbn [fold_left]. destruct (IH (Utils.add tag tagSet)) as [I N]. split.
    + intros t. rewrite I, add_In. cbn [In]. intuition congruence.
    + intros D. apply N, add_NoDup, D.
Qed.

Lemma tagSet_spec (notes : list Note.t) :
  forall tagSet,
    let final :=
      fold_left
        (fun tagSet note =>
           match Note.tags note with
           | Some tags => fold_left (fun tagSet tag => Utils.add tag tagSet) tags tagSet
           | None => tagSet
           end)
        notes tagSet in
    (forall t, In t final <-> (exists note, In note notes /\ tagged t note) \/ In t tagSet)
    /\ (NoDup tagSet -> NoDup final).
Proof.
  induction notes as [|note notes IH]; intros tagSet; cbv zeta.
  - cbn [fold_left]. split; [|auto]. intros t. split; [auto|].
    intros [(n & [] & _)|I]. exact I.
  - cbn [fold_left]. destruct (Note.tags note) as [tags|] eqn:T.
    + destruct (IH (fold_left (fun tagSet tag => Utils.add tag tagSet) tags tagSet))
        as [I N].
      destruct (add_all tags tagSet) as [I' N']. split.
      * intros t. rewrite I, I'. split.
        -- intros [(n & In_n & G)|[H|H]]; [left; exists n; split; [right|]; assumption| |auto].
           left. exists note. split; [left; reflexivity|]. exists tags. auto.
        -- intros [(n & [<-|In_n] & G)|H]; [|left; exists n; auto|auto].
           destruct G as (tags' & T' & G). rewrite T in T'. injection T' as <-. auto.
      * intros D. apply N, N', D.
    + destruct (IH tagSet) as [I N]. split; [|exact N].
      intros t. rewrite I. split.
      * intros [(n & In_n & G)|H]; [left; exists n; split; [right|]; assumption|auto].
      * intros [(n & [<-|In_n] & G)|H]; [|left; exists n; auto|auto].
        destruct G as (tags' & T' & _). congruence.
Qed.

(** X22: [getAllTags] lists the tags of the notes, each once, in the order
    of strings. *)
Theorem getAllTags_lists_tags (notes : list Note.t) :
  (forall tag, In tag (Utils.getAllTags notes)
               <-> exists note, In note notes /\ tagged tag note)
  /\ NoDup (Utils.getAllTags notes)
  /\ StronglySorted (fun x y => Str.less_than y x = false) (Utils.getAllTags notes).
Proof.
  unfold Utils.getAllTags. cbv zeta.
  destruct (tagSet_spec notes []) as [I N]. cbv zeta in I, N.
  split; [|split].
  - intros tag. rewrite <- (Permutation_in' (eq_refl tag) (sort_permutation _ _)).
    rewrite I. cbn [In]. intuition.
  - apply (Permutation_NoDup (sort_permutation _ _)). apply N. constructor.
  - apply sort_sorted.
    + apply SortCompare_le.
    + apply not_less_trans.
    + apply not_less_total.
Qed.

(** X23: [filterNotesByTag] keeps, in their order, the notes that have the
    tag, and finds one exactly for the tags [getAllTags] lists. *)
Theorem tags_found (notes : list Note.t) (tag : string) :
  (forall note, In note (Utils.filterNotesByTag notes tag)
                <-> In note notes /\ tagged tag note)
  /\ (In tag (Utils.getAllTags notes) <-> Utils.filterNotesByTag notes tag <> []).
Proof.
  assert (F : forall note, In note (Utils.filterNotesByTag notes tag)
                           <-> In note notes /\ tagged tag note).
  { intros note. unfold Utils.filterNotesByTag. rewrite filter_In. unfold tagged.
    split.
    - intros [I E]. split; [exact I|].
      destruct (Note.tags note) as [tags|]; [|discriminate E].
      exists tags. split; [reflexivity|].
      apply existsb_exists in E. destruct E as (x & X & E).
      apply String.eqb_eq in E. subst x. exact X.
    - intros [I (tags & -> & T)]. split; [exact I|].
      apply existsb_exists. exists tag. split; [exact T|apply String.eqb_refl]. }
  split; [exact F|].
  destruct (getAllTags_lists_tags notes) as [G _]. rewrite G. split.
  - intros (note & I & T) E.
    assert (X : In note (Utils.filterNotesByTag notes tag)) by (apply F; auto).
    rewrite E in X. destruct X.
  - intros N. destruct (Utils.filterNotesByTag notes tag) as [|note rest] eqn:E;
      [contradiction|].
    exists note. apply F. left. reflexivity.
Qed.

(** X24: what [formatDate] shows, by the age of the date in milliseconds. *)
Theorem formatDate_by_age (toLocaleDateString : Date -> string) (now : Z) (date : Date) :
  let age := now - date in
  let shown := Utils.formatDate toLocaleDateString now date in
  (age < 60000 -> shown = "Just now")
  /\ (60000 <= age < 3600000 ->
      1 <= age / 60000 <= 59
      /\ shown = decimal (age / 60000) ++ " minute"
                   ++ (if age <? 120000 then EmptyString else "s") ++ " ago")
  /\ (3600000 <= age < 86400000 ->
      1 <= age / 3600000 <= 23
      /\ shown = decimal (age / 3600000) ++ " hour"
                   ++ (if age <? 7200000 then EmptyString else "s") ++ " ago")
  /\ (86400000 <= age < 604800000 ->
      1 <= age / 86400000 <= 6
      /\ shown = decimal (age / 86400000) ++ " day"
                   ++ (if age <? 172800000 then EmptyString else "s") ++ " ago")
  /\ (604800000 <= age -> shown = toLocaleDateString date).
Proof.
  cbv zeta. unfold Utils.formatDate. cbv zeta.
  change (1000 * 60 * 60 * 24) with 86400000.
  change (1000 * 60 * 60) with 3600000. change (1000 * 60) with 60000.
  set (age := now - date).
  assert (P : forall d, 0 < d ->
                Utils.plural (age / d) = if age <? 2 * d then EmptyString else "s").
  { intros d D. unfold Utils.plural.
    destruct (1 <? age / d) eqn:A; destruct (age <? 2 * d) eqn:B; try reflexivity.
    - apply Z.ltb_lt in A, B. exfalso.
      assert (age / d < 2) by (apply Z.div_lt_upper_bound; lia). lia.
    - apply Z.ltb_ge in A, B. exfalso.
      assert (2 <= age / d) by (apply Z.div_le_lower_bound; lia). lia. }
  repeat split.
  - intros A. destruct (age / 60000 <? 1) eqn:E; [reflexivity|].
    apply Z.ltb_ge in E. exfalso. revert E A. clear. intros. Z.div_mod_to_equations. lia.
  - Z.div_mod_to_equations. lia.
  - Z.div_mod_to_equations. lia.
  - destruct (age / 60000 <? 1) eqn:E.
    { apply Z.ltb_lt in E. exfalso. revert E H. clear. intros. Z.div_mod_to_equations. lia. }
    destruct (age / 60000 <? 60) eqn:F.
    + rewrite (P 60000) by lia. reflexivity.
    + apply Z.ltb_ge in F. exfalso. revert F H. clear. intros. Z.div_mod_to_equations. lia.
  - Z.div_mod_to_equations. lia.
  - Z.div_mod_to_equations. lia.
  - destruct (age / 60000 <? 1) eqn:E.
    { apply Z.ltb_lt in E. exfalso. revert E H. clear. intros. Z.div_mod_to_equations. lia. }
    destruct (age / 60000 <? 60) eqn:F.
    { apply Z.ltb_lt in F. exfalso. revert F H. clear. intros. Z.div_mod_to_equations. lia. }
    destruct (age / 3600000 <? 24) eqn:G.
    + rewrite (P 3600000) by lia. reflexivity.
    + apply Z.ltb_ge in G. exfalso. revert G H. clear. intros. Z.div_mod_to_equations. lia.
  - Z.div_mod_to_equations. lia.
  - Z.div_mod_to_equations. lia.
  - destruct (age / 60000 <? 1) eqn:E.
    { apply Z.ltb_lt in E. exfalso. revert E H. clear. intros. Z.div_mod_to_equations. lia. }
    destruct (age / 60000 <? 60) eqn:F.
    { apply Z.ltb_lt in F. exfalso. revert F H. clear. intros. Z.div_mod_to_equations. lia. }
    destruct (age / 3600000 <? 24) eqn:G.
    { apply Z.ltb_lt in G. exfalso. revert G H. clear. intros. Z.div_mod_to_equations. lia. }
    destruct (age / 86400000 <? 7) eqn:I.
    + rewrite (P 86400000) by lia. reflexivity.
    + apply Z.ltb_ge in I. exfalso. revert I H. clear. intros. Z.div_mod_to_equations. lia.
  - intros A.
    destruct (age / 60000 <? 1) eqn:E.
    { apply Z.ltb_lt in E. exfalso. revert E A. clear. intros. Z.div_mod_to_equations. lia. }
    destruct (age / 60000 <? 60) eqn:F.
    { apply Z.ltb_lt in F. exfalso. revert F A. clear. intros. Z.div_mod_to_equations. lia. }
    destruct (age / 3600000 <? 24) eqn:G.
    { apply Z.ltb_lt in G. exfalso. revert G A. clear. intros. Z.div_mod_to_equations. lia. }
    destruct (age / 86400000 <? 7) eqn:I; [|reflexivity].
    apply Z.ltb_lt in I. exfalso. revert I A. clear. intros. Z.div_mod_to_equations. lia.
Qed.

(** X25: the tags read from the field of the create and edit screens are not
    empty, have no white space at their ends and no comma; and the text the
    edit screen puts in the field for a note with these tags is read back
    to the same tags. *)
Theorem tags_field_read_back (input : string) (note : Note.t) :
  Note.tags note = Some (Screens.tagsArray input) ->
  Screens.tagsArray (Screens.tagsText note) = Screens.tagsArray input
  /\ forall tag, In tag (Screens.tagsArray input) ->
       tag <> EmptyString /\ Str.trim tag = tag /\ without "," tag = true.
Proof.
  intros T. split.
  - unfold Screens.tagsText. rewrite T. apply tagsArray_joined.
    apply Forall_forall. intros t I. apply (tagsArray_tags input). exact I.
  - intros tag I. destruct (tagsArray_tags input tag I) as (Tr & L & W).
    split; [|split; assumption]. intros ->. cbn in L. lia.
Qed.

Lemma tags_field_read_back_witness :
  Screens.tagsArray " home , work,, x " = ["home"; "work"; "x"]
  /\ Screens.tagsArray "home, work, x" = Screens.tagsArray " home , work,, x ".
Proof.
  split; [vm_compute; reflexivity|].
  apply (tags_field_read_back " home , work,, x "
           (Note.Build "n5" "t" "c" 0 0 (Some (Screens.tagsArray " home , work,, x ")))).
  reflexivity.
Defined.

(** ** The screens *)

Section ScreenProperties.
Variable AES_encrypt : string -> string -> string -> string.
Variable AES_decrypt : string -> string -> outcome string.

(** X26: [handleSave] of the create screen, on a storage that holds notes
    none of which has the identifier drawn: a title or content that
    [validateNote] refuses is answered with the messages and nothing is
    stored; otherwise the note is stored after the others, with the title
    and the content without the white space at their ends and the tags of
    the field, and [getNote] of its identifier gives it. *)
Theorem create_screen_saves (id : string) (now : Date) (salts : Salts)
    (title content tags : string) (notes : list Note.t) (storage : Storage) :
  holds AES_decrypt storage notes ->
  (forall n, In n notes -> Note.id n <> id) ->
  valid_time now -> Forall dated notes ->
  cipher_inverts AES_encrypt AES_decrypt salts
    (Utils.createNote id now title content (Some (Screens.tagsArray tags)) :: notes) ->
  let note := Utils.createNote id now title content (Some (Screens.tagsArray tags)) in
  let validation := Utils.validateNote title content in
  (Utils.isValid validation = false ->
   Utils.errors validation <> []
   /\ CreateNoteScreen.handleSave AES_encrypt AES_decrypt id now salts title content tags
                                  storage
      = (Fulfilled (Alert "Validation Error"
                          (join (String newline EmptyString) (Utils.errors validation))),
         storage))
  /\ (Utils.isValid validation = true ->
      exists storage',
        CreateNoteScreen.handleSave AES_encrypt AES_decrypt id now salts title content tags
                                    storage
        = (Fulfilled (Alert "Success" "Note created successfully"), storage')
        /\ holds AES_decrypt storage' (notes ++ [note])
        /\ StorageService.getNote AES_decrypt id storage' = Fulfilled (Note.to_value note)
        /\ Note.title note = Str.trim title /\ Note.content note = Str.trim content
        /\ Note.tags note = Some (Screens.tagsArray tags)).
Proof.
  intros H Fresh Now D C note validation. split.
  - intros V. split.
    + intros E. subst validation. unfold Utils.validateNote in V, E.
      cbn [Utils.isValid Utils.errors] in V, E. rewrite E in V. discriminate V.
    + unfold CreateNoteScreen.handleSave. cbv zeta. fold validation. rewrite V. reflexivity.
  - intros V.
    destruct (saveNote_new AES_encrypt AES_decrypt salts note notes storage H)
      as (storage' & S & L).
    { exact Fresh. }
    { apply (recovers_of_all AES_encrypt AES_decrypt salts _ (note :: notes) C).
      intros n I. apply in_app_iff in I. destruct I as [I|[<-|[]]]; [right|left]; auto. }
    { apply Forall_app. split; [exact D|]. constructor; [|constructor].
      split; exact Now. }
    exists storage'. split.
    + unfold CreateNoteScreen.handleSave. cbv zeta. fold validation. rewrite V.
      cbn [negb]. fold note. rewrite S. reflexivity.
    + split; [exact L|]. split; [|repeat split].
      rewrite (getNote_held AES_decrypt _ _ _ L).
      assert (X : List.find (fun n => String.eqb (Note.id n) id) (notes ++ [note])
                  = Some note).
      { clear - Fresh. induction notes as [|m notes IH].
        - cbn [app List.find Utils.createNote Note.id]. rewrite String.eqb_refl. reflexivity.
        - cbn [app List.find]. destruct (String.eqb (Note.id m) id) eqn:G.
          + apply String.eqb_eq in G. exfalso. exact (Fresh m (or_introl eq_refl) G).
          + apply IH. intros x I. apply Fresh. right. exact I. }
      rewrite X. reflexivity.
Qed.

(** X27: [handleSave] of the edit screen, on a storage that holds the note
    it edits: the note brought up to date takes the place of the first
    note of its id, with the id and the date of creation it had; the other
    notes stay, so the storage holds as many notes as before. *)
Theorem edit_screen_replaces (now : Date) (salts : Salts) (originalNote : Note.t)
    (title content tags : string)
    (before after : list Note.t) (storage : Storage) :
  holds AES_decrypt storage (before ++ originalNote :: after) ->
  (forall n, In n before -> Note.id n <> Note.id originalNote) ->
  valid_time now -> Forall dated (before ++ originalNote :: after) ->
  cipher_inverts AES_encrypt AES_decrypt salts
    (Utils.updateNote now originalNote title content (Some (Screens.tagsArray tags))
       :: before ++ after) ->
  Utils.isValid (Utils.validateNote title content) = true ->
  let updatedNote :=
    Utils.updateNote now originalNote title content (Some (Screens.tagsArray tags)) in
  exists storage',
    EditNoteScreen.handleSave AES_encrypt AES_decrypt now salts (Some originalNote)
                              title content tags storage
    = (Fulfilled (Some (Alert "Success" "Note updated successfully")), storage')
    /\ holds AES_decrypt storage' (before ++ updatedNote :: after)
    /\ Note.id updatedNote = Note.id originalNote
    /\ Note.createdAt updatedNote = Note.createdAt originalNote
    /\ Note.updatedAt updatedNote = now
    /\ List.length (before ++ updatedNote :: after)
       = List.length (before ++ originalNote :: after)
    /\ StorageService.getNote AES_decrypt (Note.id originalNote) storage'
       = Fulfilled (Note.to_value updatedNote).
Proof.
  intros H First Now D C V updatedNote.
  assert (Dn : dated originalNote).
  { rewrite Forall_forall in D. apply D. apply in_app_iff. right. left. reflexivity. }
  destruct (saveNote_existing AES_encrypt AES_decrypt salts updatedNote
              before originalNote after storage H) as (storage' & S & L).
  { reflexivity. }
  { exact First. }
  { apply (recovers_of_all AES_encrypt AES_decrypt salts _ _ C).
    intros n I. apply in_app_iff in I. destruct I as [I|[<-|I]].
    - right. apply in_app_iff. left. exact I.
    - left. reflexivity.
    - right. apply in_app_iff. right. exact I. }
  { apply Forall_app in D. destruct D as [Db Da]. apply Forall_app. split; [exact Db|].
    constructor; [|exact (Forall_inv_tail Da)].
    split; [exact (proj1 Dn)|exact Now]. }
  exists storage'. split.
  - unfold EditNoteScreen.handleSave. cbv zeta. rewrite V. cbn [negb].
    fold updatedNote. rewrite S. reflexivity.
  - split; [exact L|]. split; [reflexivity|]. split; [reflexivity|].
    split; [reflexivity|]. split; [rewrite !length_app; reflexivity|].
    rewrite (getNote_held AES_decrypt _ _ _ L).
    assert (X : List.find (fun n => String.eqb (Note.id n) (Note.id originalNote))
                          (before ++ updatedNote :: after) = Some updatedNote).
    { clear - First. induction before as [|m before IH].
      - cbn [app List.find]. subst updatedNote. cbn [Utils.updateNote Note.id].
        rewrite String.eqb_refl. reflexivity.
      - cbn [app List.find].
        destruct (String.eqb (Note.id m) (Note.id originalNote)) eqn:G.
        + apply String.eqb_eq in G. exfalso. exact (First m (or_introl eq_refl) G).
        + apply IH. intros x I. apply First. right. exact I. }
    rewrite X. reflexivity.
Qed.

End ScreenProperties.

Lemma create_screen_saves_witness :
  exists storage',
    CreateNoteScreen.handleSave StandIn.encrypt StandIn.decrypt "n4" 1690000400000
      Notebook.salts "  Shopping " " bread " " home , shop" Notebook.stored
    = (Fulfilled (Alert "Success" "Note created successfully"), storage')
    /\ holds StandIn.decrypt storage'
         [Sample.note1; Sample.note2;
          Note.Build "n4" "Shopping" "bread" 1690000400000 1690000400000
                     (Some ["home"; "shop"])].
Proof.
  destruct (create_screen_saves StandIn.encrypt StandIn.decrypt "n4" 1690000400000
              Notebook.salts "  Shopping " " bread " " home , shop"
              [Sample.note1; Sample.note2] Notebook.stored) as (_ & Valid).
  - exact notebook_stored.
  - intros n [<-|[<-|[]]]; discriminate.
  - vm_compute. discriminate.
  - repeat constructor; vm_compute; discriminate.
  - apply notebook_cipher. vm_compute. reflexivity.
  - destruct (Valid ltac:(vm_compute; reflexivity)) as (storage' & S & H & _).
    exists storage'. split; [exact S|exact H].
Defined.

Lemma edit_screen_replaces_witness :
  exists storage',
    EditNoteScreen.handleSave StandIn.encrypt StandIn.decrypt 1690000300000 Notebook.salts
      (Some Sample.note1) "Groceries" "milk, eggs, bread" "home, shop" Notebook.stored
    = (Fulfilled (Some (Alert "Success" "Note updated successfully")), storage')
    /\ holds StandIn.decrypt storage' [Notebook.note1'; Sample.note2].
Proof.
  destruct (edit_screen_replaces StandIn.encrypt StandIn.decrypt 1690000300000
              Notebook.salts Sample.note1 "Groceries" "milk, eggs, bread" "home, shop"
              [] [Sample.note2] Notebook.stored) as (storage' & S & H & _).
  - exact notebook_stored.
  - intros n [].
  - vm_compute. discriminate.
  - repeat constructor; vm_compute; discriminate.
  - apply notebook_cipher. vm_compute. reflexivity.
  - vm_compute. reflexivity.
  - exists storage'. split; [exact S|exact H].
Defined.

(** ** The text a block is digested from *)

Lemma append_cancel_l (s a b : string) : s ++ a = s ++ b -> a = b.
Proof.
  induction s as [|c s IH]; cbn [append]; intros H; [exact H|].
  injection H as H. exact (IH H).
Qed.

Lemma append_cancel_r (t : string) :
  forall a b, a ++ t = b ++ t -> a = b.
Proof.
  induction a as [|c a IH]; intros [|c' b] H.
  - reflexivity.
  - exfalso. apply (f_equal String.length) in H.
    cbn [append String.length] in H. rewrite length_append in H. lia.
  - exfalso. apply (f_equal String.length) in H.
    cbn [append String.length] in H. rewrite length_append in H. lia.
  - cbn [append] in H. injection H as -> H. f_equal. exact (IH b H).
Qed.

Lemma calculateHash_text (block : Block) :
  Service.calculateHash block = generateHash (block_text block).
Proof. reflexivity. Qed.

(** [JSON.parse] reads the text of a payload back to the payload, with
    the text of each date where the date was. *)
Lemma payload_text_read_back (d : EncryptedNote.t) :
  JSON_parse (template_of (JSON_stringify (EncryptedNote.to_value d)))
  = Returns (encrypted_read_back d).
Proof.
  assert (T : JSON_stringify (EncryptedNote.to_value d)
              = JSON_stringify (encrypted_read_back d)).
  { unfold JSON_stringify, EncryptedNote.to_value, encrypted_read_back.
    rewrite !serialize_object. reflexivity. }
  rewrite T.
  destruct (JSON_stringify (encrypted_read_back d)) as [text|] eqn:S.
  - apply (JSON_parse_stringify EmptyString); [reflexivity| |exact S].
    unfold encrypted_read_back. rewrite pure_object. reflexivity.
  - unfold JSON_stringify, encrypted_read_back in S.
    rewrite serialize_object in S. discriminate S.
Qed.

(** Payloads with valid dates that are written as one text are one
    payload. *)
Lemma payload_text_injective (d e : EncryptedNote.t) :
  dated_payload d -> dated_payload e ->
  JSON_stringify (EncryptedNote.to_value d) = JSON_stringify (EncryptedNote.to_value e) ->
  d = e.
Proof.
  intros [Dc Du] [Ec Eu] T.
  pose proof (payload_text_read_back d) as Rd.
  rewrite T, payload_text_read_back in Rd.
  unfold encrypted_read_back in Rd.
  assert (G : forall a b c x a' b' c' x',
             Returns (VObj [("id", VStr a); ("encryptedData", VStr b);
                            ("createdAt", VStr c); ("updatedAt", VStr x)])
             = Returns (VObj [("id", VStr a'); ("encryptedData", VStr b');
                              ("createdAt", VStr c'); ("updatedAt", VStr x')]) ->
             a = a' /\ b = b' /\ c = c' /\ x = x').
  { intros a b c x a' b' c' x' H. injection H as -> -> -> ->. repeat split. }
  destruct (G _ _ _ _ _ _ _ _ Rd) as (I & E & C & U).
  apply (f_equal Date_parse) in C, U.
  rewrite !Date_parse_toISOString in C, U by assumption.
  injection C as C. injection U as U.
  destruct d, e. cbn in *. congruence.
Qed.

(** A block with another payload, of valid dates, is digested from
    another text. *)
Lemma block_text_payload (block : Block) (d : EncryptedNote.t) :
  dated_payload d -> dated_payload (data block) -> d <> data block ->
  block_text (with_data d block) <> block_text block.
Proof.
  intros Dd Db N H. apply N. unfold block_text in H. cbn [previousHash timestamp data nonce with_data] in H.
  apply append_cancel_l, append_cancel_l in H.
  apply append_cancel_r in H.
  apply (payload_text_injective d (data block) Dd Db).
  unfold JSON_stringify, EncryptedNote.to_value in *.
  rewrite !serialize_object in *. cbn [template_of] in H. congruence.
Qed.

(** A change of a block that keeps its hash, the hash it names and the
    outcome of the comparison of its hash with its digest is not seen. *)
Lemma valid_links_tamper (f : Block -> Block) (block : Block) :
  hash (f block) = hash block -> previousHash (f block) = previousHash block ->
  Service.calculateHash (f block) = Service.calculateHash block ->
  forall rest p i,
    nth_error rest i = Some block ->
    valid_links p (tamper i f rest) = valid_links p rest.
Proof.
  intros H P C. induction rest as [|c rest IH]; intros p [|i] N; try discriminate N.
  - injection N as ->. cbn [tamper valid_links]. rewrite H, P, C.
    rewrite (valid_links_previous rest (f block) block H). reflexivity.
  - cbn [tamper valid_links]. cbn [nth_error] in N. rewrite (IH c i N). reflexivity.
Qed.

(** ** C1: what [validateChain] detects *)

(** C1, amended: [validateChain] checks the blocks from index 1 on.  After
    the hash of a sealed block at such an index was changed, it returns
    false.  After the payload of a block at such an index was changed, it
    returns false when the digest of the block is no longer its hash, and
    what it returned before when the digest is the same.  Among payloads
    of the declared type with valid dates every change changes the text
    that is digested, so it is detected unless the two texts collide; a
    payload whose dates were replaced by their ISO texts is written as
    the same text, and the chain validates as before.  The genesis block
    is checked only through the link of the block after it: a change of
    its hash is detected when a block that names it follows, a change of
    its payload never. *)
Theorem validateChain_detects :
  (forall chain i block h,
      (1 <= i)%nat -> nth_error chain i = Some block -> sealed block ->
      h <> hash block ->
      Service.validateChain (tamper i (with_hash h) chain) = false)
  /\ (forall chain i block d,
         (1 <= i)%nat -> nth_error chain i = Some block ->
         Service.calculateHash (with_data d block) <> hash block ->
         Service.validateChain (tamper i (with_data d) chain) = false)
  /\ (forall chain i block d,
         nth_error chain i = Some block ->
         Service.calculateHash (with_data d block) = Service.calculateHash block ->
         Service.validateChain (tamper i (with_data d) chain)
         = Service.validateChain chain)
  /\ (forall chain i block d,
         (1 <= i)%nat -> nth_error chain i = Some block -> sealed block ->
         dated_payload d -> dated_payload (data block) -> d <> data block ->
         ~ collide (block_text (with_data d block)) (block_text block) ->
         Service.validateChain (tamper i (with_data d) chain) = false)
  /\ (forall l : list held,
         Runtime.validateChain (VArr (map value_of l))
         = Returns (Service.validateChain (map block_of l)))
  /\ (forall first second rest h,
         previousHash second = hash first -> h <> hash first ->
         Service.validateChain (tamper 0 (with_hash h) (first :: second :: rest)) = false)
  /\ (forall chain d,
         Service.validateChain (tamper 0 (with_data d) chain)
         = Service.validateChain chain)
  /\ (forall first f, Service.validateChain (tamper 0 f [first]) = true).
Proof.
  assert (Data : forall chain i block d,
             (1 <= i)%nat -> nth_error chain i = Some block ->
             Service.calculateHash (with_data d block) <> hash block ->
             Service.validateChain (tamper i (with_data d) chain) = false).
  { intros chain i block d Hi N D.
    apply (unsealed_rejected _ i (with_data d block) Hi).
    - apply nth_error_tamper, N.
    - unfold sealed. cbn [hash with_data]. congruence. }
  split; [|split; [exact Data|split; [|split; [|split; [|split; [|split]]]]]].
  - intros chain i block h Hi N S D.
    apply (unsealed_rejected _ i (with_hash h block) Hi).
    + apply nth_error_tamper, N.
    + unfold sealed. rewrite calculateHash_with_hash. cbn [hash with_hash].
      unfold sealed in S. congruence.
  - intros [|first rest] [|i] block d N C; try discriminate N.
    + cbn [tamper]. rewrite !validateChain_links. apply valid_links_previous. reflexivity.
    + cbn [tamper]. rewrite !validateChain_links. cbn [nth_error] in N.
      apply (valid_links_tamper (with_data d) block); [reflexivity|reflexivity|exact C|exact N].
  - intros chain i block d Hi N S Dd Db Ne Co.
    apply (Data chain i block d Hi N).
    unfold sealed in S. rewrite S, !calculateHash_text. intros G.
    apply Co. split; [apply block_text_payload; assumption|exact G].
  - apply held_validateChain.
  - intros first second rest h P D. cbn [tamper].
    rewrite validateChain_links. cbn [valid_links hash with_hash].
    rewrite P. apply not_eq_sym in D. apply String.eqb_neq in D. rewrite D.
    apply andb_false_intro1, andb_false_intro2. reflexivity.
  - intros [|first rest] d; [reflexivity|]. cbn [tamper].
    rewrite !validateChain_links. apply valid_links_previous. reflexivity.
  - reflexivity.
Qed.

Lemma validateChain_detects_witness :
  Service.validateChain (tamper 2 (with_hash "00") Sample.chain2) = false
  /\ Service.validateChain (tamper 1 (with_data Sample.forged) Sample.chain2) = false
  /\ Service.validateChain (tamper 0 (with_hash "00") Sample.chain2) = false
  /\ Runtime.validateChain
       (VArr (map value_of [Built Sample.genesis; Read Sample.block1; Built Sample.block2]))
     = Returns true.
Proof.
  destruct validateChain_detects as (H1 & _ & _ & H4 & H5 & H6 & _).
  split; [|split; [|split]].
  - apply (H1 Sample.chain2 2%nat Sample.block2 "00").
    + lia.
    + reflexivity.
    + vm_compute. reflexivity.
    + intros H. vm_compute in H. discriminate H.
  - apply (H4 Sample.chain2 1%nat Sample.block1 Sample.forged).
    + lia.
    + reflexivity.
    + vm_compute. reflexivity.
    + split; vm_compute; intros H; discriminate H.
    + split; vm_compute; intros H; discriminate H.
    + intros H. discriminate H.
    + intros [_ H]. vm_compute in H. discriminate H.
  - apply (H6 Sample.genesis Sample.block1 [Sample.block2] "00").
    + reflexivity.
    + intros H. discriminate H.
  - rewrite H5. vm_compute. reflexivity.
Defined.

(** ** C9: termination *)



